(** * Separating-axis collision test: [collision_detect.cpp]

    A shallow embedding of the rectangle / ROI-polygon intersection test and
    the properties its specification states about it, followed by further
    properties of the code: the algebra of its vectors, the symmetries of
    the result, and the separating-axis theorem for a convex ROI.

    Conventions of the embedding.
    - [int] is the 32-bit two's-complement integer: a [Z] together with the
      wrap-around of every arithmetic operation ([Int.wrap]).  Comparisons,
      [std::min] and [std::max] are exact.  C++ leaves signed overflow
      undefined; the wrap-around keeps the embedding total, and the
      properties that depend on the value of a dot product are stated for
      inputs on which no operation overflows, which is what the data model
      of the specification asks for.
    - [size_t] is the 64-bit unsigned integer; the conversions between
      [size_t] and [int] of lines 108, 109 and 116 are written out.
    - A [std::vector] is a list.  [operator[]] is a partial lookup: an index
      outside the vector has no defined result.  Range-based [for] loops are
      folds over the list.
    - [collision_detect] runs in a small monad that records what the function
      does besides computing its result: the diagnostic it prints and every
      indexed access to a vector. *)

From Stdlib Require Import ZArith List Bool Lia String Ascii Permutation.
Import ListNotations.
Local Open Scope Z_scope.

(** ** Machine integers *)

Module Int.

Definition INT_MAX : Z := 2147483647.
Definition INT_MIN : Z := -2147483648.

Definition in_range (z : Z) : Prop := INT_MIN <= z <= INT_MAX.

(** Reduction of an exact result into the range of [int]. *)
Definition wrap (z : Z) : Z := (z + 2147483648) mod 4294967296 - 2147483648.

Definition add (a b : Z) : Z := wrap (a + b).
Definition sub (a b : Z) : Z := wrap (a - b).
Definition mul (a b : Z) : Z := wrap (a * b).
Definition neg (a : Z) : Z := wrap (- a).

(** Conversion of an [int] to [size_t], and of a [size_t] to [int]. *)
Definition to_size_t (z : Z) : Z := z mod 18446744073709551616.
Definition of_size_t (z : Z) : Z := wrap z.

End Int.

(** ** Vectors, points and rectangles (lines 10-60) *)

Record Vec : Set := mkVec { vx : Z; vy : Z }.
Record Point : Set := mkPoint { px : Z; py : Z }.
Record Rect : Set := mkRect { left : Z; top : Z; width : Z; height : Z }.

(** [Vec::Normal] *)
Definition Normal (v : Vec) : Vec := mkVec (vy v) (Int.neg (vx v)).

(** [Vec::operator*]: the dot product. *)
Definition dot (a rhs : Vec) : Z :=
  Int.add (Int.mul (vx a) (vx rhs)) (Int.mul (vy a) (vy rhs)).

(** [Point::operator-] *)
Definition psub (p rhs : Point) : Vec :=
  mkVec (Int.sub (px p) (px rhs)) (Int.sub (py p) (py rhs)).

(** [Point::toVec] *)
Definition toVec (p : Point) : Vec := mkVec (px p) (py p).

(** ** [rect_to_points] (lines 62-72) *)

Definition push_back {A : Type} (v : list A) (a : A) : list A := v ++ [a].

Definition rect_to_points (rect : Rect) : list Point :=
  let points := [] in
  let points := push_back points (mkPoint (left rect) (top rect)) in
  let points := push_back points
      (mkPoint (Int.add (left rect) (width rect)) (top rect)) in
  let points := push_back points
      (mkPoint (Int.add (left rect) (width rect))
               (Int.add (top rect) (height rect))) in
  let points := push_back points
      (mkPoint (left rect) (Int.add (top rect) (height rect))) in
  points.

(** ** The monad of [collision_detect] *)

Inductive event : Set :=
| Printf (msg : string)      (* a line written to standard output *)
| RoiAt (i : Z)              (* [roi[i]] *)
| RecAt (i : Z).             (* [rec_points[i]] *)

(** A computation yields the events it performed, in order, and its result;
    [None] is a computation whose behaviour is undefined from some point on
    (an access outside a vector). *)
Definition M (A : Type) : Type := (list event * option A)%type.

Definition ret {A} (a : A) : M A := ([], Some a).

Definition bind {A B} (m : M A) (f : A -> M B) : M B :=
  match m with
  | (t, None) => (t, None)
  | (t, Some a) => let (t', r) := f a in (t ++ t', r)
  end.

Notation "x <- m ;; k" := (bind m (fun x => k))
  (at level 61, m at next level, right associativity).
Notation "m ;;; k" := (bind m (fun _ => k))
  (at level 61, right associativity).

Definition emit (e : event) : M unit := ([e], Some tt).

Definition trace {A} (m : M A) : list event := fst m.
Definition result {A} (m : M A) : option A := snd m.

(** [v[i]] for a [size_t] index [i]; [ev] names the vector in the trace. *)
Definition at_ (ev : Z -> event) (v : list Point) (i : Z) : M Point :=
  ([ev i], if i <? 0 then None else nth_error v (Z.to_nat i)).

Definition size {A} (v : list A) : Z := Z.of_nat (List.length v).

Definition newline : string := String (ascii_of_nat 10) EmptyString.

(** ** [collision_detect] (lines 78-150) *)

(** Lines 85-92: the bounding box [(x1, y1, x2, y2)] of the ROI. *)
Definition bounding_box (roi : list Point) : Z * Z * Z * Z :=
  fold_left
    (fun '(x1, y1, x2, y2) p =>
       (Z.min x1 (px p), Z.min y1 (py p), Z.max x2 (px p), Z.max y2 (py p)))
    roi (Int.INT_MAX, Int.INT_MAX, Int.INT_MIN, Int.INT_MIN).

(** Lines 95-96: the condition of the early return. *)
Definition boxes_disjoint (roi : list Point) (rect : Rect) : bool :=
  let '(x1, y1, x2, y2) := bounding_box roi in
  (left rect >? x2) || (Int.add (left rect) (width rect) <? x1) ||
  (top rect >? y2) || (Int.add (top rect) (height rect) <? y1).

(** Lines 126-140: the interval [(min, max)] of the projections of the
    points of one shape on [normal]. *)
Definition project (normal : Vec) (pts : list Point) : Z * Z :=
  fold_left
    (fun '(pj_min, pj_max) p =>
       let len := dot normal (toVec p) in
       (Z.min pj_min len, Z.max pj_max len))
    pts (Int.INT_MAX, Int.INT_MIN).

(** Line 143: the test for a separating axis. *)
Definition separated (normal : Vec) (roi rec_points : list Point) : bool :=
  let '(roi_pj_min, roi_pj_max) := project normal roi in
  let '(rec_pj_min, rec_pj_max) := project normal rec_points in
  (rec_pj_min >? roi_pj_max) || (rec_pj_max <? roi_pj_min).

(** Line 116: [int idx = project_cnt - roi.size()], computed in [size_t]. *)
Definition rect_idx (roi : list Point) (project_cnt : Z) : Z :=
  Int.of_size_t (Int.to_size_t (Int.to_size_t project_cnt - size roi)).

(** Lines 110-119: the end points of the edge of iteration [i]. *)
Definition edge_points (roi rec_points : list Point) (project_cnt i : Z)
  : M (Point * Point) :=
  if i <? size roi then
    p0 <- at_ RoiAt roi i ;;
    p1 <- at_ RoiAt roi ((i + 1) mod size roi) ;;
    ret (p0, p1)
  else
    let idx := rect_idx roi project_cnt in
    p0 <- at_ RecAt rec_points (Int.to_size_t idx) ;;
    p1 <- at_ RecAt rec_points (Int.to_size_t (Int.add idx 1)) ;;
    ret (p0, p1).

(** Lines 121-122: the axis of an edge. *)
Definition edge_normal (e : Point * Point) : Vec :=
  let (p0, p1) := e in
  let v := psub p1 p0 in
  Normal v.

(** Lines 109-149: the loop over the axes, with [todo] iterations left and
    the counter at [i]; leaving the loop returns [true]. *)
Fixpoint sat_loop (roi rec_points : list Point) (project_cnt : Z)
    (todo : nat) (i : Z) : M bool :=
  match todo with
  | O => ret true
  | S todo' =>
      e <- edge_points roi rec_points project_cnt i ;;
      let normal := edge_normal e in
      if separated normal roi rec_points then ret false
      else sat_loop roi rec_points project_cnt todo' (i + 1)
  end.

(** Line 108: [int project_cnt = roi.size() + 2]. *)
Definition project_count (roi : list Point) : Z :=
  Int.of_size_t (Int.to_size_t (size roi + 2)).

(** The number of iterations of [for (size_t i = 0; i < project_cnt; ++i)]. *)
Definition iterations (project_cnt : Z) : nat :=
  Z.to_nat (Int.to_size_t project_cnt).

(** Lines 99-149: what follows the early return, running [todo] iterations
    of the loop. *)
Definition sat_test_upto (todo : Z -> nat) (roi : list Point) (rect : Rect)
  : M bool :=
  let rec_points := rect_to_points rect in
  let project_cnt := project_count roi in
  sat_loop roi rec_points project_cnt (todo project_cnt) 0.

Definition sat_test : list Point -> Rect -> M bool := sat_test_upto iterations.

Definition collision_detect (roi : list Point) (rect : Rect) : M bool :=
  if size roi <? 3 then
    emit (Printf (String.append "roi points must >= 3" newline)) ;;;
    ret false
  else if boxes_disjoint roi rect then ret false
  else sat_test roi rect.

(** The scenarios of [main] (lines 155-184). *)
Definition main_roi : list Point :=
  [mkPoint 200 0; mkPoint 200 200; mkPoint 0 200].
Definition rect1 : Rect := mkRect 0 0 100 100.
Definition rect2 : Rect := mkRect 50 50 40 40.
Definition rect3 : Rect := mkRect 201 101 50 50.
Definition rect4 : Rect := mkRect 180 100 50 50.

(** ** [main] (lines 153-196) *)

(** The word [main] prints for a result (lines 191 and 194). *)
Definition verdict (ret : bool) : string :=
  if ret then "collision" else "no collision".

(** Lines 190-195: the two lines printed for the four results, and the
    exit status. *)
Definition report (ret1 ret2 ret3 ret4 : bool) : M Z :=
  emit (Printf
    (String.append "collision detect, rect1 and roi:"
      (String.append (verdict ret1)
        (String.append ", rect2 and roi:"
          (String.append (verdict ret2) newline))))) ;;;
  emit (Printf
    (String.append "collision dedect ,rec3 and roi:"
      (String.append (verdict ret3)
        (String.append ", rect4 and roi:"
          (String.append (verdict ret4) newline))))) ;;;
  ret 0.

Definition main : M Z :=
  ret1 <- collision_detect main_roi rect1 ;;
  ret2 <- collision_detect main_roi rect2 ;;
  ret3 <- collision_detect main_roi rect3 ;;
  ret4 <- collision_detect main_roi rect4 ;;
  report ret1 ret2 ret3 ret4.

(** The lines a run writes to standard output. *)
Definition printed (t : list event) : list string :=
  flat_map (fun e => match e with Printf msg => [msg] | _ => [] end) t.

(** * Views of the code

    Names for parts of the computation above, used to state and prove its
    properties; each is related to the code by a lemma below. *)

(** The two components of [project]. *)
Definition pj_min (normal : Vec) (pts : list Point) : Z :=
  fold_left (fun mn p => Z.min mn (dot normal (toVec p))) pts Int.INT_MAX.
Definition pj_max (normal : Vec) (pts : list Point) : Z :=
  fold_left (fun mx p => Z.max mx (dot normal (toVec p))) pts Int.INT_MIN.

(** The four components of [bounding_box]. *)
Definition box_x1 (roi : list Point) : Z :=
  fold_left (fun mn p => Z.min mn (px p)) roi Int.INT_MAX.
Definition box_y1 (roi : list Point) : Z :=
  fold_left (fun mn p => Z.min mn (py p)) roi Int.INT_MAX.
Definition box_x2 (roi : list Point) : Z :=
  fold_left (fun mx p => Z.max mx (px p)) roi Int.INT_MIN.
Definition box_y2 (roi : list Point) : Z :=
  fold_left (fun mx p => Z.max mx (py p)) roi Int.INT_MIN.

(** Values of [int], and points whose coordinates are. *)
Definition is_int (z : Z) : bool :=
  (Int.INT_MIN <=? z) && (z <=? Int.INT_MAX).

Definition int_point (p : Point) : bool := is_int (px p) && is_int (py p).

Definition int_points (pts : list Point) : bool := forallb int_point pts.

(** [m] is the least (greatest) value [f] takes on [l]. *)
Definition least {A} (f : A -> Z) (l : list A) (m : Z) : Prop :=
  (exists p, In p l /\ f p = m) /\ forall p, In p l -> m <= f p.
Definition greatest {A} (f : A -> Z) (l : list A) (m : Z) : Prop :=
  (exists p, In p l /\ f p = m) /\ forall p, In p l -> f p <= m.

(** Vertex [i] of a polygon; the default point is the one [Point()]
    constructs (line 110). *)
Definition vertex (pts : list Point) (i : Z) : Point :=
  nth (Z.to_nat i) pts (mkPoint 0 0).

Definition roi_edge (roi : list Point) (i : Z) : Point * Point :=
  (vertex roi i, vertex roi ((i + 1) mod size roi)).

Definition rect_edge (rect : Rect) (k : Z) : Point * Point :=
  (vertex (rect_to_points rect) k, vertex (rect_to_points rect) (k + 1)).

(** The edge the code takes its axis from in iteration [i]. *)
Definition loop_edge (roi : list Point) (rect : Rect) (i : Z) : Point * Point :=
  if i <? size roi then roi_edge roi i else rect_edge rect 2.

Definition loop_axis (roi : list Point) (rect : Rect) (i : Z) : Vec :=
  edge_normal (loop_edge roi rect i).

(** The values of the counter in [todo] iterations from [i]. *)
Fixpoint counters (i : Z) (todo : nat) : list Z :=
  match todo with
  | O => []
  | S todo' => i :: counters (i + 1) todo'
  end.

(** What an access has to satisfy: an index into the ROI is below its size,
    an index into [rec_points] is 2 or 3 (and so below its size, 4); nothing
    is printed. *)
Definition access_ok (roi rec_points : list Point) (e : event) : Prop :=
  match e with
  | Printf _ => False
  | RoiAt i => 0 <= i < size roi
  | RecAt i => (i = 2 \/ i = 3) /\ 0 <= i < size rec_points
  end.

(** [collision_detect] with the last iteration of the loop left out. *)
Definition collision_detect_short (roi : list Point) (rect : Rect) : M bool :=
  if size roi <? 3 then
    emit (Printf (String.append "roi points must >= 3" newline)) ;;;
    ret false
  else if boxes_disjoint roi rect then ret false
  else sat_test_upto (fun cnt => pred (iterations cnt)) roi rect.

(** * The specification's reading of the test

    The definitions of this module follow the words of the specification,
    over the integers and without reference to the code: the unnormalised
    normal, the dot product, the axes the specification enumerates, the
    strict test on the projection intervals, convex polygons and shapes that
    have a point in common. *)

Module Spec.

Definition normal (v : Vec) : Vec := mkVec (vy v) (- vx v).

Definition dot (a b : Vec) : Z := vx a * vx b + vy a * vy b.

Definition sub (p q : Point) : Vec := mkVec (px p - px q) (py p - py q).

Definition cross (a b : Vec) : Z := vx a * vy b - vy a * vx b.

(** The rectangle as a polygon: top-left, top-right, bottom-right,
    bottom-left. *)
Definition polygon_of (r : Rect) : list Point :=
  [ mkPoint (left r) (top r);
    mkPoint (left r + width r) (top r);
    mkPoint (left r + width r) (top r + height r);
    mkPoint (left r) (top r + height r) ].

(** Edge [i] of a polygon connects vertex [i] to vertex [(i+1) mod n]. *)
Definition edge (pts : list Point) (i : Z) : Vec :=
  sub (vertex pts ((i + 1) mod size pts)) (vertex pts i).

(** The normals of the first [k] edges. *)
Definition axes_of (pts : list Point) (k : nat) : list Vec :=
  map (fun i => normal (edge pts i)) (counters 0 k).

(** One axis per edge of the ROI, then the axes of the first two edges of
    the rectangle. *)
Definition candidate_axes (roi : list Point) (rect : Rect) : list Vec :=
  axes_of roi (List.length roi) ++ axes_of (polygon_of rect) 2.

Definition minimum (l : list Z) : option Z :=
  match l with
  | [] => None
  | x :: l' => Some (fold_left Z.min l' x)
  end.

Definition maximum (l : list Z) : option Z :=
  match l with
  | [] => None
  | x :: l' => Some (fold_left Z.max l' x)
  end.

Definition projections (axis : Vec) (pts : list Point) : list Z :=
  map (fun p => dot axis (toVec p)) pts.

(** [rectangle_max < roi_min] or [rectangle_min > roi_max]. *)
Definition separates (axis : Vec) (roi rectangle : list Point) : bool :=
  match minimum (projections axis roi), maximum (projections axis roi),
        minimum (projections axis rectangle),
        maximum (projections axis rectangle) with
  | Some roi_min, Some roi_max, Some rectangle_min, Some rectangle_max =>
      (rectangle_max <? roi_min) || (rectangle_min >? roi_max)
  | _, _, _, _ => false
  end.

(** No candidate axis separates the two shapes. *)
Definition no_separating_axis (roi : list Point) (rect : Rect) : bool :=
  forallb (fun axis => negb (separates axis roi (polygon_of rect)))
          (candidate_axes roi rect).

(** The side of the supporting line of edge [i] vertex [j] lies on. *)
Definition side (pts : list Point) (i j : Z) : Z :=
  cross (edge pts i) (sub (vertex pts j) (vertex pts i)).

(** All vertices other than its end points lie strictly on the side [s]
    (1 or -1) of every edge: the polygon is convex and wound one way. *)
Definition wound (s : Z) (pts : list Point) : bool :=
  forallb (fun i =>
    forallb (fun j =>
      (j =? i) || (j =? (i + 1) mod size pts) || (0 <? s * side pts i j))
      (counters 0 (List.length pts)))
    (counters 0 (List.length pts)).

Definition convex (pts : list Point) : bool :=
  wound 1 pts || wound (-1) pts.

(** Every vertex lies on the side [s] (1 or -1) of the supporting line of
    every edge, or on the line itself. *)
Definition weakly_wound (s : Z) (pts : list Point) : bool :=
  forallb (fun i =>
    forallb (fun j => 0 <=? s * side pts i j)
      (counters 0 (List.length pts)))
    (counters 0 (List.length pts)).

(** All the vertices lie on one line. *)
Definition flat (pts : list Point) : bool :=
  forallb (fun i =>
    forallb (fun j => side pts i j =? 0)
      (counters 0 (List.length pts)))
    (counters 0 (List.length pts)).

(** A convex polygon in the sense of the glossary: the supporting line of
    every edge keeps all the vertices on one side, the same for all edges
    (the polygon is wound one way), and an angle may be of 180 degrees.
    The vertices do not all lie on one line: the polygon bounds a region. *)
Definition convex_polygon (pts : list Point) : bool :=
  (weakly_wound 1 pts || weakly_wound (-1) pts) && negb (flat pts).

(** Points with rational coordinates are written [(X / C, Y / C)] with a
    common denominator [C > 0]. *)
Fixpoint weighted_sum (f : Point -> Z) (cs : list Z) (pts : list Point) : Z :=
  match cs, pts with
  | c :: cs', p :: pts' => c * f p + weighted_sum f cs' pts'
  | _, _ => 0
  end.

Definition total (cs : list Z) : Z := fold_right Z.add 0 cs.

(** [(X / C, Y / C)] is a convex combination of the vertices: a point of
    the closed region a convex polygon bounds, its boundary included. *)
Definition in_polygon (pts : list Point) (X Y C : Z) : Prop :=
  exists cs, List.length cs = List.length pts /\
             Forall (fun c => 0 <= c) cs /\ total cs = C /\
             weighted_sum px cs pts = X /\ weighted_sum py cs pts = Y.

(** [(X / C, Y / C)] is a point of the closed rectangle. *)
Definition in_rectangle (r : Rect) (X Y C : Z) : Prop :=
  C * left r <= X <= C * (left r + width r) /\
  C * top r <= Y <= C * (top r + height r).

(** The two shapes have a point in common: they overlap or touch. *)
Definition meet (roi : list Point) (r : Rect) : Prop :=
  exists X Y C, 0 < C /\ in_polygon roi X Y C /\ in_rectangle r X Y C.

End Spec.

(** A convex ROI and a rectangle that lies to its right, beyond its bounding
    box, beside the slanted edges of the right-hand vertex. *)
Definition diamond : list Point :=
  [mkPoint 0 10; mkPoint 10 0; mkPoint 20 10; mkPoint 10 20].
Definition beside : Rect := mkRect 21 5 5 10.

(** A rectangle that lies across the right-hand vertex of the diamond: the
    bounding boxes overlap and no axis separates the two shapes. *)
Definition astride : Rect := mkRect 19 5 5 10.

(** A square with a further vertex in the middle of its first edge, where
    the angle is of 180 degrees. *)
Definition flat_cornered : list Point :=
  [mkPoint 0 0; mkPoint 5 0; mkPoint 10 0; mkPoint 10 10; mkPoint 0 10].

(** Three vertices on one line: a list that bounds no region. *)
Definition on_a_line : list Point :=
  [mkPoint 0 0; mkPoint 5 0; mkPoint 10 0].

(** ** Arithmetic without overflow

    The data model of the specification asks that the coordinates fit the
    integer type without overflow while the dot products are accumulated
    (signed overflow has no defined meaning in C++).  [no_overflow] says so
    of an input: every [int] operation the test can perform on it, for any
    of the axes of the loop, yields its exact result. *)

(** The dot product of line 30: two products and their sum. *)
Definition exact_dot (n : Vec) (p : Point) : bool :=
  is_int (vx n * px p) && is_int (vy n * py p) &&
  is_int (vx n * px p + vy n * py p).

(** The axis of the edge from [p0] to [p1] (two differences and a negation,
    lines 45, 46 and 22) and the projections of [pts] on it. *)
Definition exact_axis (pts : list Point) (e : Point * Point) : bool :=
  let (p0, p1) := e in
  is_int (px p1 - px p0) && is_int (py p1 - py p0) &&
  is_int (- (px p1 - px p0)) &&
  forallb (exact_dot (Spec.normal (Spec.sub p1 p0))) pts.

(** The edges the loop takes its axes from: those of the ROI and the bottom
    edge of the rectangle. *)
Definition loop_edges (roi : list Point) (rect : Rect)
  : list (Point * Point) :=
  map (roi_edge roi) (counters 0 (List.length roi)) ++
  [(vertex (Spec.polygon_of rect) 2, vertex (Spec.polygon_of rect) 3)].

(** The number of axes is an [int] (line 108), the vertices of both shapes
    have [int] coordinates (lines 66-68, 95-96), and so have all edge
    vectors, normals and projections. *)
Definition no_overflow (roi : list Point) (rect : Rect) : bool :=
  (size roi + 2 <=? Int.INT_MAX) &&
  int_points roi && int_points (Spec.polygon_of rect) &&
  forallb (exact_axis (roi ++ Spec.polygon_of rect)) (loop_edges roi rect).

(** The width and the height of a rectangle are not negative. *)
Definition proper_rect (r : Rect) : bool :=
  (0 <=? width r) && (0 <=? height r).

(** Coordinates of magnitude at most [coord_bound] never overflow: an edge
    vector then has components of at most twice the bound, and the dot
    product of an edge normal with a vertex at most four times its square,
    which is just below [INT_MAX]; no larger uniform bound does. *)
Definition coord_bound : Z := 23170.

Definition small_point (p : Point) : bool :=
  (- coord_bound <=? px p) && (px p <=? coord_bound) &&
  (- coord_bound <=? py p) && (py p <=? coord_bound).

Definition small_points (pts : list Point) : bool := forallb small_point pts.

Definition small_rect (r : Rect) : bool :=
  proper_rect r && small_points (Spec.polygon_of r).

Definition small (p : Point) : Prop :=
  Z.abs (px p) <= coord_bound /\ Z.abs (py p) <= coord_bound.

(** ** Separation and sides *)

(** The projections of the two shapes by [f] are strictly apart. *)
Definition strictly_apart (f : Point -> Z) (A B : list Point) : Prop :=
  (forall a b, In a A -> In b B -> f b < f a) \/
  (forall a b, In a A -> In b B -> f a < f b).

(** The projection on the normal of ROI edge [j]. *)
Definition along_edge (roi : list Point) (j : Z) (p : Point) : Z :=
  Spec.dot (Spec.normal (Spec.edge roi j)) (toVec p).

(** Some ROI edge separates the shapes. *)
Definition edge_apart (roi : list Point) (rect : Rect) : Prop :=
  exists j, 0 <= j < size roi /\
            strictly_apart (along_edge roi j) roi (Spec.polygon_of rect).

(** The four directions of the coordinate axes. *)
Inductive direction : Set := East | South | West | North.

Definition heading (g : direction) : Vec :=
  match g with
  | East => mkVec 1 0
  | South => mkVec 0 1
  | West => mkVec (-1) 0
  | North => mkVec 0 (-1)
  end.

(** The coordinates of a vector along [g] and across it. *)
Definition fwd (g : direction) (v : Vec) : Z := Spec.dot (heading g) v.
Definition lat (g : direction) (v : Vec) : Z := Spec.cross (heading g) v.

(** The side of the supporting line of edge [i] the point [q] lies on. *)
Definition side_of (pts : list Point) (i : Z) (q : Point) : Z :=
  Spec.cross (Spec.edge pts i) (Spec.sub q (vertex pts i)).

(** ** Further views

    Names used by the properties that follow those of the specification:
    conditions on the input, transformations of the input, and variants of
    the function. *)

(** Values of [int] whose negation is a value of [int] too. *)
Definition negatable (z : Z) : bool := is_int z && is_int (- z).

(** The fields of a rectangle are values of [int]. *)
Definition int_rect (r : Rect) : bool :=
  is_int (left r) && is_int (top r) && is_int (width r) && is_int (height r).

(** [collision_detect] with the loop run over the edges of the ROI only:
    the two iterations for the rectangle are left out. *)
Definition collision_detect_roi_edges (roi : list Point) (rect : Rect)
  : M bool :=
  if size roi <? 3 then
    emit (Printf (String.append "roi points must >= 3" newline)) ;;;
    ret false
  else if boxes_disjoint roi rect then ret false
  else sat_test_upto (fun _ => List.length roi) roi rect.

(** Neither the coordinate axes nor the normal of an ROI edge separates the
    two shapes. *)
Definition unseparated (roi : list Point) (rect : Rect) : Prop :=
  ~ strictly_apart px roi (Spec.polygon_of rect) /\
  ~ strictly_apart py roi (Spec.polygon_of rect) /\
  forall j, 0 <= j < size roi ->
            ~ strictly_apart (along_edge roi j) roi (Spec.polygon_of rect).

(** A change of the unit of length by the factor [k] and of the origin by
    [(dx, dy)], for points, polygons and rectangles. *)
Definition rescale_point (k dx dy : Z) (p : Point) : Point :=
  mkPoint (k * px p + dx) (k * py p + dy).

Definition rescale (k dx dy : Z) (pts : list Point) : list Point :=
  map (rescale_point k dx dy) pts.

Definition rescale_rect (k dx dy : Z) (r : Rect) : Rect :=
  mkRect (k * left r + dx) (k * top r + dy) (k * width r) (k * height r).

(** The exchange of the two coordinates. *)
Definition transpose_point (p : Point) : Point := mkPoint (py p) (px p).

Definition transpose (pts : list Point) : list Point :=
  map transpose_point pts.

Definition transpose_rect (r : Rect) : Rect :=
  mkRect (top r) (left r) (height r) (width r).

(** The closed rectangle [r] lies within the closed rectangle [r']. *)
Definition within (r r' : Rect) : bool :=
  (left r' <=? left r) && (left r + width r <=? left r' + width r') &&
  (top r' <=? top r) && (top r + height r <=? top r' + height r').

(** Two closed rectangles have a point in common: their extents overlap or
    touch along both coordinate axes. *)
Definition overlap (r1 r2 : Rect) : bool :=
  (left r2 <=? left r1 + width r1) && (left r1 <=? left r2 + width r2) &&
  (top r2 <=? top r1 + height r1) && (top r1 <=? top r2 + height r2).

(** The rectangle of width and height 0 at the point [q]. *)
Definition point_rect (q : Point) : Rect := mkRect (px q) (py q) 0 0.

(** [q] is on the side [s] of every edge of the polygon, or on the edge's
    supporting line. *)
Definition on_inner_sides (s : Z) (pts : list Point) (q : Point) : bool :=
  forallb (fun i => 0 <=? s * side_of pts i q)
          (counters 0 (List.length pts)).

(** The two vector accesses of iteration [i] (lines 112-113, 117-118). *)
Definition accesses (roi : list Point) (i : Z) : list event :=
  if i <? size roi then [RoiAt i; RoiAt ((i + 1) mod size roi)]
  else [RecAt 2; RecAt 3].

(** The elements of a list up to the first one that satisfies [P], that one
    included. *)
Fixpoint up_to_first (P : Z -> bool) (l : list Z) : list Z :=
  match l with
  | [] => []
  | j :: l' => if P j then [j] else j :: up_to_first P l'
  end.

(** The iterations the loop runs: up to the first one whose axis separates
    the shapes. *)
Definition iterations_run (roi : list Point) (rect : Rect) : list Z :=
  up_to_first
    (fun j => separated (loop_axis roi rect j) roi (rect_to_points rect))
    (counters 0 (iterations (project_count roi))).

(** The axes a run of [collision_detect] examines, iteration by iteration:
    none when the function returns before the loop (lines 80-83, 95-98),
    else those of the iterations the loop runs; [None] stands for an access
    outside a vector. *)
Definition axes_examined (roi : list Point) (rect : Rect)
  : list (option Vec) :=
  if size roi <? 3 then []
  else if boxes_disjoint roi rect then []
  else map (fun i => option_map edge_normal
                       (result (edge_points roi (rect_to_points rect)
                                            (project_count roi) i)))
           (iterations_run roi rect).

(** The point with the rational coordinates [(hx / hc, hy / hc)], for
    [hc > 0]. *)
Record HPoint : Set := mkH { hx : Z; hy : Z; hc : Z }.

Definition at_point (p : Point) : HPoint := mkH (px p) (py p) 1.

(** The combination of two points with the weights [a] and [b]. *)
Definition hcomb (a : Z) (v : HPoint) (b : Z) (w : HPoint) : HPoint :=
  mkH (a * hx v + b * hx w) (a * hy v + b * hy w) (a * hc v + b * hc w).

(** A convex region of the plane, as a property of its points that
    combinations with non-negative weights keep. *)
Definition region : Type := HPoint -> Prop.

Definition convex_region (S : region) : Prop :=
  forall a v b w, 0 <= a -> 0 <= b -> S v -> S w -> S (hcomb a v b w).

(** The side of the supporting line of edge [i] a rational point lies on,
    scaled by the denominator of the point. *)
Definition hside (pts : list Point) (i : Z) (v : HPoint) : Z :=
  Spec.cross (Spec.edge pts i)
             (mkVec (hx v - hc v * px (vertex pts i))
                    (hy v - hc v * py (vertex pts i))).

(** The closed half-plane on the side [s] of edge [i]. *)
Definition edge_region (s : Z) (pts : list Point) (i : Z) : region :=
  fun v => 0 <= s * hside pts i v.

(** The four closed half-planes that bound a rectangle. *)
Definition box_regions (r : Rect) : list region :=
  [ (fun v => hc v * left r <= hx v);
    (fun v => hx v <= hc v * (left r + width r));
    (fun v => hc v * top r <= hy v);
    (fun v => hy v <= hc v * (top r + height r)) ].

(** Weights that are [w] at the index [a] and 0 elsewhere. *)
Definition spike (a w : Z) (j : Z) : Z := if j =? a then w else 0.

(** * Properties *)

(** ** Machine integers *)

Lemma wrap_small z : Int.in_range z -> Int.wrap z = z.
Proof.
  unfold Int.in_range, Int.INT_MIN, Int.INT_MAX, Int.wrap. intros H.
  rewrite Z.mod_small; lia.
Qed.

Lemma wrap_in_range z : Int.in_range (Int.wrap z).
Proof.
  unfold Int.in_range, Int.INT_MIN, Int.INT_MAX, Int.wrap.
  pose proof (Z.mod_pos_bound (z + 2147483648) 4294967296). lia.
Qed.

Lemma dot_in_range a b : Int.in_range (dot a b).
Proof. apply wrap_in_range. Qed.

Lemma to_size_t_small z : 0 <= z < 18446744073709551616 -> Int.to_size_t z = z.
Proof. intros H. unfold Int.to_size_t. now apply Z.mod_small. Qed.

(** Goals that state that a bounded value is an [int]. *)
Ltac int_range :=
  unfold Int.in_range, Int.INT_MIN, Int.INT_MAX in *; lia.

(** ** Running minimum and maximum *)

Section Folds.

Variable A : Type.
Variable f : A -> Z.

Lemma fold_min_max_split (l : list A) (lo hi : Z) :
  fold_left (fun '(mn, mx) p => (Z.min mn (f p), Z.max mx (f p))) l (lo, hi)
  = (fold_left (fun mn p => Z.min mn (f p)) l lo,
     fold_left (fun mx p => Z.max mx (f p)) l hi).
Proof.
  revert lo hi. induction l as [|p l IH]; intros lo hi; simpl.
  - reflexivity.
  - apply IH.
Qed.

Lemma fold_min_le_init (l : list A) (lo : Z) :
  fold_left (fun mn p => Z.min mn (f p)) l lo <= lo.
Proof.
  revert lo. induction l as [|p l IH]; intros lo; simpl.
  - lia.
  - specialize (IH (Z.min lo (f p))). lia.
Qed.

Lemma fold_min_le (l : list A) (lo : Z) (p : A) :
  In p l -> fold_left (fun mn p => Z.min mn (f p)) l lo <= f p.
Proof.
  revert lo. induction l as [|q l IH]; intros lo Hin; simpl.
  - destruct Hin.
  - destruct Hin as [-> | Hin].
    + pose proof (fold_min_le_init l (Z.min lo (f p))). lia.
    + now apply IH.
Qed.

Lemma fold_min_attained (l : list A) (lo : Z) :
  fold_left (fun mn p => Z.min mn (f p)) l lo = lo \/
  exists p, In p l /\ fold_left (fun mn p => Z.min mn (f p)) l lo = f p.
Proof.
  revert lo. induction l as [|q l IH]; intros lo; simpl.
  - now left.
  - destruct (IH (Z.min lo (f q))) as [E | (p & Hp & E)].
    + rewrite E. destruct (Z.min_spec lo (f q)) as [[_ ->] | [_ ->]].
      * now left.
      * right. exists q. auto.
    + right. exists p. auto.
Qed.

Lemma fold_max_ge_init (l : list A) (hi : Z) :
  hi <= fold_left (fun mx p => Z.max mx (f p)) l hi.
Proof.
  revert hi. induction l as [|p l IH]; intros hi; simpl.
  - lia.
  - specialize (IH (Z.max hi (f p))). lia.
Qed.

Lemma fold_max_ge (l : list A) (hi : Z) (p : A) :
  In p l -> f p <= fold_left (fun mx p => Z.max mx (f p)) l hi.
Proof.
  revert hi. induction l as [|q l IH]; intros hi Hin; simpl.
  - destruct Hin.
  - destruct Hin as [-> | Hin].
    + pose proof (fold_max_ge_init l (Z.max hi (f p))). lia.
    + now apply IH.
Qed.

Lemma fold_max_attained (l : list A) (hi : Z) :
  fold_left (fun mx p => Z.max mx (f p)) l hi = hi \/
  exists p, In p l /\ fold_left (fun mx p => Z.max mx (f p)) l hi = f p.
Proof.
  revert hi. induction l as [|q l IH]; intros hi; simpl.
  - now left.
  - destruct (IH (Z.max hi (f q))) as [E | (p & Hp & E)].
    + rewrite E. destruct (Z.max_spec hi (f q)) as [[_ ->] | [_ ->]].
      * right. exists q. auto.
      * now left.
    + right. exists p. auto.
Qed.

(** With values in the range of [int] and at least one element, the
    initial values [INT_MAX] and [INT_MIN] leave no mark. *)
Lemma fold_min_is_min (l : list A) :
  l <> [] -> (forall p, In p l -> Int.in_range (f p)) ->
  exists p, In p l /\
    fold_left (fun mn p => Z.min mn (f p)) l Int.INT_MAX = f p.
Proof.
  intros Hne Hr.
  destruct (fold_min_attained l Int.INT_MAX) as [E | H]; [|exact H].
  destruct l as [|q l]; [congruence|].
  exists q. split; [now left|].
  pose proof (fold_min_le (q :: l) Int.INT_MAX q (or_introl eq_refl)) as Hle.
  pose proof (Hr q (or_introl eq_refl)) as [_ Hq]. lia.
Qed.

Lemma fold_max_is_max (l : list A) :
  l <> [] -> (forall p, In p l -> Int.in_range (f p)) ->
  exists p, In p l /\
    fold_left (fun mx p => Z.max mx (f p)) l Int.INT_MIN = f p.
Proof.
  intros Hne Hr.
  destruct (fold_max_attained l Int.INT_MIN) as [E | H]; [|exact H].
  destruct l as [|q l]; [congruence|].
  exists q. split; [now left|].
  pose proof (fold_max_ge (q :: l) Int.INT_MIN q (or_introl eq_refl)) as Hle.
  pose proof (Hr q (or_introl eq_refl)) as [Hq _]. lia.
Qed.

End Folds.

Arguments fold_min_max_split {A} f l lo hi.
Arguments fold_min_le {A} f l lo p.
Arguments fold_max_ge {A} f l hi p.
Arguments fold_min_is_min {A} f l.
Arguments fold_max_is_max {A} f l.

(** ** Pure views of the two folds *)

Lemma project_eq normal pts :
  project normal pts = (pj_min normal pts, pj_max normal pts).
Proof.
  unfold project, pj_min, pj_max.
  exact (fold_min_max_split (fun p => dot normal (toVec p)) pts _ _).
Qed.

Lemma separated_eq normal roi rec_points :
  separated normal roi rec_points =
  (pj_min normal rec_points >? pj_max normal roi) ||
  (pj_max normal rec_points <? pj_min normal roi).
Proof. unfold separated. now rewrite !project_eq. Qed.

Lemma bounding_box_eq roi :
  bounding_box roi = (box_x1 roi, box_y1 roi, box_x2 roi, box_y2 roi).
Proof.
  unfold bounding_box, box_x1, box_y1, box_x2, box_y2.
  enough (G : forall a b c d,
    fold_left
      (fun '(x1, y1, x2, y2) p =>
         (Z.min x1 (px p), Z.min y1 (py p), Z.max x2 (px p), Z.max y2 (py p)))
      roi (a, b, c, d)
    = (fold_left (fun mn p => Z.min mn (px p)) roi a,
       fold_left (fun mn p => Z.min mn (py p)) roi b,
       fold_left (fun mx p => Z.max mx (px p)) roi c,
       fold_left (fun mx p => Z.max mx (py p)) roi d)) by apply G.
  induction roi as [|p roi IH]; intros a b c d; simpl.
  - reflexivity.
  - apply IH.
Qed.

Lemma boxes_disjoint_eq roi rect :
  boxes_disjoint roi rect =
  (left rect >? box_x2 roi) ||
  (Int.add (left rect) (width rect) <? box_x1 roi) ||
  (top rect >? box_y2 roi) ||
  (Int.add (top rect) (height rect) <? box_y1 roi).
Proof. unfold boxes_disjoint. now rewrite bounding_box_eq. Qed.

Lemma int_point_range p :
  int_point p = true -> Int.in_range (px p) /\ Int.in_range (py p).
Proof.
  unfold int_point, is_int, Int.in_range.
  rewrite !andb_true_iff, !Z.leb_le. tauto.
Qed.

Lemma int_points_In pts p :
  int_points pts = true -> In p pts ->
  Int.in_range (px p) /\ Int.in_range (py p).
Proof.
  unfold int_points. rewrite forallb_forall. intros H Hin.
  now apply int_point_range, H.
Qed.

Lemma bounding_box_extremes roi :
  roi <> [] -> int_points roi = true ->
  least px roi (box_x1 roi) /\ least py roi (box_y1 roi) /\
  greatest px roi (box_x2 roi) /\ greatest py roi (box_y2 roi).
Proof.
  intros Hne Hwf.
  assert (Hx : forall p, In p roi -> Int.in_range (px p))
    by (intros p Hp; now destruct (int_points_In roi p Hwf Hp)).
  assert (Hy : forall p, In p roi -> Int.in_range (py p))
    by (intros p Hp; now destruct (int_points_In roi p Hwf Hp)).
  unfold least, greatest, box_x1, box_y1, box_x2, box_y2.
  repeat split.
  - destruct (fold_min_is_min px roi Hne Hx) as (p & Hp & E). eauto.
  - intros p Hp. now apply (fold_min_le px).
  - destruct (fold_min_is_min py roi Hne Hy) as (p & Hp & E). eauto.
  - intros p Hp. now apply (fold_min_le py).
  - destruct (fold_max_is_max px roi Hne Hx) as (p & Hp & E). eauto.
  - intros p Hp. now apply (fold_max_ge px).
  - destruct (fold_max_is_max py roi Hne Hy) as (p & Hp & E). eauto.
  - intros p Hp. now apply (fold_max_ge py).
Qed.

Lemma size_nonneg {A} (v : list A) : 0 <= size v.
Proof. unfold size. lia. Qed.

Lemma size_pos_nonempty {A} (v : list A) : 0 < size v -> v <> [].
Proof. intros H ->. unfold size in H. simpl in H. lia. Qed.

(** ** The loop over the axes *)

Lemma bind_Some {A B} (m : M A) (f : A -> M B) t a :
  m = (t, Some a) -> bind m f = (t ++ trace (f a), result (f a)).
Proof. intros ->. unfold bind, trace, result. now destruct (f a). Qed.

Lemma counters_length i todo : List.length (counters i todo) = todo.
Proof. revert i. induction todo; intros i; simpl; auto. Qed.

Lemma counters_In i todo j :
  In j (counters i todo) <-> i <= j < i + Z.of_nat todo.
Proof.
  revert i. induction todo as [|t IH]; intros i; simpl.
  - lia.
  - rewrite IH. lia.
Qed.

Lemma counters_snoc i todo :
  counters i (S todo) = counters i todo ++ [i + Z.of_nat todo].
Proof.
  revert i. induction todo as [|t IH]; intros i.
  - simpl. now rewrite Z.add_0_r.
  - change (counters i (S (S t))) with (i :: counters (i + 1) (S t)).
    rewrite IH. simpl. do 3 f_equal. lia.
Qed.

Lemma at_In ev v i :
  0 <= i < size v -> at_ ev v i = ([ev i], Some (vertex v i)).
Proof.
  unfold at_, vertex, size. intros H.
  destruct (i <? 0) eqn:E; [apply Z.ltb_lt in E; lia|].
  f_equal. apply nth_error_nth'. lia.
Qed.

Section Loop.

Variable roi : list Point.
Variable rect : Rect.

(** When the number of vertices plus two is an [int], line 108 computes
    it and the loop runs that many times. *)
Lemma project_count_fits :
  size roi + 2 <= Int.INT_MAX -> project_count roi = size roi + 2.
Proof.
  intros Hfit. pose proof (size_nonneg roi) as Hsize.
  unfold project_count, Int.of_size_t. unfold Int.INT_MAX in Hfit.
  rewrite to_size_t_small by lia.
  apply wrap_small. int_range.
Qed.

Lemma iterations_fits :
  size roi + 2 <= Int.INT_MAX ->
  iterations (project_count roi) = S (S (List.length roi)).
Proof.
  intros Hfit. pose proof (size_nonneg roi) as Hsize.
  unfold iterations. rewrite (project_count_fits Hfit).
  unfold Int.INT_MAX in Hfit. rewrite to_size_t_small by lia.
  unfold size. lia.
Qed.

(** The index of line 116 is 2 for every ROI: the conversions between
    [size_t] and [int] all agree modulo [2^32]. *)
Lemma rect_idx_project_count : rect_idx roi (project_count roi) = 2.
Proof.
  unfold rect_idx, project_count, Int.of_size_t, Int.to_size_t, Int.wrap.
  set (n := size roi).
  pose proof (Z_div_mod_eq_full (n + 2) 18446744073709551616) as E1.
  set (A := (n + 2) mod 18446744073709551616) in *.
  set (q1 := (n + 2) / 18446744073709551616) in *.
  pose proof (Z_div_mod_eq_full (A + 2147483648) 4294967296) as E2.
  set (A' := (A + 2147483648) mod 4294967296) in *.
  set (q2 := (A + 2147483648) / 4294967296) in *.
  pose proof (Z_div_mod_eq_full (A' - 2147483648) 18446744073709551616)
    as E3.
  set (B := (A' - 2147483648) mod 18446744073709551616) in *.
  set (q3 := (A' - 2147483648) / 18446744073709551616) in *.
  pose proof (Z_div_mod_eq_full (B - n) 18446744073709551616) as E4.
  set (C := (B - n) mod 18446744073709551616) in *.
  set (q4 := (B - n) / 18446744073709551616) in *.
  enough (E : 2147483650 = (C + 2147483648) mod 4294967296) by lia.
  apply (Z.mod_unique_pos _ _ (- (4294967296 * (q1 + q3 + q4) + q2))); lia.
Qed.

Lemma edge_points_roi i :
  0 <= i < size roi ->
  edge_points roi (rect_to_points rect) (project_count roi) i
  = ([RoiAt i; RoiAt ((i + 1) mod size roi)], Some (roi_edge roi i)).
Proof.
  intros Hi. unfold edge_points.
  destruct (i <? size roi) eqn:E; [|apply Z.ltb_ge in E; lia].
  rewrite (bind_Some _ _ _ _ (at_In RoiAt roi i Hi)).
  assert (Hm : 0 <= (i + 1) mod size roi < size roi)
    by (apply Z.mod_pos_bound; lia).
  rewrite (bind_Some _ _ _ _ (at_In RoiAt roi _ Hm)).
  reflexivity.
Qed.

Lemma edge_points_rect i :
  size roi <= i ->
  edge_points roi (rect_to_points rect) (project_count roi) i
  = ([RecAt 2; RecAt 3], Some (rect_edge rect 2)).
Proof.
  intros Hi. unfold edge_points.
  destruct (i <? size roi) eqn:E; [apply Z.ltb_lt in E; lia|].
  rewrite rect_idx_project_count. reflexivity.
Qed.

Lemma edge_points_fits i :
  0 <= i ->
  exists t, edge_points roi (rect_to_points rect) (project_count roi) i
            = (t, Some (loop_edge roi rect i)) /\
            (t = [RoiAt i; RoiAt ((i + 1) mod size roi)] /\ i < size roi \/
             t = [RecAt 2; RecAt 3] /\ size roi <= i).
Proof.
  intros Hi. unfold loop_edge.
  destruct (i <? size roi) eqn:E.
  - apply Z.ltb_lt in E. eexists. split; [apply edge_points_roi; lia|].
    left. now split.
  - apply Z.ltb_ge in E. eexists. split; [now apply edge_points_rect|].
    right. now split.
Qed.

(** The loop returns [true] exactly when no axis it runs through
    separates the two shapes. *)
Lemma sat_loop_result todo i :
  0 <= i ->
  result (sat_loop roi (rect_to_points rect) (project_count roi) todo i)
  = Some (forallb
            (fun j => negb (separated (loop_axis roi rect j) roi
                                      (rect_to_points rect)))
            (counters i todo)).
Proof.
  revert i. induction todo as [|todo IH]; intros i Hi.
  - reflexivity.
  - destruct (edge_points_fits i Hi) as (t & E & _).
    cbn [sat_loop counters forallb].
    rewrite (bind_Some _ _ _ _ E). unfold result at 1. cbn [snd].
    fold (loop_axis roi rect i).
    destruct (separated (loop_axis roi rect i) roi (rect_to_points rect)).
    + reflexivity.
    + apply IH. lia.
Qed.

End Loop.

(** ** Rectangle to polygon *)

(** C8. [rect_to_points] is total and yields, for every rectangle, the four
    corners top-left, top-right, bottom-right, bottom-left in this order; the
    sums are the [int] additions of lines 66-68, which are the exact sums
    whenever these are values of [int]. *)
Theorem rect_to_points_corners (rect : Rect) :
  rect_to_points rect =
    [ mkPoint (left rect) (top rect);
      mkPoint (Int.add (left rect) (width rect)) (top rect);
      mkPoint (Int.add (left rect) (width rect))
              (Int.add (top rect) (height rect));
      mkPoint (left rect) (Int.add (top rect) (height rect)) ] /\
  size (rect_to_points rect) = 4 /\
  (Int.in_range (left rect + width rect) ->
   Int.add (left rect) (width rect) = left rect + width rect) /\
  (Int.in_range (top rect + height rect) ->
   Int.add (top rect) (height rect) = top rect + height rect).
Proof.
  split; [reflexivity|]. split; [reflexivity|].
  split; intros H; now apply wrap_small.
Qed.

(** ** Invalid input *)

Lemma collision_detect_small roi rect :
  size roi < 3 ->
  collision_detect roi rect =
    ([Printf (String.append "roi points must >= 3" newline)], Some false).
Proof.
  intros H. unfold collision_detect.
  destruct (size roi <? 3) eqn:E; [reflexivity|].
  apply Z.ltb_ge in E. lia.
Qed.

Lemma collision_detect_large roi rect :
  3 <= size roi ->
  collision_detect roi rect =
    if boxes_disjoint roi rect then ret false else sat_test roi rect.
Proof.
  intros H. unfold collision_detect.
  destruct (size roi <? 3) eqn:E; [|reflexivity].
  apply Z.ltb_lt in E. lia.
Qed.

(** C6. With fewer than three ROI points [collision_detect] prints its
    diagnostic and returns [false]: the run is defined (no exception, no
    undefined access), its only event is the message, so neither the
    bounding-box test nor the loop over the axes touched a vector. *)
Theorem degenerate_roi_returns_false (roi : list Point) (rect : Rect) :
  size roi < 3 ->
  result (collision_detect roi rect) = Some false /\
  trace (collision_detect roi rect) =
    [Printf (String.append "roi points must >= 3" newline)] /\
  collision_detect roi rect =
    (emit (Printf (String.append "roi points must >= 3" newline)) ;;;
     ret false).
Proof.
  intros H. rewrite (collision_detect_small roi rect H). now repeat split.
Qed.

Lemma degenerate_roi_witness :
  result (collision_detect [mkPoint 0 0; mkPoint 5 5] rect1) = Some false /\
  trace (collision_detect [mkPoint 0 0; mkPoint 5 5] rect1) =
    [Printf (String.append "roi points must >= 3" newline)] /\
  collision_detect [mkPoint 0 0; mkPoint 5 5] rect1 =
    (emit (Printf (String.append "roi points must >= 3" newline)) ;;;
     ret false).
Proof.
  apply (degenerate_roi_returns_false [mkPoint 0 0; mkPoint 5 5] rect1).
  reflexivity.
Defined.

(** ** The scenarios of [main] *)

(** C5. On the triangle of [main] the four rectangles give [true], [false],
    [false], [true].  For [rect1] the projections on the normal of the
    hypotenuse (edge 2) touch; [rect3] is rejected by the bounding-box test
    before any vertex is accessed. *)
Theorem main_scenarios :
  result (collision_detect main_roi rect1) = Some true /\
  result (collision_detect main_roi rect2) = Some false /\
  result (collision_detect main_roi rect3) = Some false /\
  result (collision_detect main_roi rect4) = Some true /\
  pj_min (loop_axis main_roi rect1 2) (rect_to_points rect1)
    = pj_max (loop_axis main_roi rect1 2) main_roi /\
  boxes_disjoint main_roi rect3 = true /\
  trace (collision_detect main_roi rect3) = [].
Proof. repeat split; vm_compute; reflexivity. Qed.

(** ** The bounding-box test *)

Lemma edge_points_trace roi rec_points cnt i :
  trace (edge_points roi rec_points cnt i) <> [].
Proof.
  unfold edge_points, at_, bind, trace.
  destruct (i <? size roi).
  - destruct (if i <? 0 then None else nth_error roi (Z.to_nat i));
      [|simpl; discriminate].
    destruct (if (i + 1) mod size roi <? 0 then None else _);
      simpl; discriminate.
  - destruct (if Int.to_size_t (rect_idx roi cnt) <? 0 then None else _);
      [|simpl; discriminate].
    destruct (if Int.to_size_t (Int.add (rect_idx roi cnt) 1) <? 0
              then None else _); simpl; discriminate.
Qed.

Lemma bind_trace_nonempty {A B} (m : M A) (f : A -> M B) :
  trace m <> [] -> trace (bind m f) <> [].
Proof.
  destruct m as [t [a|]]; unfold trace; simpl; auto.
  destruct (f a) as [t' r]. simpl. intros H E.
  apply app_eq_nil in E. tauto.
Qed.

Lemma sat_loop_not_immediate roi rec_points cnt todo i :
  sat_loop roi rec_points cnt todo i <> ([], Some false).
Proof.
  destruct todo as [|todo]; simpl.
  - discriminate.
  - intros E.
    apply (bind_trace_nonempty (edge_points roi rec_points cnt i)
             (fun e => if separated (edge_normal e) roi rec_points
                       then ret false
                       else sat_loop roi rec_points cnt todo (i + 1))
             (edge_points_trace roi rec_points cnt i)).
    unfold trace. now rewrite E.
Qed.

(** C7. For an ROI of at least three points, [(x1, y1)-(x2, y2)] are the
    least and greatest coordinates of its vertices, and [collision_detect]
    returns [false] at once (before any vertex is accessed by index) exactly
    when the rectangle lies beyond one of the four bounds; the two sums are
    the [int] additions of lines 95-96. *)
Theorem bounding_box_prefilter (roi : list Point) (rect : Rect) :
  3 <= size roi -> int_points roi = true ->
  exists x1 y1 x2 y2,
    bounding_box roi = (x1, y1, x2, y2) /\
    least px roi x1 /\ least py roi y1 /\
    greatest px roi x2 /\ greatest py roi y2 /\
    (collision_detect roi rect = ([], Some false) <->
     left rect > x2 \/ Int.add (left rect) (width rect) < x1 \/
     top rect > y2 \/ Int.add (top rect) (height rect) < y1).
Proof.
  intros Hn Hwf.
  exists (box_x1 roi), (box_y1 roi), (box_x2 roi), (box_y2 roi).
  split; [apply bounding_box_eq|].
  assert (Hne : roi <> []) by (apply size_pos_nonempty; lia).
  destruct (bounding_box_extremes roi Hne Hwf) as (H1 & H2 & H3 & H4).
  repeat (split; [assumption|]).
  rewrite (collision_detect_large roi rect Hn), boxes_disjoint_eq.
  destruct (_ || _ || _ || _) eqn:E.
  - rewrite !orb_true_iff, !Z.gtb_gt, !Z.ltb_lt in E.
    split; [intros _; tauto | reflexivity].
  - rewrite !orb_false_iff, !Z.gtb_ltb, !Z.ltb_ge in E.
    split; [|lia].
    intros Hs. now apply sat_loop_not_immediate in Hs.
Qed.

Lemma bounding_box_prefilter_witness :
  exists x1 y1 x2 y2,
    bounding_box main_roi = (x1, y1, x2, y2) /\
    least px main_roi x1 /\ least py main_roi y1 /\
    greatest px main_roi x2 /\ greatest py main_roi y2 /\
    (collision_detect main_roi rect3 = ([], Some false) <->
     left rect3 > x2 \/ Int.add (left rect3) (width rect3) < x1 \/
     top rect3 > y2 \/ Int.add (top rect3) (height rect3) < y1).
Proof.
  apply (bounding_box_prefilter main_roi rect3).
  - unfold size. simpl. lia.
  - reflexivity.
Defined.

(** ** Vector accesses *)

Lemma sat_loop_trace roi rect :
  3 <= size roi ->
  forall todo i, 0 <= i ->
  Forall (access_ok roi (rect_to_points rect))
    (trace (sat_loop roi (rect_to_points rect) (project_count roi) todo i)).
Proof.
  intros Hn. induction todo as [|todo IH]; intros i Hi.
  - constructor.
  - destruct (edge_points_fits roi rect i Hi) as (t & E & Ht).
    cbn [sat_loop]. rewrite (bind_Some _ _ _ _ E). unfold trace at 1. cbn [fst].
    apply Forall_app. split.
    + destruct Ht as [[-> Hlt] | [-> _]].
      * repeat constructor; try lia; apply Z.mod_pos_bound; lia.
      * repeat constructor; simpl; try lia; auto; cbv; intuition congruence.
    + destruct (separated _ roi _).
      * constructor.
      * apply IH. lia.
Qed.

(** C10. For an ROI of at least three points every indexed access of
    [collision_detect] is inside its vector: the run never becomes
    undefined, the ROI is only read at indices below its size, and
    [rec_points] only at 2 and 3 of its 4 elements. *)
Theorem accesses_in_bounds (roi : list Point) (rect : Rect) :
  3 <= size roi ->
  (exists b, result (collision_detect roi rect) = Some b) /\
  size (rect_to_points rect) = 4 /\
  Forall (access_ok roi (rect_to_points rect))
         (trace (collision_detect roi rect)).
Proof.
  intros Hn. rewrite (collision_detect_large roi rect Hn).
  destruct (boxes_disjoint roi rect).
  - repeat split; [now exists false | constructor].
  - unfold sat_test, sat_test_upto. repeat split.
    + rewrite (sat_loop_result roi rect) by lia. eauto.
    + apply sat_loop_trace; auto; lia.
Qed.

Lemma accesses_in_bounds_witness :
  (exists b, result (collision_detect main_roi rect1) = Some b) /\
  size (rect_to_points rect1) = 4 /\
  Forall (access_ok main_roi (rect_to_points rect1))
         (trace (collision_detect main_roi rect1)).
Proof.
  apply (accesses_in_bounds main_roi rect1).
  unfold size. simpl. lia.
Defined.

(** ** The two iterations for the rectangle *)

Lemma loop_axis_rect roi rect i :
  size roi <= i -> loop_axis roi rect i = edge_normal (rect_edge rect 2).
Proof.
  intros H. unfold loop_axis, loop_edge.
  destruct (i <? size roi) eqn:E; [apply Z.ltb_lt in E; lia | reflexivity].
Qed.

Lemma forallb_repeat_last (P : Z -> bool) (l : list Z) (a b : Z) :
  In a l -> P b = P a -> forallb P (l ++ [b]) = forallb P l.
Proof.
  intros Hin E. rewrite forallb_app. simpl. rewrite andb_true_r, E.
  destruct (forallb P l) eqn:F; [|reflexivity].
  rewrite forallb_forall in F. now rewrite (F a Hin).
Qed.

(** C9. The index of line 116 is 2 whatever the counter is, so every
    iteration past the ROI edges reads [rec_points[2]] and [rec_points[3]]
    and tests the normal of the bottom edge; the last iteration repeats the
    one before it, and leaving it out does not change what
    [collision_detect] returns.  The number of vertices plus two is an
    [int], so that line 108 computes it and the loop ends with the two
    iterations for the rectangle. *)
Theorem last_iteration_redundant (roi : list Point) (rect : Rect) :
  size roi + 2 <= Int.INT_MAX ->
  rect_idx roi (project_count roi) = 2 /\
  (forall i, size roi <= i ->
     edge_points roi (rect_to_points rect) (project_count roi) i =
       ([RecAt 2; RecAt 3],
        Some (mkPoint (Int.add (left rect) (width rect))
                      (Int.add (top rect) (height rect)),
              mkPoint (left rect) (Int.add (top rect) (height rect))))) /\
  result (collision_detect_short roi rect) = result (collision_detect roi rect).
Proof.
  intros Hfit. split; [now apply rect_idx_project_count|].
  split; [intros i Hi; now apply edge_points_rect|].
  unfold collision_detect_short, collision_detect.
  destruct (size roi <? 3); [reflexivity|].
  destruct (boxes_disjoint roi rect); [reflexivity|].
  unfold sat_test, sat_test_upto.
  rewrite !(sat_loop_result roi rect) by lia.
  rewrite (iterations_fits roi Hfit). cbn [pred]. f_equal.
  rewrite (counters_snoc 0 (S (List.length roi))). symmetry.
  apply forallb_repeat_last with (a := size roi).
  - apply counters_In. unfold size. lia.
  - rewrite !loop_axis_rect; unfold size; try lia. reflexivity.
Qed.

Lemma last_iteration_redundant_witness :
  rect_idx main_roi (project_count main_roi) = 2 /\
  (forall i, size main_roi <= i ->
     edge_points main_roi (rect_to_points rect1) (project_count main_roi) i =
       ([RecAt 2; RecAt 3],
        Some (mkPoint (Int.add (left rect1) (width rect1))
                      (Int.add (top rect1) (height rect1)),
              mkPoint (left rect1) (Int.add (top rect1) (height rect1))))) /\
  result (collision_detect_short main_roi rect1)
    = result (collision_detect main_roi rect1).
Proof.
  apply (last_iteration_redundant main_roi rect1).
  unfold size, Int.INT_MAX. simpl. lia.
Defined.

(** ** The axes of the rectangle *)

(** C1. In a run that passes the bounding-box test and finds no separating
    axis, the loop does run through [n + 2] axes, the first [n] of them the
    normals of the ROI edges, but the last two are not the normals of the
    first two edges of the rectangle.  For the diamond and a rectangle
    across its right-hand vertex, both rectangle iterations read
    [rec_points[2]] and [rec_points[3]], as the trace of [collision_detect]
    shows, and both examine [(0, 5)], the normal of the bottom edge, where
    the first two edges have the normals [(0, -5)] and [(10, 0)]; vertices
    0 and 1 of the rectangle are never read. *)
Theorem rectangle_axes_examined :
  Spec.convex diamond = true /\
  boxes_disjoint diamond astride = false /\
  collision_detect diamond astride =
    ([RoiAt 0; RoiAt 1; RoiAt 1; RoiAt 2; RoiAt 2; RoiAt 3; RoiAt 3; RoiAt 0;
      RecAt 2; RecAt 3; RecAt 2; RecAt 3], Some true) /\
  axes_examined diamond astride =
    map Some (Spec.axes_of diamond 4) ++
    [Some (mkVec 0 5); Some (mkVec 0 5)] /\
  Spec.candidate_axes diamond astride =
    Spec.axes_of diamond 4 ++ [mkVec 0 (-5); mkVec 10 0].
Proof. repeat split; vm_compute; reflexivity. Qed.

(** C3. The loop alone does not reject every input the bounding-box test
    rejects.  The rectangle lies to the right of the diamond: the boxes are
    disjoint and [collision_detect] returns [false], but none of the axes of
    the loop separates the two shapes and the loop returns [true]. *)
Theorem prefilter_not_redundant :
  Spec.convex diamond = true /\
  boxes_disjoint diamond beside = true /\
  result (collision_detect diamond beside) = Some false /\
  result (sat_test diamond beside) = Some true /\
  Spec.no_separating_axis diamond beside = false.
Proof. repeat split; vm_compute; reflexivity. Qed.

(** ** The result as a Boolean formula *)

Lemma collision_detect_result roi rect :
  3 <= size roi -> size roi + 2 <= Int.INT_MAX ->
  result (collision_detect roi rect) =
    Some (negb (boxes_disjoint roi rect) &&
          forallb (fun j => negb (separated (loop_axis roi rect j) roi
                                            (rect_to_points rect)))
                  (counters 0 (S (S (List.length roi))))).
Proof.
  intros Hn Hfit. rewrite (collision_detect_large roi rect Hn).
  destruct (boxes_disjoint roi rect); [reflexivity|].
  unfold sat_test, sat_test_upto.
  rewrite (sat_loop_result roi rect) by lia.
  now rewrite (iterations_fits roi Hfit).
Qed.

(** ** Arithmetic without overflow *)

Lemma is_int_range z : is_int z = true -> Int.in_range z.
Proof.
  unfold is_int, Int.in_range. rewrite andb_true_iff, !Z.leb_le. tauto.
Qed.

Lemma exact_dot_eq n p :
  exact_dot n p = true -> dot n (toVec p) = Spec.dot n (toVec p).
Proof.
  unfold exact_dot. rewrite !andb_true_iff. intros [[H1 H2] H3].
  apply is_int_range in H1, H2, H3.
  unfold dot, Spec.dot, Int.add, Int.mul. simpl.
  now rewrite (wrap_small _ H1), (wrap_small _ H2), (wrap_small _ H3).
Qed.

Lemma exact_axis_eq pts p0 p1 :
  exact_axis pts (p0, p1) = true ->
  edge_normal (p0, p1) = Spec.normal (Spec.sub p1 p0) /\
  forall p, In p pts ->
    dot (Spec.normal (Spec.sub p1 p0)) (toVec p)
    = Spec.dot (Spec.normal (Spec.sub p1 p0)) (toVec p).
Proof.
  unfold exact_axis. rewrite !andb_true_iff, forallb_forall.
  intros [[[Hx Hy] Hn] Hd]. apply is_int_range in Hx, Hy, Hn. split.
  - unfold edge_normal, Normal, psub, Int.sub, Int.neg. simpl.
    rewrite (wrap_small _ Hx), (wrap_small _ Hy), (wrap_small _ Hn).
    reflexivity.
  - intros p Hp. now apply exact_dot_eq, Hd.
Qed.

Lemma rect_to_points_exact r :
  int_points (Spec.polygon_of r) = true ->
  rect_to_points r = Spec.polygon_of r.
Proof.
  intros H.
  destruct (int_points_In _ _ H (or_intror (or_intror (or_introl eq_refl))))
    as [Hx Hy].
  simpl in Hx, Hy.
  unfold rect_to_points, push_back, Spec.polygon_of, Int.add. simpl.
  now rewrite (wrap_small _ Hx), (wrap_small _ Hy).
Qed.

Lemma no_overflow_inv roi rect :
  no_overflow roi rect = true ->
  size roi + 2 <= Int.INT_MAX /\
  int_points roi = true /\ int_points (Spec.polygon_of rect) = true /\
  forall e, In e (loop_edges roi rect) ->
            exact_axis (roi ++ Spec.polygon_of rect) e = true.
Proof.
  unfold no_overflow. rewrite !andb_true_iff, Z.leb_le, forallb_forall. tauto.
Qed.

Lemma proper_rect_inv r :
  proper_rect r = true -> 0 <= width r /\ 0 <= height r.
Proof. unfold proper_rect. now rewrite andb_true_iff, !Z.leb_le. Qed.

(** *** Small coordinates do not overflow *)

Lemma small_point_small p : small_point p = true -> small p.
Proof.
  unfold small_point, small. rewrite !andb_true_iff, !Z.leb_le. lia.
Qed.

Lemma small_points_In pts p : small_points pts = true -> In p pts -> small p.
Proof.
  unfold small_points. rewrite forallb_forall. intros H Hin.
  now apply small_point_small, H.
Qed.

Lemma small_points_vertex pts i :
  small_points pts = true -> 0 <= i < size pts -> small (vertex pts i).
Proof.
  intros H Hi. apply (small_points_In pts); [assumption|].
  unfold vertex. apply nth_In. unfold size in Hi. lia.
Qed.

Lemma small_points_int pts : small_points pts = true -> int_points pts = true.
Proof.
  unfold small_points, int_points. rewrite !forallb_forall.
  intros H p Hp. specialize (H p Hp). apply small_point_small in H.
  unfold small, coord_bound in H.
  unfold int_point, is_int, Int.INT_MIN, Int.INT_MAX.
  rewrite !andb_true_iff, !Z.leb_le. lia.
Qed.

Lemma abs_mul_le a b A B :
  Z.abs a <= A -> Z.abs b <= B -> Z.abs (a * b) <= A * B.
Proof.
  intros Ha Hb. rewrite Z.abs_mul.
  apply Z.mul_le_mono_nonneg; auto using Z.abs_nonneg.
Qed.

Lemma abs_is_int z : Z.abs z <= Int.INT_MAX -> is_int z = true.
Proof.
  unfold is_int, Int.INT_MIN, Int.INT_MAX.
  rewrite andb_true_iff, !Z.leb_le. lia.
Qed.

Lemma small_exact_dot n p :
  Z.abs (vx n) <= 2 * coord_bound -> Z.abs (vy n) <= 2 * coord_bound ->
  small p -> exact_dot n p = true.
Proof.
  intros Hx Hy [Hpx Hpy].
  pose proof (abs_mul_le _ _ _ _ Hx Hpx) as H1.
  pose proof (abs_mul_le _ _ _ _ Hy Hpy) as H2.
  unfold exact_dot, coord_bound in *.
  rewrite !andb_true_iff.
  repeat split; apply abs_is_int; unfold Int.INT_MAX; lia.
Qed.

Lemma small_exact_axis pts p0 p1 :
  small p0 -> small p1 -> (forall p, In p pts -> small p) ->
  exact_axis pts (p0, p1) = true.
Proof.
  intros [H0x H0y] [H1x H1y] Hpts.
  unfold exact_axis. rewrite !andb_true_iff, forallb_forall.
  unfold coord_bound in *.
  repeat split; try (apply abs_is_int; unfold Int.INT_MAX; lia).
  intros p Hp. apply small_exact_dot; auto;
    unfold Spec.normal, Spec.sub, coord_bound; simpl; lia.
Qed.

Lemma small_no_overflow roi rect :
  size roi + 2 <= Int.INT_MAX ->
  small_points roi = true -> small_rect rect = true ->
  no_overflow roi rect = true /\ proper_rect rect = true.
Proof.
  intros Hfit Hroi Hrect. unfold small_rect in Hrect.
  apply andb_true_iff in Hrect. destruct Hrect as [Hproper Hcor].
  split; [|assumption].
  assert (Hall : forall p, In p (roi ++ Spec.polygon_of rect) -> small p).
  { intros p Hp. apply in_app_or in Hp.
    destruct Hp; [now apply (small_points_In roi) |
                  now apply (small_points_In (Spec.polygon_of rect))]. }
  unfold no_overflow. rewrite !andb_true_iff, Z.leb_le, forallb_forall.
  repeat split; auto using small_points_int.
  intros e He. unfold loop_edges in He. apply in_app_or in He.
  destruct He as [He | [<- | []]].
  - apply in_map_iff in He. destruct He as (j & <- & Hj).
    apply counters_In in Hj. unfold roi_edge.
    assert (Hn : 0 <= j < size roi) by (unfold size; lia).
    apply small_exact_axis; auto; apply small_points_vertex; auto.
    apply Z.mod_pos_bound. lia.
  - apply small_exact_axis; auto;
      apply (small_points_In (Spec.polygon_of rect)); auto; cbv; auto.
Qed.

(** ** Separation, point by point *)

Lemma strictly_apart_ext f g A B :
  (forall a, In a A -> f a = g a) -> (forall b, In b B -> f b = g b) ->
  strictly_apart f A B -> strictly_apart g A B.
Proof.
  intros HA HB [H | H]; [left | right]; intros a b Ha Hb;
    rewrite <- (HA a Ha), <- (HB b Hb); auto.
Qed.

Lemma separated_iff normal roi rec_points :
  roi <> [] -> rec_points <> [] ->
  separated normal roi rec_points = true <->
  strictly_apart (fun p => dot normal (toVec p)) roi rec_points.
Proof.
  intros Hroi Hrec. rewrite separated_eq. unfold pj_min, pj_max.
  set (f := fun p => dot normal (toVec p)).
  change (fun mn p => Z.min mn (dot normal (toVec p)))
    with (fun mn p => Z.min mn (f p)).
  change (fun mx p => Z.max mx (dot normal (toVec p)))
    with (fun mx p => Z.max mx (f p)).
  assert (Hr : forall l p, In p l -> Int.in_range (f p))
    by (intros; apply dot_in_range).
  destruct (fold_min_is_min f roi Hroi (Hr roi)) as (a0 & Ha0 & Ea0).
  destruct (fold_max_is_max f roi Hroi (Hr roi)) as (a1 & Ha1 & Ea1).
  destruct (fold_min_is_min f rec_points Hrec (Hr _)) as (b0 & Hb0 & Eb0).
  destruct (fold_max_is_max f rec_points Hrec (Hr _)) as (b1 & Hb1 & Eb1).
  rewrite orb_true_iff, Z.gtb_gt, Z.ltb_lt. split.
  - intros [H | H]; [right | left]; intros a b Ha Hb.
    + pose proof (fold_max_ge f roi Int.INT_MIN a Ha).
      pose proof (fold_min_le f rec_points Int.INT_MAX b Hb). lia.
    + pose proof (fold_min_le f roi Int.INT_MAX a Ha).
      pose proof (fold_max_ge f rec_points Int.INT_MIN b Hb). lia.
  - intros [H | H]; [right | left].
    + rewrite Ea0, Eb1. auto.
    + rewrite Ea1, Eb0. apply Z.lt_gt. auto.
Qed.

Lemma minimum_spec l m :
  Spec.minimum l = Some m -> In m l /\ forall x, In x l -> m <= x.
Proof.
  destruct l as [|x l]; [discriminate|]. simpl. intros [= <-].
  change (fold_left Z.min l x)
    with (fold_left (fun mn p => Z.min mn ((fun z => z) p)) l x).
  split.
  - destruct (fold_min_attained Z (fun z => z) l x) as [-> | (p & Hp & ->)];
      auto.
  - intros y [<- | Hy].
    + apply fold_min_le_init.
    + now apply (fold_min_le (fun z => z)).
Qed.

Lemma maximum_spec l m :
  Spec.maximum l = Some m -> In m l /\ forall x, In x l -> x <= m.
Proof.
  destruct l as [|x l]; [discriminate|]. simpl. intros [= <-].
  change (fold_left Z.max l x)
    with (fold_left (fun mx p => Z.max mx ((fun z => z) p)) l x).
  split.
  - destruct (fold_max_attained Z (fun z => z) l x) as [-> | (p & Hp & ->)];
      auto.
  - intros y [<- | Hy].
    + apply fold_max_ge_init.
    + now apply (fold_max_ge (fun z => z)).
Qed.

Lemma spec_separates_iff axis A B :
  A <> [] -> B <> [] ->
  Spec.separates axis A B = true <->
  strictly_apart (fun p => Spec.dot axis (toVec p)) A B.
Proof.
  intros HA HB. unfold Spec.separates, Spec.projections.
  set (f := fun p => Spec.dot axis (toVec p)).
  destruct (Spec.minimum (map f A)) as [a0|] eqn:Ea0;
    [|destruct A; [congruence | discriminate]].
  destruct (Spec.maximum (map f A)) as [a1|] eqn:Ea1;
    [|destruct A; [congruence | discriminate]].
  destruct (Spec.minimum (map f B)) as [b0|] eqn:Eb0;
    [|destruct B; [congruence | discriminate]].
  destruct (Spec.maximum (map f B)) as [b1|] eqn:Eb1;
    [|destruct B; [congruence | discriminate]].
  apply minimum_spec in Ea0, Eb0. apply maximum_spec in Ea1, Eb1.
  destruct Ea0 as [Ia0 La0], Ea1 as [Ia1 La1].
  destruct Eb0 as [Ib0 Lb0], Eb1 as [Ib1 Lb1].
  rewrite in_map_iff in Ia0, Ia1, Ib0, Ib1.
  assert (In' : forall l p, In p l -> In (f p) (map f l))
    by (intros; now apply in_map).
  rewrite orb_true_iff, Z.gtb_gt, Z.ltb_lt. split.
  - intros [H | H]; [left | right]; intros a b Ha Hb.
    + specialize (La0 _ (In' _ _ Ha)). specialize (Lb1 _ (In' _ _ Hb)). lia.
    + specialize (La1 _ (In' _ _ Ha)). specialize (Lb0 _ (In' _ _ Hb)). lia.
  - destruct Ia0 as (p0 & <- & Hp0), Ia1 as (p1 & <- & Hp1).
    destruct Ib0 as (q0 & <- & Hq0), Ib1 as (q1 & <- & Hq1).
    intros [H | H]; [left | right; apply Z.lt_gt]; auto.
Qed.

Lemma spec_separates_false axis A B :
  A <> [] -> B <> [] ->
  Spec.separates axis A B = false <->
  ~ strictly_apart (fun p => Spec.dot axis (toVec p)) A B.
Proof.
  intros HA HB. rewrite <- (spec_separates_iff axis A B HA HB).
  destruct (Spec.separates axis A B); split; congruence.
Qed.

Lemma apart_scale c f A B :
  0 < c ->
  strictly_apart (fun p => c * f p) A B <-> strictly_apart f A B.
Proof.
  intros Hc. unfold strictly_apart.
  split; (intros [H | H]; [left | right]; intros a b Ha Hb;
          specialize (H a b Ha Hb); nia).
Qed.

Lemma apart_constant c A B :
  A <> [] -> B <> [] -> ~ strictly_apart (fun _ => c) A B.
Proof.
  intros HA HB [H | H]; destruct A as [|a A], B as [|b B]; try congruence;
    specialize (H a b (or_introl eq_refl) (or_introl eq_refl)); lia.
Qed.

Lemma apart_flip f A B :
  strictly_apart (fun p => - f p) A B <-> strictly_apart f A B.
Proof.
  unfold strictly_apart.
  split; (intros [H | H]; [right | left]; intros a b Ha Hb;
          specialize (H a b Ha Hb); lia).
Qed.

Lemma apart_scale_nonneg c f A B :
  0 <= c -> A <> [] -> B <> [] ->
  strictly_apart (fun p => c * f p) A B <-> 0 < c /\ strictly_apart f A B.
Proof.
  intros Hc HA HB. destruct (Z.eq_dec c 0) as [-> | Hne].
  - split; [|lia]. intros H. exfalso. revert H. simpl.
    now apply apart_constant.
  - rewrite apart_scale by lia. split; [split; [lia | assumption] | tauto].
Qed.

(** ** The code without overflow *)

Lemma polygon_of_nonempty r : Spec.polygon_of r <> [].
Proof. discriminate. Qed.

Lemma roi_nonempty (roi : list Point) : 3 <= size roi -> roi <> [].
Proof. intros H. apply size_pos_nonempty. lia. Qed.

Lemma some_eq {A} (a b : A) : Some a = Some b -> a = b.
Proof. congruence. Qed.

Section Exact.

Variable roi : list Point.
Variable rect : Rect.
Hypothesis Hn : 3 <= size roi.
Hypothesis Hw : 0 <= width rect.
Hypothesis Hh : 0 <= height rect.
Hypothesis Hexact : no_overflow roi rect = true.

Let corners := Spec.polygon_of rect.

Lemma roi_axis_exact j :
  0 <= j < size roi ->
  separated (loop_axis roi rect j) roi (rect_to_points rect) = true <->
  strictly_apart (along_edge roi j) roi corners.
Proof.
  clear Hw Hh. intros Hj.
  destruct (no_overflow_inv roi rect Hexact) as (_ & _ & Hcor & Hedges).
  rewrite (rect_to_points_exact rect Hcor).
  rewrite separated_iff by (auto using roi_nonempty, polygon_of_nonempty).
  unfold loop_axis, loop_edge.
  destruct (j <? size roi) eqn:E; [|apply Z.ltb_ge in E; lia].
  assert (Hin : In (roi_edge roi j) (loop_edges roi rect)).
  { apply in_or_app. left. apply in_map. apply counters_In.
    unfold size in Hj. lia. }
  unfold roi_edge in *.
  destruct (exact_axis_eq _ _ _ (Hedges _ Hin)) as [-> Hd].
  fold (Spec.edge roi j) in *.
  split; apply strictly_apart_ext; intros p Hp; unfold along_edge;
    [ | | symmetry | symmetry ]; apply Hd; apply in_or_app; auto.
Qed.

Lemma bottom_axis_exact j :
  size roi <= j ->
  separated (loop_axis roi rect j) roi (rect_to_points rect) = true <->
  0 < width rect /\ strictly_apart py roi corners.
Proof.
  clear Hh. intros Hj. rewrite (loop_axis_rect roi rect j Hj).
  destruct (no_overflow_inv roi rect Hexact) as (_ & _ & Hcor & Hedges).
  unfold rect_edge. rewrite (rect_to_points_exact rect Hcor).
  rewrite separated_iff by (auto using roi_nonempty, polygon_of_nonempty).
  change (2 + 1) with 3.
  set (p2 := vertex (Spec.polygon_of rect) 2).
  set (p3 := vertex (Spec.polygon_of rect) 3).
  assert (Hin : In (p2, p3) (loop_edges roi rect))
    by (apply in_or_app; right; left; reflexivity).
  destruct (exact_axis_eq _ _ _ (Hedges _ Hin)) as [-> Hd].
  assert (E : Spec.normal (Spec.sub p3 p2) = mkVec 0 (width rect)).
  { unfold p2, p3, Spec.normal, Spec.sub, vertex. simpl. f_equal; lia. }
  rewrite E in *. clear E.
  rewrite <- (apart_scale_nonneg (width rect) py roi corners Hw
                (roi_nonempty roi Hn) (polygon_of_nonempty rect)).
  split; apply strictly_apart_ext; intros p Hp;
    [ | | symmetry | symmetry ];
    (rewrite Hd; [unfold Spec.dot; simpl; lia | apply in_or_app; auto]).
Qed.

(** The early return fires exactly when the x axis or the y axis
    separates the two shapes. *)
Lemma boxes_disjoint_iff :
  boxes_disjoint roi rect = true <->
  strictly_apart px roi corners \/ strictly_apart py roi corners.
Proof.
  destruct (no_overflow_inv roi rect Hexact) as (_ & Hroi & Hcor & _).
  destruct (bounding_box_extremes roi (roi_nonempty roi Hn) Hroi)
    as (((a1 & Ia1 & Ea1) & L1) & ((b1 & Ib1 & Eb1) & M1) &
        ((a2 & Ia2 & Ea2) & L2) & ((b2 & Ib2 & Eb2) & M2)).
  rewrite boxes_disjoint_eq.
  destruct (int_points_In _ _ Hcor
              (or_intror (or_intror (or_introl eq_refl)))) as [Rx Ry].
  simpl in Rx, Ry.
  assert (Ex : Int.add (left rect) (width rect) = left rect + width rect)
    by now apply wrap_small.
  assert (Ey : Int.add (top rect) (height rect) = top rect + height rect)
    by now apply wrap_small.
  rewrite Ex, Ey, !orb_true_iff, !Z.gtb_gt, !Z.ltb_lt.
  assert (Hc : forall b, In b corners ->
               left rect <= px b <= left rect + width rect /\
               top rect <= py b <= top rect + height rect).
  { intros b [<- | [<- | [<- | [<- | []]]]]; simpl; lia. }
  assert (C0 : In (mkPoint (left rect) (top rect)) corners)
    by (left; reflexivity).
  assert (C2 : In (mkPoint (left rect + width rect)
                           (top rect + height rect)) corners)
    by (right; right; left; reflexivity).
  split.
  - intros [[[H | H] | H] | H].
    + left. right. intros a b Ia Ib.
      specialize (L2 a Ia). destruct (Hc b Ib). lia.
    + left. left. intros a b Ia Ib.
      specialize (L1 a Ia). destruct (Hc b Ib). lia.
    + right. right. intros a b Ia Ib.
      specialize (M2 a Ia). destruct (Hc b Ib). lia.
    + right. left. intros a b Ia Ib.
      specialize (M1 a Ia). destruct (Hc b Ib). lia.
  - intros [[H | H] | [H | H]].
    + specialize (H a1 _ Ia1 C2). simpl in H. lia.
    + specialize (H a2 _ Ia2 C0). simpl in H. lia.
    + specialize (H b1 _ Ib1 C2). simpl in H. lia.
    + specialize (H b2 _ Ib2 C0). simpl in H. lia.
Qed.

(** [collision_detect] returns [true] exactly when neither the two
    coordinate axes nor the normal of an ROI edge separates the shapes. *)
Lemma collision_true_iff :
  result (collision_detect roi rect) = Some true <->
  ~ strictly_apart px roi corners /\
  ~ strictly_apart py roi corners /\
  forall j, 0 <= j < size roi ->
            ~ strictly_apart (along_edge roi j) roi corners.
Proof.
  destruct (no_overflow_inv roi rect Hexact) as (Hfit & _).
  rewrite (collision_detect_result roi rect Hn Hfit).
  pose proof boxes_disjoint_iff as Hbox.
  split.
  - intros H. apply some_eq in H.
    apply andb_true_iff in H. destruct H as [Hb Hl].
    apply negb_true_iff in Hb. rewrite forallb_forall in Hl.
    assert (Nxy : ~ (strictly_apart px roi corners \/
                     strictly_apart py roi corners)).
    { rewrite <- Hbox, Hb. discriminate. }
    repeat split; try tauto.
    intros j Hj Hs. apply (roi_axis_exact j Hj) in Hs.
    assert (Hin : In j (counters 0 (S (S (List.length roi)))))
      by (apply counters_In; unfold size in Hj; lia).
    specialize (Hl j Hin). rewrite Hs in Hl. discriminate.
  - intros (Nx & Ny & Hedges). f_equal. apply andb_true_iff. split.
    + apply negb_true_iff. destruct (boxes_disjoint roi rect); [|reflexivity].
      exfalso. destruct Hbox as [Hbox _]. destruct (Hbox eq_refl); tauto.
    + apply forallb_forall. intros j Hj. apply counters_In in Hj.
      apply negb_true_iff.
      destruct (separated _ roi _) eqn:Es; [exfalso | reflexivity].
      destruct (Z_lt_le_dec j (size roi)) as [Hlt | Hge].
      * apply (roi_axis_exact j) in Es; [|lia].
        now apply (Hedges j); [lia|].
      * apply (bottom_axis_exact j Hge) in Es. tauto.
Qed.

Lemma collision_returns :
  exists b, result (collision_detect roi rect) = Some b.
Proof.
  clear Hw Hh. destruct (no_overflow_inv roi rect Hexact) as (Hfit & _).
  rewrite (collision_detect_result roi rect Hn Hfit). eauto.
Qed.

End Exact.

(** ** Shapes that touch *)

Lemma weighted_sum_linear a b cs pts :
  Spec.weighted_sum (fun p => a * px p + b * py p) cs pts =
  a * Spec.weighted_sum px cs pts + b * Spec.weighted_sum py cs pts.
Proof.
  revert pts. induction cs as [|c cs IH]; intros [|p pts]; simpl; try lia.
  rewrite IH. lia.
Qed.

Lemma weighted_sum_lower f m cs pts :
  List.length cs = List.length pts -> Forall (fun c => 0 <= c) cs ->
  (forall p, In p pts -> m <= f p) ->
  Spec.total cs * m <= Spec.weighted_sum f cs pts.
Proof.
  revert pts. induction cs as [|c cs IH]; intros [|p pts] Hlen Hcs Hm;
    simpl in *; try lia.
  inversion Hcs as [|c' cs' Hc Hcs']; subst.
  assert (H1 : m <= f p) by auto.
  assert (H2 : Spec.total cs * m <= Spec.weighted_sum f cs pts)
    by (apply IH; auto).
  unfold Spec.total in *. nia.
Qed.

Lemma weighted_sum_upper f m cs pts :
  List.length cs = List.length pts -> Forall (fun c => 0 <= c) cs ->
  (forall p, In p pts -> f p <= m) ->
  Spec.weighted_sum f cs pts <= Spec.total cs * m.
Proof.
  revert pts. induction cs as [|c cs IH]; intros [|p pts] Hlen Hcs Hm;
    simpl in *; try lia.
  inversion Hcs as [|c' cs' Hc Hcs']; subst.
  assert (H1 : f p <= m) by auto.
  assert (H2 : Spec.weighted_sum f cs pts <= Spec.total cs * m)
    by (apply IH; auto).
  unfold Spec.total in *. nia.
Qed.

(** A linear form takes on a point of the rectangle a value between those
    it takes on two of the corners. *)
Lemma rectangle_corners_bound r a b X Y C :
  0 < C -> 0 <= width r -> 0 <= height r -> Spec.in_rectangle r X Y C ->
  exists lo hi, In lo (Spec.polygon_of r) /\ In hi (Spec.polygon_of r) /\
    C * (a * px lo + b * py lo) <= a * X + b * Y <=
    C * (a * px hi + b * py hi).
Proof.
  intros HC Hw Hh [[Hx1 Hx2] [Hy1 Hy2]].
  set (xl := left r) in *. set (xr := left r + width r) in *.
  set (yt := top r) in *. set (yb := top r + height r) in *.
  assert (I0 : In (mkPoint xl yt) (Spec.polygon_of r)) by (left; reflexivity).
  assert (I1 : In (mkPoint xr yt) (Spec.polygon_of r))
    by (right; left; reflexivity).
  assert (I2 : In (mkPoint xr yb) (Spec.polygon_of r))
    by (right; right; left; reflexivity).
  assert (I3 : In (mkPoint xl yb) (Spec.polygon_of r))
    by (right; right; right; left; reflexivity).
  destruct (Z_le_gt_dec 0 a) as [Ha | Ha], (Z_le_gt_dec 0 b) as [Hb | Hb].
  - exists (mkPoint xl yt), (mkPoint xr yb). simpl. repeat split; auto; nia.
  - exists (mkPoint xl yb), (mkPoint xr yt). simpl. repeat split; auto; nia.
  - exists (mkPoint xr yt), (mkPoint xl yb). simpl. repeat split; auto; nia.
  - exists (mkPoint xr yb), (mkPoint xl yt). simpl. repeat split; auto; nia.
Qed.

(** No axis separates two shapes that have a point in common. *)
Lemma meet_not_apart roi r a b :
  0 <= width r -> 0 <= height r -> Spec.meet roi r ->
  ~ strictly_apart (fun p => a * px p + b * py p) roi (Spec.polygon_of r).
Proof.
  intros Hw Hh (X & Y & C & HC & (cs & Hlen & Hcs & Htot & HX & HY) & Hin).
  destruct (rectangle_corners_bound r a b X Y C HC Hw Hh Hin)
    as (lo & hi & Ilo & Ihi & Hlo & Hhi).
  set (f := fun p => a * px p + b * py p).
  assert (HF : Spec.weighted_sum f cs roi = a * X + b * Y)
    by (unfold f; rewrite weighted_sum_linear; congruence).
  intros [H | H].
  - assert (Hm : forall p, In p roi -> f hi + 1 <= f p)
      by (intros p Hp; specialize (H p hi Hp Ihi); lia).
    pose proof (weighted_sum_lower f _ cs roi Hlen Hcs Hm) as Hs.
    rewrite HF, Htot in Hs. unfold f in Hs. nia.
  - assert (Hm : forall p, In p roi -> f p <= f lo - 1)
      by (intros p Hp; specialize (H p lo Hp Ilo); lia).
    pose proof (weighted_sum_upper f _ cs roi Hlen Hcs Hm) as Hs.
    rewrite HF, Htot in Hs. unfold f in Hs. nia.
Qed.

Lemma pj_min_le_max normal pts :
  pts <> [] -> pj_min normal pts <= pj_max normal pts.
Proof.
  destruct pts as [|p pts]; [congruence|]. intros _.
  pose proof (fold_min_le (fun q => dot normal (toVec q)) (p :: pts)
                Int.INT_MAX p (or_introl eq_refl)).
  pose proof (fold_max_ge (fun q => dot normal (toVec q)) (p :: pts)
                Int.INT_MIN p (or_introl eq_refl)).
  cbv beta in *. unfold pj_min, pj_max. lia.
Qed.

(** C4. The test of line 143 is strict: an axis on which the two intervals
    only touch does not separate.  So whenever the closed rectangle and the
    closed ROI have a point in common, be it a single vertex or a stretch of
    an edge along which they touch, [collision_detect] returns [true].  The
    input is one of the data model of the specification: the width and the
    height of the rectangle are not negative and no operation of the test
    overflows. *)
Theorem touching_is_collision (roi : list Point) (rect : Rect) :
  3 <= size roi -> proper_rect rect = true -> no_overflow roi rect = true ->
  (forall normal,
     pj_max normal (rect_to_points rect) = pj_min normal roi \/
     pj_min normal (rect_to_points rect) = pj_max normal roi ->
     separated normal roi (rect_to_points rect) = false) /\
  (Spec.meet roi rect -> result (collision_detect roi rect) = Some true).
Proof.
  intros Hn Hproper Hexact. split.
  - intros normal Htouch. rewrite separated_eq.
    pose proof (pj_min_le_max normal roi (roi_nonempty roi Hn)).
    assert (pj_min normal (rect_to_points rect)
            <= pj_max normal (rect_to_points rect))
      by (apply pj_min_le_max; discriminate).
    apply orb_false_iff. rewrite Z.gtb_ltb, !Z.ltb_ge. lia.
  - intros Hmeet.
    destruct (proper_rect_inv rect Hproper) as [Hw Hh].
    apply (collision_true_iff roi rect Hn Hw Hh Hexact).
    split; [|split].
    + intros H. apply (meet_not_apart roi rect 1 0 Hw Hh Hmeet).
      revert H. apply strictly_apart_ext; intros; lia.
    + intros H. apply (meet_not_apart roi rect 0 1 Hw Hh Hmeet).
      revert H. apply strictly_apart_ext; intros; lia.
    + intros j Hj. apply (meet_not_apart roi rect _ _ Hw Hh Hmeet).
Qed.

Lemma touching_is_collision_witness :
  Spec.meet main_roi rect1 /\
  result (collision_detect main_roi rect1) = Some true.
Proof.
  assert (Hmeet : Spec.meet main_roi rect1).
  { exists 200, 200, 2. split; [lia|]. split.
    - exists [1; 0; 1]. repeat split; try reflexivity.
      repeat constructor; lia.
    - unfold Spec.in_rectangle. simpl. lia. }
  split; [exact Hmeet|].
  apply (touching_is_collision main_roi rect1).
  - unfold size. simpl. lia.
  - reflexivity.
  - reflexivity.
  - exact Hmeet.
Defined.

(** ** Convex polygons

    A rectangle that has collapsed to a segment or to a point has only one
    edge direction left, or none.  When it lies beyond the bounding box of a
    convex ROI, an edge of the ROI next to its extreme vertex, or the
    remaining axis of the segment, separates the two. *)

Lemma cross_coords g a b :
  Spec.cross a b = fwd g a * lat g b - lat g a * fwd g b.
Proof.
  destruct g; unfold fwd, lat, Spec.cross, Spec.dot; cbn [heading vx vy]; ring.
Qed.

Lemma fwd_sub g p q :
  fwd g (Spec.sub p q) = fwd g (toVec p) - fwd g (toVec q).
Proof.
  destruct g; unfold fwd, Spec.dot, Spec.sub, toVec; cbn [heading vx vy]; ring.
Qed.

Lemma lat_sub g p q :
  lat g (Spec.sub p q) = lat g (toVec p) - lat g (toVec q).
Proof.
  destruct g; unfold lat, Spec.cross, Spec.sub, toVec; cbn [heading vx vy];
    ring.
Qed.

Lemma cone_bound ux uy wx wy x y :
  0 < wx * uy - wy * ux -> uy <= 0 -> wy <= 0 ->
  ux * y - uy * x <= 0 -> 0 <= wx * y - wy * x -> y <= 0.
Proof.
  intros Hc Hu Hw Ha Hb.
  assert (E : (ux * wy - uy * wx) * y
              = (x * wy - y * wx) * uy + (ux * y - uy * x) * wy) by ring.
  nia.
Qed.

(** A point or a segment [dx .. dx + L] at height [dy], to the right of the
    apex of a cone that opens to the left between [u] and [w]. *)
Lemma corner_cases ux uy wx wy dx dy L :
  ux <= 0 -> wx <= 0 -> 0 < dx -> 0 <= L -> 0 < wx * uy - wy * ux ->
  (0 < ux * dy - uy * dx /\ 0 < ux * dy - uy * (dx + L)) \/
  (wx * dy - wy * dx < 0 /\ wx * dy - wy * (dx + L) < 0) \/
  (0 < L /\ 0 < dy /\ uy <= 0 /\ wy <= 0) \/
  (0 < L /\ dy < 0 /\ 0 <= uy /\ 0 <= wy).
Proof.
  intros Hu Hw Hd HL Hc.
  assert (Point_case : L = 0 ->
            0 < ux * dy - uy * dx \/ wx * dy - wy * dx < 0).
  { intros _.
    destruct (Z_lt_le_dec 0 (ux * dy - uy * dx)) as [HA | HA]; [now left|].
    destruct (Z_lt_le_dec (wx * dy - wy * dx) 0) as [HB | HB]; [now right|].
    exfalso.
    assert (wx * (uy * dx) <= wx * (ux * dy)) by nia.
    assert (ux * (wx * dy) <= ux * (wy * dx)) by nia.
    nia. }
  destruct (Z.lt_trichotomy dy 0) as [Hy | [Hy | Hy]].
  - destruct (Z_lt_le_dec uy 0) as [Huy | Huy].
    + left. split; nia.
    + assert (0 < wy) by nia.
      destruct (Z.eq_dec L 0) as [HL0 | HL0].
      * destruct (Point_case HL0); subst L; rewrite !Z.add_0_r; tauto.
      * right. right. right. lia.
  - subst dy. rewrite !Z.mul_0_r, !Z.sub_0_l.
    destruct (Z_lt_le_dec uy 0) as [Huy | Huy].
    + left. split; nia.
    + right. left. assert (0 < wy) by nia. split; nia.
  - destruct (Z_lt_le_dec 0 wy) as [Hwy | Hwy].
    + right. left. split; nia.
    + assert (uy < 0) by nia.
      destruct (Z.eq_dec L 0) as [HL0 | HL0].
      * destruct (Point_case HL0); subst L; rewrite !Z.add_0_r; tauto.
      * right. right. left. lia.
Qed.

(** The same for either winding [s]. *)
Lemma corner_cases_wound s ux uy wx wy dx dy L :
  s = 1 \/ s = -1 ->
  ux <= 0 -> wx <= 0 -> 0 < dx -> 0 <= L -> 0 < s * (wx * uy - wy * ux) ->
  (s * - (ux * dy - uy * dx) < 0 /\ s * - (ux * dy - uy * (dx + L)) < 0) \/
  (s * (wx * dy - wy * dx) < 0 /\ s * (wx * dy - wy * (dx + L)) < 0) \/
  (0 < L /\ 0 < dy /\ uy <= 0 /\ wy <= 0) \/
  (0 < L /\ dy < 0 /\ 0 <= uy /\ 0 <= wy).
Proof.
  intros [-> | ->] Hu Hw Hd HL Hc.
  - destruct (corner_cases ux uy wx wy dx dy L) as [H | [H | H]];
      auto; try lia.
  - destruct (corner_cases wx wy ux uy dx dy L) as [H | [H | H]];
      auto; try lia.
Qed.

Lemma cone_bound_wound s ux uy wx wy x y :
  s = 1 \/ s = -1 -> 0 < s * (wx * uy - wy * ux) ->
  0 <= s * - (ux * y - uy * x) -> 0 <= s * (wx * y - wy * x) ->
  (uy <= 0 -> wy <= 0 -> y <= 0) /\ (0 <= uy -> 0 <= wy -> 0 <= y).
Proof.
  intros [-> | ->] Hc Ha Hb; split; intros Hu Hw.
  - apply (cone_bound ux uy wx wy x y); lia.
  - enough (- y <= 0) by lia.
    apply (cone_bound wx (- wy) ux (- uy) x (- y)); lia.
  - apply (cone_bound wx wy ux uy x y); lia.
  - enough (- y <= 0) by lia.
    apply (cone_bound ux (- uy) wx (- wy) x (- y)); lia.
Qed.

Lemma In_vertex pts p :
  In p pts -> exists j, 0 <= j < size pts /\ p = vertex pts j.
Proof.
  intros Hin. destruct (In_nth pts p (mkPoint 0 0) Hin) as (k & Hk & E).
  exists (Z.of_nat k). unfold size, vertex. rewrite Nat2Z.id. split; [lia|].
  now symmetry.
Qed.

Lemma vertex_In pts j : 0 <= j < size pts -> In (vertex pts j) pts.
Proof. intros H. unfold vertex. apply nth_In. unfold size in H. lia. Qed.

(** Some vertex is the farthest along any linear form. *)
Lemma farthest_vertex (f : Point -> Z) pts :
  pts <> [] ->
  exists k, 0 <= k < size pts /\ forall p, In p pts -> f p <= f (vertex pts k).
Proof.
  intros Hne.
  induction pts as [|q pts IH]; [congruence|].
  destruct pts as [|q' pts].
  - exists 0. split; [unfold size; simpl; lia|].
    intros p [<- | []]. unfold vertex. simpl. lia.
  - destruct IH as (k & Hk & Hmax); [discriminate|].
    destruct (Z_le_gt_dec (f q) (f (vertex (q' :: pts) k))) as [Hle | Hgt].
    + exists (k + 1). unfold size in *. split; [simpl List.length in *; lia|].
      assert (E : vertex (q :: q' :: pts) (k + 1) = vertex (q' :: pts) k).
      { unfold vertex. replace (Z.to_nat (k + 1)) with (S (Z.to_nat k)) by lia.
        reflexivity. }
      rewrite E. intros p [<- | Hp]; auto.
    + exists 0. unfold size in *. split; [simpl List.length in *; lia|].
      change (vertex (q :: q' :: pts) 0) with q.
      intros p [<- | Hp]; [lia|]. specialize (Hmax p Hp). lia.
Qed.

Section Convex.

Variable roi : list Point.
Variable s : Z.
Hypothesis Hn : 3 <= size roi.
Hypothesis Hs : s = 1 \/ s = -1.
Hypothesis Hwound : Spec.wound s roi = true.

Let n := size roi.

Lemma wound_strict i j :
  0 <= i < n -> 0 <= j < n -> j <> i -> j <> (i + 1) mod n ->
  0 < s * side_of roi i (vertex roi j).
Proof.
  clear Hn Hs. intros Hi Hj Hji Hjn. unfold Spec.wound in Hwound.
  rewrite forallb_forall in Hwound.
  assert (Ii : In i (counters 0 (List.length roi)))
    by (apply counters_In; unfold n, size in Hi; lia).
  assert (Ij : In j (counters 0 (List.length roi)))
    by (apply counters_In; unfold n, size in Hj; lia).
  specialize (Hwound i Ii). rewrite forallb_forall in Hwound.
  specialize (Hwound j Ij).
  rewrite !orb_true_iff, !Z.eqb_eq, Z.ltb_lt in Hwound.
  fold n in Hwound. unfold Spec.side in Hwound. unfold side_of. tauto.
Qed.

Lemma wound_weak i j :
  0 <= i < n -> 0 <= j < n -> 0 <= s * side_of roi i (vertex roi j).
Proof.
  intros Hi Hj.
  destruct (Z.eq_dec j i) as [-> | Hji].
  - unfold side_of, Spec.cross, Spec.sub. simpl. nia.
  - destruct (Z.eq_dec j ((i + 1) mod n)) as [-> | Hjn].
    + unfold side_of, Spec.edge. fold n. unfold Spec.cross. nia.
    + pose proof (wound_strict i j Hi Hj Hji Hjn). lia.
Qed.

Lemma along_edge_side i q :
  along_edge roi i q = along_edge roi i (vertex roi i) - side_of roi i q.
Proof.
  unfold along_edge, side_of, Spec.dot, Spec.cross, Spec.normal, Spec.sub,
    toVec. simpl. ring.
Qed.

(** An edge with all of [B] strictly outside separates [B] from the ROI. *)
Lemma edge_separates i (B : list Point) :
  0 <= i < n ->
  (forall q, In q B -> s * side_of roi i q < 0) ->
  strictly_apart (along_edge roi i) roi B.
Proof.
  intros Hi HB.
  assert (HA : forall a, In a roi -> 0 <= s * side_of roi i a).
  { intros a Ha. destruct (In_vertex roi a Ha) as (j & Hj & ->).
    now apply wound_weak. }
  destruct Hs as [-> | ->]; [right | left]; intros a b Ha Hb;
    specialize (HA a Ha); specialize (HB b Hb);
    rewrite (along_edge_side i a), (along_edge_side i b); lia.
Qed.

End Convex.

(** The neighbours of vertex [k] in a polygon of [n >= 3] vertices. *)
Lemma neighbours n k :
  3 <= n -> 0 <= k < n ->
  let a := (k + n - 1) mod n in
  let b := (k + 1) mod n in
  0 <= a < n /\ 0 <= b < n /\ (a + 1) mod n = k /\
  a <> k /\ b <> k /\ a <> b.
Proof.
  intros Hn Hk a b.
  assert (Ha : a = if k =? 0 then n - 1 else k - 1).
  { unfold a. destruct (k =? 0) eqn:E.
    - apply Z.eqb_eq in E. subst k. apply Z.mod_small. lia.
    - apply Z.eqb_neq in E. symmetry. apply (Z.mod_unique_pos _ _ 1); lia. }
  assert (Hb : b = if k + 1 =? n then 0 else k + 1).
  { unfold b. destruct (k + 1 =? n) eqn:E.
    - apply Z.eqb_eq in E. rewrite E. apply Z.mod_same. lia.
    - apply Z.eqb_neq in E. apply Z.mod_small. lia. }
  assert (Hak : (a + 1) mod n = k).
  { rewrite Ha. destruct (k =? 0) eqn:E.
    - apply Z.eqb_eq in E. subst k.
      replace (n - 1 + 1) with n by lia. apply Z.mod_same. lia.
    - apply Z.eqb_neq in E. replace (k - 1 + 1) with k by lia.
      apply Z.mod_small. lia. }
  rewrite Ha, Hb in *. clear Ha Hb.
  destruct (k =? 0) eqn:E0; destruct (k + 1 =? n) eqn:E1;
    rewrite ?Z.eqb_eq, ?Z.eqb_neq in *; repeat split; try lia; exact Hak.
Qed.

Lemma heading_step g q L :
  let q' := mkPoint (px q + L * vx (heading g)) (py q + L * vy (heading g)) in
  fwd g (toVec q') = fwd g (toVec q) + L /\
  lat g (toVec q') = lat g (toVec q).
Proof.
  destruct g; unfold fwd, lat, Spec.dot, Spec.cross, toVec;
    cbn [heading vx vy px py]; split; ring.
Qed.

Lemma forallb_false {A} (f : A -> bool) l :
  forallb f l = false -> exists x, In x l /\ f x = false.
Proof.
  induction l as [|a l IH]; simpl; [discriminate|].
  rewrite andb_false_iff. intros [H | H].
  - exists a. auto.
  - destruct (IH H) as (x & Hx & E). exists x. auto.
Qed.

(** Round a cycle of [n] positions, a property that holds somewhere and
    fails somewhere starts to hold at some step. *)
Lemma cyclic_transition (P : Z -> bool) n k m :
  0 <= k < n -> 0 <= m < n -> P k = true -> P m = false ->
  exists i, 0 <= i < n /\ P i = false /\ P ((i + 1) mod n) = true.
Proof.
  intros Hk Hm Pk Pm.
  assert (Hwalk : forall d m, 0 <= m < n -> P m = false ->
            P ((m + Z.of_nat d) mod n) = true ->
            exists i, 0 <= i < n /\ P i = false /\ P ((i + 1) mod n) = true).
  { clear k m Hk Hm Pk Pm. induction d as [|d IH]; intros m Hm Pm Pd.
    - rewrite Z.add_0_r, Z.mod_small in Pd by lia. congruence.
    - destruct (P ((m + 1) mod n)) eqn:E.
      + exists m. auto.
      + apply (IH ((m + 1) mod n)); auto.
        * apply Z.mod_pos_bound. lia.
        * rewrite Zplus_mod_idemp_l.
          replace (m + 1 + Z.of_nat d) with (m + Z.of_nat (S d)) by lia.
          exact Pd. }
  apply (Hwalk (Z.to_nat ((k - m) mod n)) m Hm Pm).
  rewrite Z2Nat.id by (apply Z.mod_pos_bound; lia).
  rewrite Zplus_mod_idemp_r. replace (m + (k - m)) with k by ring.
  rewrite Z.mod_small by lia. exact Pk.
Qed.

(** The side of an edge in the coordinates along and across [g]. *)
Lemma side_coords g roi i q :
  let X p := fwd g (toVec p) in
  let Y p := lat g (toVec p) in
  let v := vertex roi i in
  let v' := vertex roi ((i + 1) mod size roi) in
  side_of roi i q = (X v' - X v) * (Y q - Y v) - (Y v' - Y v) * (X q - X v).
Proof.
  intros X Y v v'. unfold side_of, Spec.edge. fold v v'.
  rewrite (cross_coords g), !fwd_sub, !lat_sub. reflexivity.
Qed.

(** An edge with all of the ROI on one side of it, or on it, and all of [B]
    strictly on the other side separates [B] from the ROI. *)
Lemma outer_edge_separates roi s i (B : list Point) :
  s = 1 \/ s = -1 ->
  (forall a, In a roi -> 0 <= s * side_of roi i a) ->
  (forall q, In q B -> s * side_of roi i q < 0) ->
  strictly_apart (along_edge roi i) roi B.
Proof.
  intros Hs HA HB.
  destruct Hs as [-> | ->]; [right | left]; intros a b Ha Hb;
    specialize (HA a Ha); specialize (HB b Hb);
    rewrite (along_edge_side roi i a), (along_edge_side roi i b); lia.
Qed.

(** Two edges that leave a point along the same line, away from [g]: what
    lies on the inner side of both lies on that line. *)
Lemma parallel_cone s ux uy wx wy x y :
  s = 1 \/ s = -1 -> ux < 0 -> wx < 0 -> s * (wx * uy - wy * ux) = 0 ->
  0 <= s * - (ux * y - uy * x) -> 0 <= s * (wx * y - wy * x) ->
  ux * y = uy * x.
Proof.
  intros Hs Hu Hw E Ha Hb.
  assert (E' : wx * uy = wy * ux) by (destruct Hs; subst s; lia).
  assert (Ec : wx * (ux * y - uy * x) = ux * (wx * y - wy * x)).
  { transitivity (ux * (wx * y) - (wx * uy) * x); [ring|].
    rewrite E'. ring. }
  assert (Ez : wx * (ux * y - uy * x) = 0)
    by (destruct Hs; subst s; nia).
  apply Z.mul_eq_0 in Ez. lia.
Qed.

(** Three points on a line through the origin span no area. *)
Lemma on_line_flat u v x1 y1 x2 y2 x3 y3 :
  u * y1 = v * x1 -> u * y2 = v * x2 -> u * y3 = v * x3 -> u <> 0 ->
  (x2 - x1) * (y3 - y1) - (y2 - y1) * (x3 - x1) = 0.
Proof.
  intros E1 E2 E3 Hu. apply (Z.mul_reg_l _ _ u Hu).
  transitivity ((x2 - x1) * (u * y3 - u * y1)
                - (u * y2 - u * y1) * (x3 - x1)); [ring|].
  rewrite E1, E2, E3. ring.
Qed.

Section Extreme.

Variable roi : list Point.
Variable s : Z.
Hypothesis Hn : 3 <= size roi.
Hypothesis Hs : s = 1 \/ s = -1.
Hypothesis Hweak : Spec.weakly_wound s roi = true.
Hypothesis Hflat : Spec.flat roi = false.

Let n := size roi.

Lemma weakly_wound_side i j :
  0 <= i < n -> 0 <= j < n -> 0 <= s * side_of roi i (vertex roi j).
Proof.
  clear Hn Hs Hflat. intros Hi Hj. unfold Spec.weakly_wound in Hweak.
  rewrite forallb_forall in Hweak.
  assert (Ii : In i (counters 0 (List.length roi)))
    by (apply counters_In; unfold n, size in Hi; lia).
  assert (Ij : In j (counters 0 (List.length roi)))
    by (apply counters_In; unfold n, size in Hj; lia).
  specialize (Hweak i Ii). rewrite forallb_forall in Hweak.
  specialize (Hweak j Ij). apply Z.leb_le in Hweak. exact Hweak.
Qed.

Lemma weakly_wound_In i p :
  0 <= i < n -> In p roi -> 0 <= s * side_of roi i p.
Proof.
  intros Hi Hp. destruct (In_vertex roi p Hp) as (j & Hj & ->).
  now apply weakly_wound_side.
Qed.

Lemma not_flat :
  exists i j, 0 <= i < n /\ 0 <= j < n /\ side_of roi i (vertex roi j) <> 0.
Proof.
  clear Hn Hs Hweak. unfold Spec.flat in Hflat.
  destruct (forallb_false _ _ Hflat) as (i & Hi & Ei).
  destruct (forallb_false _ _ Ei) as (j & Hj & Ej).
  apply counters_In in Hi, Hj. apply Z.eqb_neq in Ej.
  exists i, j. unfold n, size. repeat split; try lia. exact Ej.
Qed.

(** [q0] lies beyond every vertex in the direction [g], and [q1] lies [L]
    further on.  Then an edge that ends, starts or lies where the ROI
    reaches farthest along [g] has both points strictly outside, or (for a
    proper segment) the ROI lies strictly on one side of the line through
    the two points. *)
Lemma beyond_extreme g q0 L :
  0 <= L ->
  (forall a, In a roi -> fwd g (toVec a) < fwd g (toVec q0)) ->
  let q1 := mkPoint (px q0 + L * vx (heading g))
                    (py q0 + L * vy (heading g)) in
  (exists i, 0 <= i < n /\
             s * side_of roi i q0 < 0 /\ s * side_of roi i q1 < 0) \/
  (0 < L /\
   ((forall a, In a roi -> lat g (toVec a) < lat g (toVec q0)) \/
    (forall a, In a roi -> lat g (toVec q0) < lat g (toVec a)))).
Proof.
  intros HL Hbeyond q1.
  set (X := fun p => fwd g (toVec p)). set (Y := fun p => lat g (toVec p)).
  destruct (farthest_vertex X roi (roi_nonempty roi Hn)) as (k & Hk & Hmax).
  fold n in Hk. set (F := X (vertex roi k)) in *.
  assert (Hn0 : 0 < n) by (unfold n; lia).
  assert (Hnext : forall i, 0 <= (i + 1) mod n < n)
    by (intros; apply Z.mod_pos_bound; exact Hn0).
  assert (HX : forall i, 0 <= i < n -> X (vertex roi i) <= F)
    by (intros i Hi; apply Hmax, vertex_In; exact Hi).
  assert (Hside : forall i q, side_of roi i q =
            (X (vertex roi ((i + 1) mod n)) - X (vertex roi i))
              * (Y q - Y (vertex roi i))
            - (Y (vertex roi ((i + 1) mod n)) - Y (vertex roi i))
              * (X q - X (vertex roi i)))
    by (intros; apply (side_coords g)).
  assert (Hw : forall i j, 0 <= i < n -> 0 <= j < n ->
            0 <= s * ((X (vertex roi ((i + 1) mod n)) - X (vertex roi i))
                        * (Y (vertex roi j) - Y (vertex roi i))
                      - (Y (vertex roi ((i + 1) mod n)) - Y (vertex roi i))
                        * (X (vertex roi j) - X (vertex roi i)))).
  { intros i j Hi Hj. rewrite <- Hside. now apply weakly_wound_side. }
  destruct (heading_step g q0 L) as [F1 L1]. fold q1 in F1, L1.
  fold (X q1) (X q0) in F1. fold (Y q1) (Y q0) in L1.
  assert (Hq0 : F < X q0) by (apply Hbeyond, vertex_In; exact Hk).
  set (P := fun i => X (vertex roi i) =? F).
  assert (Pk : P k = true) by (apply Z.eqb_refl).
  (* a vertex short of the farthest *)
  assert (Hshort : exists m, 0 <= m < n /\ P m = false).
  { destruct not_flat as (i & j & Hi & Hj & Hne).
    destruct (P i) eqn:Ei; [|eauto].
    destruct (P ((i + 1) mod n)) eqn:Ei'; [|eauto].
    destruct (P j) eqn:Ej; [|eauto].
    exfalso. apply Hne. rewrite Hside.
    unfold P in Ei, Ei', Ej. rewrite Z.eqb_eq in Ei, Ei', Ej.
    rewrite Ei, Ei', Ej. ring. }
  destruct Hshort as (m & Hm & Pm).
  destruct (cyclic_transition P n k m Hk Hm Pk Pm) as (i & Hi & Pi & Pi').
  destruct (cyclic_transition (fun i => negb (P i)) n m k Hm Hk)
    as (j & Hj & Pj & Pj'); [now rewrite Pm | now rewrite Pk |].
  apply negb_false_iff in Pj. apply negb_true_iff in Pj'.
  set (a := vertex roi ((i + 1) mod n)) in *.
  set (b := vertex roi j) in *.
  set (vi := vertex roi i) in *.
  set (vw := vertex roi ((j + 1) mod n)) in *.
  assert (Xa : X a = F) by (apply Z.eqb_eq; exact Pi').
  assert (Xb : X b = F) by (apply Z.eqb_eq; exact Pj).
  assert (Xi : X vi < F).
  { unfold P in Pi. apply Z.eqb_neq in Pi. specialize (HX i Hi).
    fold vi in HX, Pi. lia. }
  assert (Xw : X vw < F).
  { unfold P in Pj'. apply Z.eqb_neq in Pj'. specialize (HX _ (Hnext j)).
    fold vw in HX, Pj'. lia. }
  (* the farthest vertices lie between [a] and [b] *)
  assert (Hbetween : forall l, 0 <= l < n -> X (vertex roi l) = F ->
            0 <= s * (Y (vertex roi l) - Y a) /\
            0 <= s * (Y b - Y (vertex roi l))).
  { intros l Hl Xl. pose proof (Hw i l Hi Hl) as Wi.
    pose proof (Hw j l Hj Hl) as Wj. fold a vi in Wi. fold b vw in Wj.
    rewrite Xl, Xa in Wi. rewrite Xl, Xb in Wj.
    replace ((F - X vi) * (Y (vertex roi l) - Y vi)
             - (Y a - Y vi) * (F - X vi))
      with ((F - X vi) * (Y (vertex roi l) - Y a)) in Wi by ring.
    replace ((X vw - F) * (Y (vertex roi l) - Y b)
             - (Y vw - Y b) * (F - F))
      with ((F - X vw) * (Y b - Y (vertex roi l))) in Wj by ring.
    destruct Hs as [-> | ->]; split; nia. }
  destruct (Z.eq_dec (Y a) (Y b)) as [Yab | Yab].
  - (* one farthest point: the corner between the two edges *)
    set (ux := X vi - F). set (uy := Y vi - Y a).
    set (wx := X vw - F). set (wy := Y vw - Y a).
    set (dx := X q0 - F). set (dy := Y q0 - Y a).
    assert (Ei : forall q, side_of roi i q
                 = - (ux * (Y q - Y a) - uy * (X q - F))).
    { intros q. rewrite Hside. fold a vi. rewrite Xa. unfold ux, uy. ring. }
    assert (Ej : forall q, side_of roi j q
                 = wx * (Y q - Y a) - wy * (X q - F)).
    { intros q. rewrite Hside. fold b vw. rewrite Xb, <- Yab.
      unfold wx, wy. ring. }
    assert (Hconv0 : 0 <= s * (wx * uy - wy * ux)).
    { pose proof (weakly_wound_side j i Hj Hi) as H. fold vi in H.
      rewrite Ej in H. fold ux uy in H. exact H. }
    assert (Hconv : 0 < s * (wx * uy - wy * ux)).
    { destruct (Z.eq_dec (s * (wx * uy - wy * ux)) 0) as [E0 | E0]; [|lia].
      exfalso. destruct not_flat as (i' & j' & Hi' & Hj' & Hne).
      apply Hne. rewrite Hside.
      assert (Hline : forall l, 0 <= l < n ->
                ux * (Y (vertex roi l) - Y a)
                = uy * (X (vertex roi l) - F)).
      { intros l Hl. pose proof (weakly_wound_side i l Hi Hl) as Wi.
        pose proof (weakly_wound_side j l Hj Hl) as Wj.
        rewrite Ei in Wi. rewrite Ej in Wj.
        apply (parallel_cone s ux uy wx wy); auto; unfold ux, wx; lia. }
      pose proof (on_line_flat ux uy _ _ _ _ _ _
                    (Hline i' Hi') (Hline _ (Hnext i')) (Hline j' Hj')) as E.
      rewrite <- E by (unfold ux; lia). ring. }
    assert (Hux : ux <= 0) by (unfold ux; lia).
    assert (Hwx : wx <= 0) by (unfold wx; lia).
    assert (Hdx : 0 < dx) by (unfold dx; lia).
    assert (Hcone : forall p, In p roi ->
              (uy <= 0 -> wy <= 0 -> Y p <= Y a) /\
              (0 <= uy -> 0 <= wy -> Y a <= Y p)).
    { intros p Hp.
      pose proof (weakly_wound_In i p Hi Hp) as Wi.
      pose proof (weakly_wound_In j p Hj Hp) as Wj.
      rewrite Ei in Wi. rewrite Ej in Wj.
      destruct (cone_bound_wound s ux uy wx wy _ _ Hs Hconv Wi Wj)
        as [C1 C2].
      split; intros; lia. }
    destruct (corner_cases_wound s ux uy wx wy dx dy L Hs Hux Hwx Hdx HL
                Hconv)
      as [[A0 A1] | [[B0 B1] | [(HL0 & Hdy & Huy & Hwy) |
                                (HL0 & Hdy & Huy & Hwy)]]].
    + left. exists i. rewrite !Ei, F1, L1. fold dx dy.
      replace (X q0 + L - F) with (dx + L) by (unfold dx; ring). auto.
    + left. exists j. rewrite !Ej, F1, L1. fold dx dy.
      replace (X q0 + L - F) with (dx + L) by (unfold dx; ring). auto.
    + right. split; [assumption|]. left. intros p Hp.
      destruct (Hcone p Hp) as [C _]. specialize (C Huy Hwy).
      fold (Y p) (Y q0). unfold dy in Hdy. lia.
    + right. split; [assumption|]. right. intros p Hp.
      destruct (Hcone p Hp) as [_ C]. specialize (C Huy Hwy).
      fold (Y p) (Y q0). unfold dy in Hdy. lia.
  - (* several farthest points: an edge between two of them *)
    set (R := fun l => P l && (Y (vertex roi l) =? Y b)).
    assert (Rj : R j = true).
    { unfold R. fold b. now rewrite Pj, Z.eqb_refl. }
    assert (Ra : R ((i + 1) mod n) = false).
    { unfold R. fold a. rewrite Pi'. simpl. now apply Z.eqb_neq. }
    destruct (cyclic_transition R n j _ Hj (Hnext i) Rj Ra)
      as (e & He & Re & Re').
    unfold R in Re'. apply andb_true_iff in Re'. destruct Re' as [Pe' Ye'].
    unfold P in Pe'. apply Z.eqb_eq in Pe', Ye'.
    pose proof (Hw e _ He (Hnext i)) as We. fold a in We.
    pose proof (Hw e m He Hm) as Wm.
    apply Z.eqb_neq in Pm.
    pose proof (HX m Hm) as Xm. pose proof (HX e He) as Xe.
    destruct (Hbetween _ (Hnext i) Xa) as [_ Bab]. fold a in Bab.
    left. exists e. split; [exact He|].
    rewrite !Hside, F1, L1, Pe', Ye'.
    rewrite Pe', Ye', Xa in We. rewrite Pe', Ye' in Wm.
    unfold R in Re. apply andb_false_iff in Re. destruct Re as [Re | Re].
    + (* an edge that arrives at [b] from short of it *)
      unfold P in Re. apply Z.eqb_neq in Re.
      exfalso. destruct Hs as [-> | ->]; nia.
    + apply Z.eqb_neq in Re.
      destruct (Z.eq_dec (X (vertex roi e)) F) as [XeF | XeF].
      * rewrite XeF in *. destruct Hs as [-> | ->]; split; nia.
      * exfalso. destruct Hs as [-> | ->]; nia.
Qed.

End Extreme.

Lemma convex_wound roi :
  Spec.convex roi = true ->
  exists s, (s = 1 \/ s = -1) /\ Spec.wound s roi = true.
Proof.
  unfold Spec.convex. rewrite orb_true_iff. intros [H | H]; eauto.
Qed.

Lemma convex_polygon_wound roi :
  Spec.convex_polygon roi = true ->
  exists s, (s = 1 \/ s = -1) /\
            Spec.weakly_wound s roi = true /\ Spec.flat roi = false.
Proof.
  unfold Spec.convex_polygon.
  rewrite andb_true_iff, orb_true_iff, negb_true_iff.
  intros [[H | H] Hf]; [exists 1 | exists (-1)]; auto.
Qed.

Lemma wound_weakly_wound roi s :
  Spec.wound s roi = true -> Spec.weakly_wound s roi = true.
Proof.
  intros H. unfold Spec.weakly_wound.
  apply forallb_forall. intros i Hi. apply forallb_forall. intros j Hj.
  apply counters_In in Hi, Hj. apply Z.leb_le.
  apply (wound_weak roi s H i j); unfold size; lia.
Qed.

Lemma wound_not_flat roi s :
  3 <= size roi -> Spec.wound s roi = true -> Spec.flat roi = false.
Proof.
  intros Hn H. destruct (Spec.flat roi) eqn:E; [|reflexivity]. exfalso.
  unfold Spec.flat in E. rewrite forallb_forall in E.
  assert (I0 : In 0 (counters 0 (List.length roi)))
    by (apply counters_In; unfold size in Hn; lia).
  assert (I2 : In 2 (counters 0 (List.length roi)))
    by (apply counters_In; unfold size in Hn; lia).
  pose proof (E 0 I0) as E0. rewrite forallb_forall in E0.
  specialize (E0 2 I2). apply Z.eqb_eq in E0.
  assert (H2 : 0 < s * side_of roi 0 (vertex roi 2)).
  { apply (wound_strict roi s H); try lia.
    rewrite Z.mod_small; lia. }
  change (side_of roi 0 (vertex roi 2)) with (Spec.side roi 0 2) in H2.
  rewrite E0 in H2. lia.
Qed.

(** A polygon that is convex with all its angles below 180 degrees is a
    convex polygon. *)
Lemma convex_convex_polygon roi :
  3 <= size roi -> Spec.convex roi = true -> Spec.convex_polygon roi = true.
Proof.
  intros Hn Hc. destruct (convex_wound roi Hc) as (s & Hs & Hwound).
  unfold Spec.convex_polygon.
  rewrite (wound_not_flat roi s Hn Hwound), andb_true_r, orb_true_iff.
  destruct Hs as [-> | ->]; [left | right]; now apply wound_weakly_wound.
Qed.

Section Collapsed.

Variable roi : list Point.
Variable rect : Rect.
Hypothesis Hn : 3 <= size roi.
Hypothesis Hconvex : Spec.convex_polygon roi = true.
Hypothesis Hw : 0 <= width rect.
Hypothesis Hh : 0 <= height rect.

Let corners := Spec.polygon_of rect.

Lemma collapsed_rectangle g q0 L :
  0 <= L ->
  (forall b, In b corners ->
     b = q0 \/
     b = mkPoint (px q0 + L * vx (heading g)) (py q0 + L * vy (heading g))) ->
  (forall a, In a roi -> fwd g (toVec a) < fwd g (toVec q0)) ->
  edge_apart roi rect \/
  (0 < L /\ strictly_apart (fun p => lat g (toVec p)) roi corners).
Proof.
  intros HL Hcorners Hbeyond.
  destruct (convex_polygon_wound roi Hconvex) as (s & Hs & Hweak & Hflat).
  destruct (beyond_extreme roi s Hn Hs Hweak Hflat g q0 L HL Hbeyond)
    as [(i & Hi & S0 & S1) | (HL0 & Hside)].
  - left. exists i. split; [assumption|].
    apply (outer_edge_separates roi s i corners Hs).
    + intros a Ha. now apply (weakly_wound_In roi s Hweak).
    + intros q Hq. destruct (Hcorners q Hq) as [-> | ->]; assumption.
  - right. split; [assumption|].
    assert (Hlat : forall b, In b corners ->
                              lat g (toVec b) = lat g (toVec q0)).
    { intros b Hb. destruct (Hcorners b Hb) as [-> | ->]; [reflexivity|].
      apply heading_step. }
    destruct Hside as [H | H]; [right | left]; intros a b Ha Hb;
      rewrite (Hlat b Hb); auto.
Qed.

Lemma corners_In b :
  In b corners ->
  (px b = left rect \/ px b = left rect + width rect) /\
  (py b = top rect \/ py b = top rect + height rect).
Proof. intros [<- | [<- | [<- | [<- | []]]]]; simpl; auto. Qed.

Lemma corner_eq (b q : Point) : px b = px q -> py b = py q -> b = q.
Proof. destruct b, q. simpl. congruence. Qed.

(** A rectangle of height 0 beside the ROI. *)
Lemma collapsed_beside :
  height rect = 0 -> strictly_apart px roi corners ->
  edge_apart roi rect \/ (0 < width rect /\ strictly_apart py roi corners).
Proof.
  intros Hh0 [H | H].
  - destruct (collapsed_rectangle West
                (mkPoint (left rect + width rect) (top rect)) (width rect))
      as [He | [HL Ha]]; auto.
    + intros b Hb. destruct (corners_In b Hb) as [[Ex | Ex] [Ey | Ey]];
        [right | right | left | left]; apply corner_eq;
        cbn [heading vx vy px py]; lia.
    + intros a Ha. unfold fwd, Spec.dot. cbn [heading vx vy px py toVec].
      specialize (H a (mkPoint (left rect + width rect) (top rect)) Ha).
      cbn [px py] in H. enough (left rect + width rect < px a) by lia.
      apply H. right. left. reflexivity.
    + right. split; [assumption|]. apply apart_flip. revert Ha.
      apply strictly_apart_ext; intros p _; unfold lat, Spec.cross;
        cbn [heading vx vy px py toVec]; lia.
  - destruct (collapsed_rectangle East
                (mkPoint (left rect) (top rect)) (width rect))
      as [He | [HL Ha]]; auto.
    + intros b Hb. destruct (corners_In b Hb) as [[Ex | Ex] [Ey | Ey]];
        [left | left | right | right]; apply corner_eq;
        cbn [heading vx vy px py]; lia.
    + intros a Ha. unfold fwd, Spec.dot. cbn [heading vx vy px py toVec].
      specialize (H a (mkPoint (left rect) (top rect)) Ha).
      cbn [px py] in H. enough (px a < left rect) by lia.
      apply H. left. reflexivity.
    + right. split; [assumption|]. revert Ha.
      apply strictly_apart_ext; intros p _; unfold lat, Spec.cross;
        cbn [heading vx vy px py toVec]; lia.
Qed.

(** A rectangle of width 0 above or below the ROI. *)
Lemma collapsed_above :
  width rect = 0 -> strictly_apart py roi corners ->
  edge_apart roi rect \/
  (0 < height rect /\ strictly_apart px roi corners).
Proof.
  intros Hw0 [H | H].
  - destruct (collapsed_rectangle North
                (mkPoint (left rect) (top rect + height rect)) (height rect))
      as [He | [HL Ha]]; auto.
    + intros b Hb. destruct (corners_In b Hb) as [[Ex | Ex] [Ey | Ey]];
        [right | left | right | left]; apply corner_eq;
        cbn [heading vx vy px py]; lia.
    + intros a Ha. unfold fwd, Spec.dot. cbn [heading vx vy px py toVec].
      specialize (H a (mkPoint (left rect) (top rect + height rect)) Ha).
      cbn [px py] in H. enough (top rect + height rect < py a) by lia.
      apply H. right. right. right. left. reflexivity.
    + right. split; [assumption|]. revert Ha.
      apply strictly_apart_ext; intros p _; unfold lat, Spec.cross;
        cbn [heading vx vy px py toVec]; lia.
  - destruct (collapsed_rectangle South
                (mkPoint (left rect) (top rect)) (height rect))
      as [He | [HL Ha]]; auto.
    + intros b Hb. destruct (corners_In b Hb) as [[Ex | Ex] [Ey | Ey]];
        [left | right | left | right]; apply corner_eq;
        cbn [heading vx vy px py]; lia.
    + intros a Ha. unfold fwd, Spec.dot. cbn [heading vx vy px py toVec].
      specialize (H a (mkPoint (left rect) (top rect)) Ha).
      cbn [px py] in H. enough (py a < top rect) by lia.
      apply H. left. reflexivity.
    + right. split; [assumption|]. apply apart_flip. revert Ha.
      apply strictly_apart_ext; intros p _; unfold lat, Spec.cross;
        cbn [heading vx vy px py toVec]; lia.
Qed.

End Collapsed.

(** ** The candidate axes of the specification *)

Lemma first_two_axes r :
  Spec.axes_of (Spec.polygon_of r) 2 =
    [ mkVec (top r - top r) (- (left r + width r - left r));
      mkVec (top r + height r - top r)
            (- (left r + width r - (left r + width r))) ].
Proof. reflexivity. Qed.

Section Candidates.

Variable roi : list Point.
Variable rect : Rect.
Hypothesis Hne : roi <> [].
Hypothesis Hw : 0 <= width rect.
Hypothesis Hh : 0 <= height rect.

Let corners := Spec.polygon_of rect.
Let Hc : corners <> [] := polygon_of_nonempty rect.

Lemma roi_axes_iff :
  forallb (fun axis => negb (Spec.separates axis roi corners))
          (Spec.axes_of roi (List.length roi)) = true <->
  forall j, 0 <= j < size roi ->
            ~ strictly_apart (along_edge roi j) roi corners.
Proof.
  rewrite forallb_forall. unfold Spec.axes_of. split.
  - intros H j Hj.
    assert (Hin : In (Spec.normal (Spec.edge roi j))
                     (map (fun i => Spec.normal (Spec.edge roi i))
                          (counters 0 (List.length roi)))).
    { apply in_map_iff. exists j. split; [reflexivity|].
      apply counters_In. unfold size in Hj. lia. }
    specialize (H _ Hin). apply negb_true_iff in H.
    exact (proj1 (spec_separates_false _ roi corners Hne Hc) H).
  - intros H axis Hin. apply in_map_iff in Hin.
    destruct Hin as (j & <- & Hj). apply counters_In in Hj.
    apply negb_true_iff.
    apply (proj2 (spec_separates_false _ roi corners Hne Hc)).
    apply (H j). unfold size. lia.
Qed.

Lemma first_rectangle_axis :
  Spec.separates (mkVec (top rect - top rect)
                        (- (left rect + width rect - left rect)))
                 roi corners = true <->
  0 < width rect /\ strictly_apart py roi corners.
Proof.
  rewrite (spec_separates_iff _ roi corners Hne Hc).
  rewrite <- (apart_scale_nonneg (width rect) py roi corners Hw Hne Hc).
  rewrite <- (apart_flip (fun p => width rect * py p)).
  split; apply strictly_apart_ext; intros p _; unfold Spec.dot; simpl; lia.
Qed.

Lemma second_rectangle_axis :
  Spec.separates (mkVec (top rect + height rect - top rect)
                        (- (left rect + width rect
                            - (left rect + width rect))))
                 roi corners = true <->
  0 < height rect /\ strictly_apart px roi corners.
Proof.
  rewrite (spec_separates_iff _ roi corners Hne Hc).
  rewrite <- (apart_scale_nonneg (height rect) px roi corners Hh Hne Hc).
  split; apply strictly_apart_ext; intros p _; unfold Spec.dot; simpl; lia.
Qed.

Lemma no_separating_axis_iff :
  Spec.no_separating_axis roi rect = true <->
  (forall j, 0 <= j < size roi ->
             ~ strictly_apart (along_edge roi j) roi corners) /\
  ~ (0 < width rect /\ strictly_apart py roi corners) /\
  ~ (0 < height rect /\ strictly_apart px roi corners).
Proof.
  unfold Spec.no_separating_axis, Spec.candidate_axes.
  rewrite forallb_app, andb_true_iff, first_two_axes. fold corners.
  rewrite roi_axes_iff. cbn [forallb].
  rewrite andb_true_r, andb_true_iff, !negb_true_iff.
  rewrite <- first_rectangle_axis, <- second_rectangle_axis.
  rewrite !not_true_iff_false. reflexivity.
Qed.

End Candidates.

(** ** The separating-axis test as a whole *)

(** C2. For a convex ROI of at least three vertices, wound one way, and a
    rectangle of non-negative width and height, [collision_detect] returns,
    and returns [true] exactly when none of the [n + 2] candidate axes of
    the specification (the normals of the ROI edges and of the first two
    edges of the rectangle) strictly separates the projections of the two
    shapes.  The ROI is convex in the sense of the glossary
    ([Spec.convex_polygon]): its angles may be of 180 degrees, and vertices
    may coincide.  When the rectangle has a width and a height above 0, the
    ROI need not even be convex.  The input is one of the data model of the
    specification: no operation of the test overflows on it ([no_overflow],
    which holds for all coordinates of magnitude up to [coord_bound],
    [small_no_overflow]).

    The loop itself tests the normal of one rectangle edge only, twice (see
    C9); the other rectangle axis is the x axis, which the bounding-box test
    has already checked.  When the rectangle has collapsed to a segment or a
    point, its missing axis is made up for by an ROI edge where the ROI
    reaches farthest towards it ([collapsed_beside], [collapsed_above]). *)
Theorem collision_iff_no_separating_axis (roi : list Point) (rect : Rect) :
  3 <= size roi ->
  Spec.convex_polygon roi = true \/ (0 < width rect /\ 0 < height rect) ->
  proper_rect rect = true -> no_overflow roi rect = true ->
  List.length (Spec.candidate_axes roi rect) = (List.length roi + 2)%nat /\
  result (collision_detect roi rect) = Some (Spec.no_separating_axis roi rect).
Proof.
  intros Hn Hconvex Hproper Hexact. split.
  { unfold Spec.candidate_axes, Spec.axes_of.
    now rewrite length_app, !length_map, !counters_length. }
  destruct (proper_rect_inv rect Hproper) as [Hw Hh].
  pose proof (roi_nonempty roi Hn) as Hne.
  destruct (collision_returns roi rect Hn Hexact) as [b Hb].
  pose proof (collision_true_iff roi rect Hn Hw Hh Hexact) as Hcode.
  pose proof (no_separating_axis_iff roi rect Hne Hw Hh) as Hspec.
  rewrite Hb in *. f_equal. apply eq_true_iff_eq.
  rewrite Hspec. split.
  - intros ->. destruct Hcode as [(Nx & Ny & He) _]; [reflexivity|]. tauto.
  - intros (He & Ny & Nx).
    enough (Hs : Some b = Some true) by congruence.
    apply Hcode. repeat split; auto.
    + intros Hx. destruct (Z.eq_dec (height rect) 0) as [Hh0 | Hh0].
      * destruct Hconvex as [Hc | Hpos]; [|lia].
        destruct (collapsed_beside roi rect Hn Hc Hw Hh0 Hx)
          as [(j & Hj & Hs) | Hy]; [apply (He j Hj Hs) | tauto].
      * apply Nx. split; [lia | assumption].
    + intros Hy. destruct (Z.eq_dec (width rect) 0) as [Hw0 | Hw0].
      * destruct Hconvex as [Hc | Hpos]; [|lia].
        destruct (collapsed_above roi rect Hn Hc Hh Hw0 Hy)
          as [(j & Hj & Hs) | Hx]; [apply (He j Hj Hs) | tauto].
      * apply Ny. split; [lia | assumption].
Qed.

Lemma collision_iff_no_separating_axis_witness :
  List.length (Spec.candidate_axes flat_cornered (mkRect 20 5 0 0)) = 7%nat /\
  result (collision_detect flat_cornered (mkRect 20 5 0 0))
    = Some (Spec.no_separating_axis flat_cornered (mkRect 20 5 0 0)).
Proof.
  apply (collision_iff_no_separating_axis flat_cornered (mkRect 20 5 0 0)).
  - unfold size. simpl. lia.
  - left. reflexivity.
  - reflexivity.
  - reflexivity.
Defined.

(** A list whose vertices all lie on one line bounds no region and is wound
    neither way: it is none of the polygons of the specification, which are
    simple and wound clockwise or counter-clockwise.  For such a list and a
    rectangle collapsed to a point on the same line, the bounding-box test
    tells the two apart, while no candidate axis does. *)
Lemma vertices_on_a_line :
  Spec.flat on_a_line = true /\
  Spec.convex_polygon on_a_line = false /\
  result (collision_detect on_a_line (mkRect 20 0 0 0)) = Some false /\
  Spec.no_separating_axis on_a_line (mkRect 20 0 0 0) = true.
Proof. repeat split; vm_compute; reflexivity. Qed.

(** * Further properties of the code *)

(** ** Arithmetic modulo [2^32] *)

Lemma wrap_plus_multiple z t : Int.wrap (z + 4294967296 * t) = Int.wrap z.
Proof.
  unfold Int.wrap. f_equal.
  replace (z + 4294967296 * t + 2147483648)
    with (z + 2147483648 + t * 4294967296) by ring.
  apply Z_mod_plus_full.
Qed.

Lemma wrap_decompose z : exists k, Int.wrap z = z + 4294967296 * k.
Proof.
  exists (- ((z + 2147483648) / 4294967296)). unfold Int.wrap.
  pose proof (Z_div_mod_eq_full (z + 2147483648) 4294967296). lia.
Qed.

Lemma wrap_congruent a b t : a = b + 4294967296 * t -> Int.wrap a = Int.wrap b.
Proof. intros ->. apply wrap_plus_multiple. Qed.

(** The dot product of the code is the exact one reduced modulo [2^32]. *)
Lemma dot_wrap a b : dot a b = Int.wrap (Spec.dot a b).
Proof.
  unfold dot, Spec.dot, Int.add, Int.mul.
  destruct (wrap_decompose (vx a * vx b)) as [k1 ->].
  destruct (wrap_decompose (vy a * vy b)) as [k2 ->].
  apply (wrap_congruent _ _ (k1 + k2)). ring.
Qed.

Lemma negatable_inv z :
  negatable z = true -> Int.in_range z /\ Int.in_range (- z).
Proof.
  unfold negatable. rewrite andb_true_iff.
  intros [H1 H2]. split; now apply is_int_range.
Qed.

(** ** Vectors and points *)

(** X1. A vector and its normal are perpendicular: the dot product of [v]
    and [v.Normal()], taken either way round, is 0.  This holds for all
    coordinates, since the products cancel modulo [2^32] as well. *)
Theorem Normal_perpendicular (v : Vec) :
  dot v (Normal v) = 0 /\ dot (Normal v) v = 0.
Proof.
  rewrite !dot_wrap. unfold Spec.dot, Normal, Int.neg. cbn [vx vy].
  destruct (wrap_decompose (- vx v)) as [k ->].
  split.
  - apply (wrap_congruent _ 0 (vy v * k)). ring.
  - apply (wrap_congruent _ 0 (vy v * k)). ring.
Qed.

(** X2. [Normal] is a quarter turn.  For a vector whose coordinates can be
    negated in [int], two applications give the opposite vector and four
    give the vector back; and the dot product of two normals is that of the
    vectors. *)
Theorem Normal_quarter_turn (v w : Vec) :
  negatable (vx v) = true -> negatable (vy v) = true ->
  Normal (Normal v) = mkVec (- vx v) (- vy v) /\
  Normal (Normal (Normal (Normal v))) = v /\
  dot (Normal v) (Normal w) = dot v w.
Proof.
  intros Hx Hy.
  destruct (negatable_inv _ Hx) as [Rx Nx], (negatable_inv _ Hy) as [Ry Ny].
  assert (Ex : Int.neg (vx v) = - vx v) by now apply wrap_small.
  assert (Ey : Int.neg (vy v) = - vy v) by now apply wrap_small.
  assert (Ex' : Int.neg (- vx v) = vx v)
    by (unfold Int.neg; rewrite Z.opp_involutive; now apply wrap_small).
  assert (Ey' : Int.neg (- vy v) = vy v)
    by (unfold Int.neg; rewrite Z.opp_involutive; now apply wrap_small).
  repeat split.
  - unfold Normal. cbn [vx vy]. now rewrite Ex, Ey.
  - unfold Normal. cbn [vx vy]. rewrite Ex, Ey, Ex', Ey'. now destruct v.
  - rewrite !dot_wrap. unfold Spec.dot, Normal, Int.neg. cbn [vx vy].
    destruct (wrap_decompose (- vx v)) as [k1 ->].
    destruct (wrap_decompose (- vx w)) as [k2 ->].
    apply (wrap_congruent _ _
             (- vx v * k2 - vx w * k1 + 4294967296 * k1 * k2)). ring.
Qed.

Lemma Normal_quarter_turn_witness :
  Normal (Normal (mkVec 3 (-4))) = mkVec (-3) 4 /\
  Normal (Normal (Normal (Normal (mkVec 3 (-4))))) = mkVec 3 (-4) /\
  dot (Normal (mkVec 3 (-4))) (Normal (mkVec 5 7))
  = dot (mkVec 3 (-4)) (mkVec 5 7).
Proof.
  apply (Normal_quarter_turn (mkVec 3 (-4)) (mkVec 5 7)); reflexivity.
Defined.

(** X3. Both end points of an edge have the same projection on the axis
    the loop derives from that edge (lines 121-122 and 130): the edge
    projects to a single value.  This holds for all coordinates. *)
Theorem edge_projects_to_a_point (p0 p1 : Point) :
  dot (edge_normal (p0, p1)) (toVec p0) = dot (edge_normal (p0, p1)) (toVec p1).
Proof.
  rewrite !dot_wrap.
  unfold Spec.dot, edge_normal, Normal, psub, toVec, Int.neg, Int.sub.
  cbn [vx vy].
  destruct (wrap_decompose (px p1 - px p0)) as [k1 ->].
  destruct (wrap_decompose (py p1 - py p0)) as [k2 ->].
  destruct (wrap_decompose (- (px p1 - px p0 + 4294967296 * k1))) as [k3 ->].
  apply (wrap_congruent _ _
           (k2 * (px p0 - px p1) + (k3 - k1) * (py p0 - py p1))). ring.
Qed.

(** X4. The dot product is symmetric, and the projection of the difference
    of two points is the [int] difference of their projections. *)
Theorem dot_distributes (n a : Vec) (p q : Point) :
  dot n a = dot a n /\
  dot n (psub p q) = Int.sub (dot n (toVec p)) (dot n (toVec q)).
Proof.
  split.
  - rewrite !dot_wrap. f_equal. unfold Spec.dot. ring.
  - rewrite !dot_wrap. unfold Int.sub, Spec.dot, psub, toVec, Int.sub.
    cbn [vx vy].
    destruct (wrap_decompose (px p - px q)) as [k1 ->].
    destruct (wrap_decompose (py p - py q)) as [k2 ->].
    destruct (wrap_decompose (vx n * px p + vy n * py p)) as [k3 ->].
    destruct (wrap_decompose (vx n * px q + vy n * py q)) as [k4 ->].
    apply (wrap_congruent _ _ (vx n * k1 + vy n * k2 - k3 + k4)). ring.
Qed.

(** ** The rectangle as a polygon *)

(** X5. The polygon [rect_to_points] builds has its sides parallel to the
    coordinate axes: from each corner to the next, the difference is
    [(width, 0)], [(0, height)], [(-width, 0)] and [(0, -height)]. *)
Theorem rectangle_sides (rect : Rect) :
  negatable (width rect) = true -> negatable (height rect) = true ->
  let corner := vertex (rect_to_points rect) in
  psub (corner 1) (corner 0) = mkVec (width rect) 0 /\
  psub (corner 2) (corner 1) = mkVec 0 (height rect) /\
  psub (corner 3) (corner 2) = mkVec (- width rect) 0 /\
  psub (corner 0) (corner 3) = mkVec 0 (- height rect).
Proof.
  intros Hw Hh.
  destruct (negatable_inv _ Hw) as [Rw Nw], (negatable_inv _ Hh) as [Rh Nh].
  unfold rect_to_points, push_back, vertex, psub.
  destruct (wrap_decompose (left rect + width rect)) as [k1 E1].
  destruct (wrap_decompose (top rect + height rect)) as [k2 E2].
  fold (Int.add (left rect) (width rect)) in E1.
  fold (Int.add (top rect) (height rect)) in E2.
  generalize dependent (Int.add (left rect) (width rect)).
  generalize dependent (Int.add (top rect) (height rect)).
  intros yb E2 xr E1. simpl. unfold Int.sub. rewrite E1, E2.
  rewrite !Z.sub_diag.
  change (Int.wrap 0) with 0.
  repeat split; f_equal.
  - transitivity (Int.wrap (width rect)); [|now apply wrap_small].
    apply (wrap_congruent _ _ k1). ring.
  - transitivity (Int.wrap (height rect)); [|now apply wrap_small].
    apply (wrap_congruent _ _ k2). ring.
  - transitivity (Int.wrap (- width rect)); [|now apply wrap_small].
    apply (wrap_congruent _ _ (- k1)). ring.
  - transitivity (Int.wrap (- height rect)); [|now apply wrap_small].
    apply (wrap_congruent _ _ (- k2)). ring.
Qed.

Lemma rectangle_sides_witness :
  let corner := vertex (rect_to_points rect4) in
  psub (corner 1) (corner 0) = mkVec 50 0 /\
  psub (corner 2) (corner 1) = mkVec 0 50 /\
  psub (corner 3) (corner 2) = mkVec (-50) 0 /\
  psub (corner 0) (corner 3) = mkVec 0 (-50).
Proof. apply (rectangle_sides rect4); reflexivity. Defined.

(** X6. The rectangle can be read back from its polygon: two rectangles
    whose fields are values of [int] and that have the same corner list are
    the same rectangle. *)
Theorem rectangle_recovered (r r' : Rect) :
  int_rect r = true -> int_rect r' = true ->
  rect_to_points r = rect_to_points r' -> r = r'.
Proof.
  unfold int_rect. rewrite !andb_true_iff.
  intros [[[Hl Ht] Hw] Hh] [[[Hl' Ht'] Hw'] Hh'].
  apply is_int_range in Hl, Ht, Hw, Hh, Hl', Ht', Hw', Hh'.
  unfold rect_to_points, push_back. cbn [app].
  intros E. injection E as El Et Ex _ _ Ey _ _.
  destruct r as [l t w h], r' as [l' t' w' h'].
  cbn [left top width height] in *.
  subst l' t'. unfold Int.add, Int.wrap in Ex, Ey.
  unfold Int.in_range, Int.INT_MIN, Int.INT_MAX in *.
  assert (Ew : w = w').
  { pose proof (Z_div_mod_eq_full (l + w + 2147483648) 4294967296).
    pose proof (Z_div_mod_eq_full (l + w' + 2147483648) 4294967296). lia. }
  assert (Eh : h = h').
  { pose proof (Z_div_mod_eq_full (t + h + 2147483648) 4294967296).
    pose proof (Z_div_mod_eq_full (t + h' + 2147483648) 4294967296). lia. }
  now subst.
Qed.

Lemma rectangle_recovered_witness : rect1 = mkRect 0 0 100 100.
Proof.
  apply (rectangle_recovered rect1 (mkRect 0 0 100 100)); reflexivity.
Defined.

(** ** The projection intervals *)

(** X7. The two folds of lines 126-140 compute, for a shape with at least
    one point, the least and the greatest of the projections [len] of its
    points, so that [pj_min <= pj_max]; for a shape without points they
    leave the initial values [INT_MAX] and [INT_MIN]. *)
Theorem projection_interval (normal : Vec) (pts : list Point) :
  project normal [] = (Int.INT_MAX, Int.INT_MIN) /\
  (pts <> [] ->
   exists lo hi, project normal pts = (lo, hi) /\
     least (fun p => dot normal (toVec p)) pts lo /\
     greatest (fun p => dot normal (toVec p)) pts hi /\
     lo <= hi).
Proof.
  split; [reflexivity|]. intros Hne.
  exists (pj_min normal pts), (pj_max normal pts).
  split; [apply project_eq|].
  set (f := fun p => dot normal (toVec p)).
  assert (Hr : forall p, In p pts -> Int.in_range (f p))
    by (intros; apply dot_in_range).
  destruct (fold_min_is_min f pts Hne Hr) as (a0 & Ha0 & Ea0).
  destruct (fold_max_is_max f pts Hne Hr) as (a1 & Ha1 & Ea1).
  unfold least, greatest, pj_min, pj_max. fold f.
  change (fun mn p => Z.min mn (dot normal (toVec p)))
    with (fun mn p => Z.min mn (f p)).
  change (fun mx p => Z.max mx (dot normal (toVec p)))
    with (fun mx p => Z.max mx (f p)).
  repeat split.
  - exists a0. auto.
  - intros p Hp. now apply (fold_min_le f).
  - exists a1. auto.
  - intros p Hp. now apply (fold_max_ge f).
  - pose proof (fold_min_le f pts Int.INT_MAX a0 Ha0).
    pose proof (fold_max_ge f pts Int.INT_MIN a0 Ha0). lia.
Qed.

Lemma projection_interval_witness :
  exists lo hi, project (mkVec 200 200) main_roi = (lo, hi) /\
    least (fun p => dot (mkVec 200 200) (toVec p)) main_roi lo /\
    greatest (fun p => dot (mkVec 200 200) (toVec p)) main_roi hi /\
    lo <= hi.
Proof.
  apply (proj2 (projection_interval (mkVec 200 200) main_roi)). discriminate.
Defined.

(** ** Edges that give no axis *)

Lemma project_zero pts :
  pts <> [] -> project (mkVec 0 0) pts = (0, 0).
Proof.
  intros Hne. rewrite project_eq. unfold pj_min, pj_max.
  set (f := fun p : Point => dot (mkVec 0 0) (toVec p)).
  change (fun mn p => Z.min mn (dot (mkVec 0 0) (toVec p)))
    with (fun mn p => Z.min mn (f p)).
  change (fun mx p => Z.max mx (dot (mkVec 0 0) (toVec p)))
    with (fun mx p => Z.max mx (f p)).
  assert (Hr : forall p, In p pts -> Int.in_range (f p))
    by (intros; apply dot_in_range).
  destruct (fold_min_is_min f pts Hne Hr) as (a0 & Ha0 & Ea0).
  destruct (fold_max_is_max f pts Hne Hr) as (a1 & Ha1 & Ea1).
  rewrite Ea0, Ea1. reflexivity.
Qed.

Lemma edge_normal_zero p : edge_normal (p, p) = mkVec 0 0.
Proof.
  unfold edge_normal, Normal, psub, Int.sub, Int.neg. cbn [vx vy].
  rewrite !Z.sub_diag. reflexivity.
Qed.

Lemma separated_zero roi rec_points :
  roi <> [] -> rec_points <> [] ->
  separated (mkVec 0 0) roi rec_points = false.
Proof.
  intros Hroi Hrec. unfold separated.
  now rewrite (project_zero roi Hroi), (project_zero rec_points Hrec).
Qed.

(** X8. An edge of length zero, as two equal consecutive vertices make it,
    has the zero vector for its axis, on which all projections are 0: its
    iteration never finds a separating axis. *)
Theorem zero_edge_never_separates (p : Point) (roi rec_points : list Point) :
  roi <> [] -> rec_points <> [] ->
  edge_normal (p, p) = mkVec 0 0 /\
  project (edge_normal (p, p)) roi = (0, 0) /\
  project (edge_normal (p, p)) rec_points = (0, 0) /\
  separated (edge_normal (p, p)) roi rec_points = false.
Proof.
  intros Hroi Hrec. rewrite edge_normal_zero.
  rewrite (project_zero roi Hroi), (project_zero rec_points Hrec).
  rewrite (separated_zero roi rec_points Hroi Hrec). repeat split.
Qed.

Lemma zero_edge_never_separates_witness :
  edge_normal (mkPoint 200 0, mkPoint 200 0) = mkVec 0 0 /\
  project (edge_normal (mkPoint 200 0, mkPoint 200 0)) main_roi = (0, 0) /\
  project (edge_normal (mkPoint 200 0, mkPoint 200 0)) (rect_to_points rect1)
    = (0, 0) /\
  separated (edge_normal (mkPoint 200 0, mkPoint 200 0)) main_roi
            (rect_to_points rect1) = false.
Proof.
  apply (zero_edge_never_separates (mkPoint 200 0) main_roi
           (rect_to_points rect1)); discriminate.
Defined.

(** ** The axis of the rectangle iterations *)

Lemma rect_edge_normal rect :
  negatable (width rect) = true ->
  edge_normal (rect_edge rect 2) = mkVec 0 (width rect).
Proof.
  intros Hw. destruct (negatable_inv _ Hw) as [Rw Nw].
  unfold rect_edge, rect_to_points, push_back, vertex.
  destruct (wrap_decompose (left rect + width rect)) as [k1 E1].
  fold (Int.add (left rect) (width rect)) in E1.
  generalize dependent (Int.add (left rect) (width rect)).
  generalize (Int.add (top rect) (height rect)).
  intros yb xr E1. simpl.
  unfold Normal, psub, Int.sub, Int.neg. cbn [vx vy px py].
  rewrite Z.sub_diag, E1. f_equal.
  destruct (wrap_decompose (left rect - (left rect + width rect
                                         + 4294967296 * k1))) as [k2 ->].
  transitivity (Int.wrap (width rect)); [|now apply wrap_small].
  apply (wrap_congruent _ _ (k1 - k2)). ring.
Qed.

(** X9. In every iteration after those of the ROI edges, whatever the
    counter, the loop takes its axis from the edge from [rec_points[2]] to
    [rec_points[3]], and that axis is [(0, width)]: the direction of the y
    axis, scaled by the width of the rectangle. *)
Theorem rectangle_axis_vertical (roi : list Point) (rect : Rect) (i : Z) :
  negatable (width rect) = true -> size roi <= i ->
  option_map edge_normal
    (result (edge_points roi (rect_to_points rect) (project_count roi) i))
  = Some (mkVec 0 (width rect)).
Proof.
  intros Hw Hi. rewrite (edge_points_rect roi rect i Hi).
  unfold result. cbn [snd option_map]. now rewrite rect_edge_normal.
Qed.

Lemma rectangle_axis_vertical_witness :
  option_map edge_normal
    (result (edge_points main_roi (rect_to_points rect4)
                         (project_count main_roi) 4))
  = Some (mkVec 0 50).
Proof.
  apply (rectangle_axis_vertical main_roi rect4 4);
    [reflexivity | unfold size; simpl; lia].
Defined.

(** X10. Once the bounding-box test has passed, the iterations for the
    rectangle cannot return [false]: their axis is the y axis, on which the
    test of lines 95-96 has found the shapes not to be apart.  So the loop
    run over the ROI edges alone returns what [collision_detect] returns. *)
Theorem rectangle_iterations_idle (roi : list Point) (rect : Rect) :
  3 <= size roi -> proper_rect rect = true -> no_overflow roi rect = true ->
  (boxes_disjoint roi rect = false ->
   forall i, size roi <= i ->
     separated (loop_axis roi rect i) roi (rect_to_points rect) = false) /\
  result (collision_detect_roi_edges roi rect)
  = result (collision_detect roi rect).
Proof.
  intros Hn Hproper Hexact.
  destruct (proper_rect_inv rect Hproper) as [Hw Hh].
  destruct (no_overflow_inv roi rect Hexact) as (Hfit & _).
  assert (Hidle : boxes_disjoint roi rect = false ->
            forall i, size roi <= i ->
            separated (loop_axis roi rect i) roi (rect_to_points rect)
            = false).
  { intros Hbox i Hi.
    destruct (separated _ roi _) eqn:Es; [exfalso | reflexivity].
    apply (bottom_axis_exact roi rect Hn Hw Hexact i Hi) in Es.
    assert (Hd : boxes_disjoint roi rect = true)
      by (apply (boxes_disjoint_iff roi rect Hn Hw Hh Hexact); tauto).
    congruence. }
  split; [exact Hidle|].
  rewrite (collision_detect_result roi rect Hn Hfit).
  unfold collision_detect_roi_edges.
  destruct (size roi <? 3) eqn:E; [apply Z.ltb_lt in E; lia|].
  destruct (boxes_disjoint roi rect) eqn:Hbox; [reflexivity|].
  unfold sat_test_upto. rewrite (sat_loop_result roi rect) by lia.
  rewrite !counters_snoc, !forallb_app. cbn [forallb negb andb].
  rewrite !Hidle by (auto; unfold size; lia).
  cbn [negb andb]. now rewrite !andb_true_r.
Qed.

Lemma rectangle_iterations_idle_witness :
  (boxes_disjoint main_roi rect2 = false ->
   forall i, size main_roi <= i ->
     separated (loop_axis main_roi rect2 i) main_roi (rect_to_points rect2)
     = false) /\
  result (collision_detect_roi_edges main_roi rect2)
  = result (collision_detect main_roi rect2).
Proof.
  apply (rectangle_iterations_idle main_roi rect2);
    [unfold size; simpl; lia | reflexivity | reflexivity].
Defined.

(** ** The order of the vertices *)

Section Permuted.

Variable A : Type.
Variable f : A -> Z.

Lemma fold_min_permuted (l l' : list A) (lo : Z) :
  Permutation l l' ->
  fold_left (fun mn p => Z.min mn (f p)) l lo
  = fold_left (fun mn p => Z.min mn (f p)) l' lo.
Proof.
  intros H. revert lo.
  induction H as [|x l l' _ IH|x y l|l l' l'' _ IH1 _ IH2]; intros lo; simpl.
  - reflexivity.
  - apply IH.
  - f_equal. lia.
  - now rewrite IH1.
Qed.

Lemma fold_max_permuted (l l' : list A) (hi : Z) :
  Permutation l l' ->
  fold_left (fun mx p => Z.max mx (f p)) l hi
  = fold_left (fun mx p => Z.max mx (f p)) l' hi.
Proof.
  intros H. revert hi.
  induction H as [|x l l' _ IH|x y l|l l' l'' _ IH1 _ IH2]; intros hi; simpl.
  - reflexivity.
  - apply IH.
  - f_equal. lia.
  - now rewrite IH1.
Qed.

End Permuted.

Lemma separated_permuted normal roi roi' rec_points :
  Permutation roi roi' ->
  separated normal roi rec_points = separated normal roi' rec_points.
Proof.
  intros H. rewrite !separated_eq. unfold pj_min, pj_max.
  now rewrite (fold_min_permuted _ (fun p => dot normal (toVec p)) _ _ _ H),
              (fold_max_permuted _ (fun p => dot normal (toVec p)) _ _ _ H).
Qed.

Lemma boxes_disjoint_permuted roi roi' rect :
  Permutation roi roi' -> boxes_disjoint roi rect = boxes_disjoint roi' rect.
Proof.
  intros H. rewrite !boxes_disjoint_eq.
  unfold box_x1, box_y1, box_x2, box_y2.
  now rewrite (fold_min_permuted _ px _ _ _ H),
              (fold_min_permuted _ py _ _ _ H),
              (fold_max_permuted _ px _ _ _ H),
              (fold_max_permuted _ py _ _ _ H).
Qed.

Lemma size_app {A} (a b : list A) : size (a ++ b) = size a + size b.
Proof. unfold size. rewrite length_app. lia. Qed.

Lemma size_app_comm {A} (a b : list A) : size (b ++ a) = size (a ++ b).
Proof. rewrite !size_app. lia. Qed.

(** Vertex [j] of the polygon that starts with [b] is vertex [j + size a],
    counted round, of the one that starts with [a]. *)
Lemma vertex_app_comm (a b : list Point) j :
  0 <= j < size (a ++ b) ->
  vertex (b ++ a) j = vertex (a ++ b) ((j + size a) mod size (a ++ b)).
Proof.
  rewrite size_app. intros Hj. unfold vertex.
  pose proof (size_nonneg a) as Ha. pose proof (size_nonneg b) as Hb.
  destruct (Z_lt_le_dec j (size b)) as [Hlt | Hge].
  - rewrite Z.mod_small by lia.
    rewrite app_nth1 by (unfold size in Hlt; lia).
    rewrite app_nth2 by (unfold size in *; lia).
    f_equal. unfold size. lia.
  - assert (E : (j + size a) mod (size a + size b) = j - size b)
      by (symmetry; apply (Z.mod_unique_pos _ _ 1); lia).
    rewrite E.
    rewrite app_nth2 by (unfold size in Hge; lia).
    rewrite app_nth1 by (unfold size in *; lia).
    f_equal. unfold size. lia.
Qed.

Lemma roi_edge_app_comm (a b : list Point) j :
  0 <= j < size (a ++ b) ->
  roi_edge (b ++ a) j
  = roi_edge (a ++ b) ((j + size a) mod size (a ++ b)).
Proof.
  intros Hj. unfold roi_edge. rewrite (size_app_comm a b).
  assert (Hm : 0 <= (j + 1) mod size (a ++ b) < size (a ++ b))
    by (apply Z.mod_pos_bound; lia).
  rewrite (vertex_app_comm a b j Hj), (vertex_app_comm a b _ Hm).
  do 2 f_equal.
  rewrite Zplus_mod_idemp_l.
  rewrite (Zplus_mod_idemp_l (j + size a) 1).
  f_equal. ring.
Qed.

Lemma loop_axis_app_comm (Q : Vec -> bool) (a b : list Point) rect todo :
  0 <= todo ->
  (forall j, 0 <= j < size (a ++ b) + todo ->
             Q (loop_axis (a ++ b) rect j) = true) ->
  forall j, 0 <= j < size (a ++ b) + todo ->
            Q (loop_axis (b ++ a) rect j) = true.
Proof.
  intros Htodo H j Hj. unfold loop_axis, loop_edge in *.
  rewrite (size_app_comm a b).
  destruct (j <? size (a ++ b)) eqn:E.
  - apply Z.ltb_lt in E. rewrite roi_edge_app_comm by lia.
    assert (Hm : 0 <= (j + size a) mod size (a ++ b) < size (a ++ b))
      by (apply Z.mod_pos_bound; lia).
    assert (Hm' : 0 <= (j + size a) mod size (a ++ b) < size (a ++ b) + todo)
      by lia.
    specialize (H _ Hm').
    destruct (_ <? size (a ++ b)) eqn:E' in H;
      [exact H | apply Z.ltb_ge in E'; lia].
  - specialize (H j Hj). now rewrite E in H.
Qed.

(** X11. The result does not depend on the vertex the ROI list starts
    with: the list that starts with [b] and goes on with [a] describes the
    polygon of the list [a ++ b], and [collision_detect] returns the same
    value for both.  (The vector accesses come in another order.)  The
    number of vertices plus two is an [int], so that the loop runs through
    all edges. *)
Theorem starting_vertex_irrelevant (a b : list Point) (rect : Rect) :
  size (a ++ b) + 2 <= Int.INT_MAX ->
  result (collision_detect (b ++ a) rect)
  = result (collision_detect (a ++ b) rect).
Proof.
  intros Hfit.
  destruct (Z_lt_le_dec (size (a ++ b)) 3) as [Hlt | Hn].
  - rewrite (collision_detect_small (a ++ b) rect Hlt).
    rewrite <- (size_app_comm a b) in Hlt.
    now rewrite (collision_detect_small (b ++ a) rect Hlt).
  - assert (Hperm : Permutation (b ++ a) (a ++ b))
      by apply Permutation_app_comm.
    rewrite (collision_detect_result (a ++ b) rect Hn Hfit).
    rewrite <- (size_app_comm a b) in Hn, Hfit.
    rewrite (collision_detect_result (b ++ a) rect Hn Hfit).
    rewrite (boxes_disjoint_permuted _ _ rect Hperm).
    assert (El : List.length (b ++ a) = List.length (a ++ b))
      by (rewrite !length_app; lia).
    rewrite El. do 2 f_equal. apply eq_true_iff_eq.
    rewrite !forallb_forall.
    set (Q := fun N => negb (separated N (a ++ b) (rect_to_points rect))).
    assert (Hc : forall j, In j (counters 0 (S (S (List.length (a ++ b)))))
                 <-> 0 <= j < size (a ++ b) + 2)
      by (intros j; rewrite counters_In; unfold size; lia).
    split; intros H j Hj; apply Hc in Hj.
    + apply (loop_axis_app_comm Q b a rect 2); [lia| |].
      * intros k Hk. rewrite (size_app_comm a b) in Hk. unfold Q.
        rewrite <- (separated_permuted _ _ _ _ Hperm).
        apply H, Hc. exact Hk.
      * now rewrite (size_app_comm a b).
    + rewrite (separated_permuted _ _ _ _ Hperm).
      apply (loop_axis_app_comm Q a b rect 2); [lia| |exact Hj].
      intros k Hk. apply H, Hc. exact Hk.
Qed.

Lemma starting_vertex_irrelevant_witness :
  result (collision_detect [mkPoint 0 200; mkPoint 200 0; mkPoint 200 200]
                           rect1)
  = result (collision_detect main_roi rect1).
Proof.
  apply (starting_vertex_irrelevant
           [mkPoint 200 0; mkPoint 200 200] [mkPoint 0 200] rect1).
  unfold size. simpl. unfold Int.INT_MAX. lia.
Defined.

(** ** The result and the geometry of the input *)

Lemma collision_unseparated roi rect :
  3 <= size roi -> proper_rect rect = true -> no_overflow roi rect = true ->
  result (collision_detect roi rect) = Some true <-> unseparated roi rect.
Proof.
  intros Hn Hproper Hexact. destruct (proper_rect_inv rect Hproper) as [Hw Hh].
  exact (collision_true_iff roi rect Hn Hw Hh Hexact).
Qed.

(** Two inputs of which either both or none are separated have the same
    result. *)
Lemma results_agree roi rect roi' rect' :
  3 <= size roi -> proper_rect rect = true -> no_overflow roi rect = true ->
  3 <= size roi' -> proper_rect rect' = true ->
  no_overflow roi' rect' = true ->
  (unseparated roi' rect' <-> unseparated roi rect) ->
  result (collision_detect roi' rect') = result (collision_detect roi rect).
Proof.
  intros Hn Hproper Hexact Hn' Hproper' Hexact' Hiff.
  pose proof (collision_unseparated roi rect Hn Hproper Hexact) as H.
  pose proof (collision_unseparated roi' rect' Hn' Hproper' Hexact') as H'.
  destruct (collision_returns roi rect Hn Hexact) as [b Hb].
  destruct (collision_returns roi' rect' Hn' Hexact') as [b' Hb'].
  rewrite Hb, Hb' in *. f_equal. apply eq_true_iff_eq.
  split; intros ->.
  - enough (E : Some b = Some true) by congruence.
    apply H, Hiff, H'. reflexivity.
  - enough (E : Some b' = Some true) by congruence.
    apply H', Hiff, H. reflexivity.
Qed.

Lemma apart_map (T : Point -> Point) f A B :
  strictly_apart f (map T A) (map T B) <->
  strictly_apart (fun p => f (T p)) A B.
Proof.
  unfold strictly_apart. split.
  - intros [H | H]; [left | right]; intros a b Ha Hb;
      apply H; now apply in_map.
  - intros [H | H]; [left | right]; intros a b Ha Hb;
      apply in_map_iff in Ha, Hb;
      destruct Ha as (a' & <- & Ha), Hb as (b' & <- & Hb); auto.
Qed.

Lemma apart_members f A B A' B' :
  (forall p, In p A' -> In p A) -> (forall p, In p B' -> In p B) ->
  strictly_apart f A B -> strictly_apart f A' B'.
Proof. intros HA HB [H | H]; [left | right]; intros a b Ha Hb; auto. Qed.

Lemma apart_affine c d f A B :
  0 < c ->
  strictly_apart (fun p => c * f p + d) A B <-> strictly_apart f A B.
Proof.
  intros Hc. unfold strictly_apart.
  split; (intros [H | H]; [left | right]; intros a b Ha Hb;
          specialize (H a b Ha Hb); nia).
Qed.

Lemma apart_iff_ext f g A B :
  (forall p, f p = g p) -> strictly_apart f A B <-> strictly_apart g A B.
Proof.
  intros E. split; apply strictly_apart_ext; intros; auto.
Qed.

Lemma vertex_map (T : Point -> Point) pts i :
  0 <= i < size pts -> vertex (map T pts) i = T (vertex pts i).
Proof.
  intros Hi. unfold vertex.
  rewrite (nth_indep _ _ (T (mkPoint 0 0)))
    by (rewrite length_map; unfold size in Hi; lia).
  apply map_nth.
Qed.

Lemma size_map {A B} (T : A -> B) (l : list A) : size (map T l) = size l.
Proof. unfold size. now rewrite length_map. Qed.

Lemma next_in_range n j : 0 < n -> 0 <= (j + 1) mod n < n.
Proof. intros H. apply Z.mod_pos_bound. lia. Qed.

(** ** Orientation *)

Lemma size_rev {A} (l : list A) : size (rev l) = size l.
Proof. unfold size. now rewrite length_rev. Qed.

Lemma vertex_rev roi j :
  0 <= j < size roi -> vertex (rev roi) j = vertex roi (size roi - 1 - j).
Proof.
  intros Hj. unfold vertex, size in *.
  rewrite rev_nth by lia. f_equal. lia.
Qed.

(** Edge [j] of the reversed polygon is an edge of the polygon, run through
    the other way. *)
Lemma edge_rev roi j :
  0 <= j < size roi ->
  exists j', 0 <= j' < size roi /\
    Spec.edge (rev roi) j
    = mkVec (- vx (Spec.edge roi j')) (- vy (Spec.edge roi j')).
Proof.
  intros Hj. set (n := size roi) in *.
  exists ((n - 2 - j) mod n). split; [apply Z.mod_pos_bound; lia|].
  unfold Spec.edge. rewrite size_rev. fold n.
  assert (Hm : 0 <= (j + 1) mod n < n) by (apply Z.mod_pos_bound; lia).
  rewrite !vertex_rev by (fold n; lia). fold n.
  assert (E : (n - 2 - j) mod n = n - 1 - (j + 1) mod n /\
              ((n - 2 - j) mod n + 1) mod n = n - 1 - j).
  { destruct (Z.eq_dec j (n - 1)) as [-> | Hne].
    - replace (n - 1 + 1) with n by lia.
      replace (n - 2 - (n - 1)) with (-1) by lia.
      rewrite Z.mod_same by lia.
      assert (E1 : -1 mod n = n - 1)
        by (symmetry; apply (Z.mod_unique_pos _ _ (-1)); lia).
      rewrite E1. replace (n - 1 + 1) with n by lia.
      rewrite Z.mod_same by lia. lia.
    - rewrite !(Z.mod_small (j + 1)) by lia.
      rewrite (Z.mod_small (n - 2 - j)) by lia.
      rewrite Z.mod_small by lia. lia. }
  destruct E as [E1 E2]. rewrite E2, E1.
  unfold Spec.sub. cbn [vx vy]. f_equal; ring.
Qed.

Lemma unseparated_rev roi rect :
  unseparated roi rect -> unseparated (rev roi) rect.
Proof.
  intros (Hx & Hy & Hedges).
  assert (Hin : forall p, In p (rev roi) <-> In p roi)
    by (intros p; symmetry; apply in_rev).
  repeat split.
  - intros H. apply Hx. revert H. apply apart_members; auto. apply Hin.
  - intros H. apply Hy. revert H. apply apart_members; auto. apply Hin.
  - intros j Hj H. rewrite size_rev in Hj.
    destruct (edge_rev roi j Hj) as (j' & Hj' & E).
    apply (Hedges j' Hj'). apply apart_flip.
    apply (apart_members _ (rev roi) (Spec.polygon_of rect)); auto;
      [apply Hin|].
    revert H. apply strictly_apart_ext; intros p _;
      unfold along_edge; rewrite E;
      unfold Spec.dot, Spec.normal; cbn [vx vy]; ring.
Qed.

(** X12. The result does not depend on the sense in which the vertices of
    the ROI are listed: for the list read backwards, when neither input
    makes the arithmetic overflow, [collision_detect] returns the same
    value. *)
Theorem orientation_irrelevant (roi : list Point) (rect : Rect) :
  3 <= size roi -> proper_rect rect = true ->
  no_overflow roi rect = true -> no_overflow (rev roi) rect = true ->
  result (collision_detect (rev roi) rect)
  = result (collision_detect roi rect).
Proof.
  intros Hn Hproper Hexact Hexact'.
  apply results_agree; auto.
  - now rewrite size_rev.
  - split; [|apply unseparated_rev].
    intros H. rewrite <- (rev_involutive roi). now apply unseparated_rev.
Qed.

Lemma orientation_irrelevant_witness :
  result (collision_detect (rev main_roi) rect1)
  = result (collision_detect main_roi rect1).
Proof.
  apply (orientation_irrelevant main_roi rect1);
    [unfold size; simpl; lia | reflexivity | reflexivity | reflexivity].
Defined.

(** ** Change of unit and origin *)

Lemma polygon_of_rescale k dx dy r :
  Spec.polygon_of (rescale_rect k dx dy r)
  = rescale k dx dy (Spec.polygon_of r).
Proof.
  unfold Spec.polygon_of, rescale, rescale_rect, rescale_point.
  cbn [map left top width height px py].
  repeat (apply f_equal2; [apply f_equal2; ring|]). reflexivity.
Qed.

Lemma along_edge_rescale k dx dy roi j p :
  0 <= j < size roi ->
  along_edge (rescale k dx dy roi) j (rescale_point k dx dy p)
  = k * k * along_edge roi j p
    + k * Spec.dot (Spec.normal (Spec.edge roi j)) (mkVec dx dy).
Proof.
  intros Hj. unfold along_edge, Spec.edge, rescale.
  rewrite size_map, !vertex_map by (auto; apply next_in_range; lia).
  unfold Spec.dot, Spec.normal, Spec.sub, rescale_point, toVec.
  cbn [vx vy px py]. ring.
Qed.

Lemma unseparated_rescale k dx dy roi rect :
  0 < k ->
  unseparated (rescale k dx dy roi) (rescale_rect k dx dy rect) <->
  unseparated roi rect.
Proof.
  intros Hk. unfold unseparated. rewrite polygon_of_rescale.
  set (C := Spec.polygon_of rect).
  assert (Ex : strictly_apart px (rescale k dx dy roi) (rescale k dx dy C)
               <-> strictly_apart px roi C).
  { unfold rescale. rewrite apart_map. apply (apart_affine k dx px _ _ Hk). }
  assert (Ey : strictly_apart py (rescale k dx dy roi) (rescale k dx dy C)
               <-> strictly_apart py roi C).
  { unfold rescale. rewrite apart_map. apply (apart_affine k dy py _ _ Hk). }
  assert (He : forall j, 0 <= j < size roi ->
            (strictly_apart (along_edge (rescale k dx dy roi) j)
               (rescale k dx dy roi) (rescale k dx dy C) <->
             strictly_apart (along_edge roi j) roi C)).
  { intros j Hj. unfold rescale at 2 3. rewrite apart_map.
    rewrite (apart_iff_ext _ _ _ _
               (fun p => along_edge_rescale k dx dy roi j p Hj)).
    apply apart_affine. nia. }
  assert (Es : size (rescale k dx dy roi) = size roi) by apply size_map.
  rewrite Ex, Ey, Es.
  split; intros (Hx & Hy & Hedges); repeat split; auto;
    intros j Hj Ha; apply (Hedges j Hj); now apply (He j Hj).
Qed.

(** X13. The result does not depend on the unit of length and on the
    origin of the coordinates: when all coordinates of the ROI and of the
    rectangle are multiplied by [k > 0] and shifted by [(dx, dy)], and
    neither input makes the arithmetic overflow, [collision_detect] returns
    the same value. *)
Theorem similarity_invariant (k dx dy : Z) (roi : list Point) (rect : Rect) :
  0 < k -> 3 <= size roi -> proper_rect rect = true ->
  no_overflow roi rect = true ->
  no_overflow (rescale k dx dy roi) (rescale_rect k dx dy rect) = true ->
  result (collision_detect (rescale k dx dy roi) (rescale_rect k dx dy rect))
  = result (collision_detect roi rect).
Proof.
  intros Hk Hn Hproper Hexact Hexact'.
  apply results_agree; auto.
  - unfold rescale. now rewrite size_map.
  - destruct (proper_rect_inv rect Hproper) as [Hw Hh].
    unfold proper_rect, rescale_rect. cbn [width height].
    apply andb_true_iff. rewrite !Z.leb_le. nia.
  - now apply unseparated_rescale.
Qed.

Lemma similarity_invariant_witness :
  result (collision_detect (rescale 3 (-50) 70 main_roi)
                           (rescale_rect 3 (-50) 70 rect4))
  = result (collision_detect main_roi rect4).
Proof.
  apply (similarity_invariant 3 (-50) 70 main_roi rect4);
    [lia | unfold size; simpl; lia | reflexivity | reflexivity | reflexivity].
Defined.

(** ** Exchange of the coordinates *)

Lemma polygon_of_transpose r p :
  In p (Spec.polygon_of (transpose_rect r)) <->
  In p (transpose (Spec.polygon_of r)).
Proof.
  unfold Spec.polygon_of, transpose, transpose_rect, transpose_point.
  cbn [map left top width height px py In]. tauto.
Qed.

Lemma along_edge_transpose roi j p :
  0 <= j < size roi ->
  along_edge (transpose roi) j (transpose_point p) = - along_edge roi j p.
Proof.
  intros Hj. unfold along_edge, Spec.edge, transpose.
  rewrite size_map, !vertex_map by (auto; apply next_in_range; lia).
  unfold Spec.dot, Spec.normal, Spec.sub, transpose_point, toVec.
  cbn [vx vy px py]. ring.
Qed.

Lemma apart_corners_transpose f A r :
  strictly_apart f A (Spec.polygon_of (transpose_rect r)) <->
  strictly_apart f A (transpose (Spec.polygon_of r)).
Proof.
  split; apply apart_members; auto; intros p; apply polygon_of_transpose.
Qed.

Lemma unseparated_transpose roi rect :
  unseparated (transpose roi) (transpose_rect rect) <-> unseparated roi rect.
Proof.
  unfold unseparated. rewrite !apart_corners_transpose.
  set (C := Spec.polygon_of rect).
  assert (Ex : strictly_apart px (transpose roi) (transpose C)
               <-> strictly_apart py roi C).
  { unfold transpose. rewrite apart_map. reflexivity. }
  assert (Ey : strictly_apart py (transpose roi) (transpose C)
               <-> strictly_apart px roi C).
  { unfold transpose. rewrite apart_map. reflexivity. }
  assert (He : forall j, 0 <= j < size roi ->
            (strictly_apart (along_edge (transpose roi) j)
               (transpose roi) (Spec.polygon_of (transpose_rect rect)) <->
             strictly_apart (along_edge roi j) roi C)).
  { intros j Hj. rewrite apart_corners_transpose. unfold transpose at 2 3.
    rewrite apart_map.
    rewrite (apart_iff_ext _ _ _ _
               (fun p => along_edge_transpose roi j p Hj)).
    apply apart_flip. }
  assert (Es : size (transpose roi) = size roi) by apply size_map.
  rewrite Ex, Ey, Es.
  split; intros (Hx & Hy & Hedges); repeat split; auto;
    intros j Hj Ha; apply (Hedges j Hj); now apply (He j Hj).
Qed.

(** X14. The result does not depend on which coordinate is called x: when
    the two coordinates of every vertex are exchanged, and with them the
    roles of [left] and [top] and of [width] and [height], and neither
    input makes the arithmetic overflow, [collision_detect] returns the
    same value, although its loop examines the y axis and not the x axis. *)
Theorem transpose_invariant (roi : list Point) (rect : Rect) :
  3 <= size roi -> proper_rect rect = true ->
  no_overflow roi rect = true ->
  no_overflow (transpose roi) (transpose_rect rect) = true ->
  result (collision_detect (transpose roi) (transpose_rect rect))
  = result (collision_detect roi rect).
Proof.
  intros Hn Hproper Hexact Hexact'.
  apply results_agree; auto.
  - unfold transpose. now rewrite size_map.
  - unfold proper_rect, transpose_rect in *. cbn [width height].
    now rewrite andb_comm.
  - apply unseparated_transpose.
Qed.

Lemma transpose_invariant_witness :
  result (collision_detect (transpose main_roi) (transpose_rect rect3))
  = result (collision_detect main_roi rect3).
Proof.
  apply (transpose_invariant main_roi rect3);
    [unfold size; simpl; lia | reflexivity | reflexivity | reflexivity].
Defined.

(** ** A rectangle within another *)

Lemma apart_within a b roi r r' :
  proper_rect r' = true -> within r r' = true -> proper_rect r = true ->
  strictly_apart (fun p => a * px p + b * py p) roi (Spec.polygon_of r') ->
  strictly_apart (fun p => a * px p + b * py p) roi (Spec.polygon_of r).
Proof.
  intros Hproper' Hin Hproper.
  destruct (proper_rect_inv r' Hproper') as [Hw' Hh'].
  destruct (proper_rect_inv r Hproper) as [Hw Hh].
  unfold within in Hin. rewrite !andb_true_iff, !Z.leb_le in Hin.
  assert (Hc : forall c, In c (Spec.polygon_of r) ->
            exists lo hi, In lo (Spec.polygon_of r') /\
              In hi (Spec.polygon_of r') /\
              a * px lo + b * py lo <= a * px c + b * py c
              <= a * px hi + b * py hi).
  { intros c Hc.
    destruct (rectangle_corners_bound r' a b (px c) (py c) 1)
      as (lo & hi & Hlo & Hhi & Hb); auto; [lia| |].
    - unfold Spec.in_rectangle.
      destruct Hc as [<- | [<- | [<- | [<- | []]]]]; cbn [px py]; lia.
    - exists lo, hi. repeat split; auto; lia. }
  intros [H | H]; [left | right]; intros p c Hp Hcin;
    destruct (Hc c Hcin) as (lo & hi & Hlo & Hhi & Hb).
  - specialize (H p hi Hp Hhi). cbv beta in H. lia.
  - specialize (H p lo Hp Hlo). cbv beta in H. lia.
Qed.

(** X15. A rectangle that contains a colliding rectangle collides: when
    [collision_detect] returns [true] for a rectangle, it returns [true]
    for every rectangle the first lies within, when neither of the two
    makes the arithmetic overflow. *)
Theorem larger_rectangle_collides (roi : list Point) (rect rect' : Rect) :
  3 <= size roi -> proper_rect rect = true -> proper_rect rect' = true ->
  no_overflow roi rect = true -> no_overflow roi rect' = true ->
  within rect rect' = true ->
  result (collision_detect roi rect) = Some true ->
  result (collision_detect roi rect') = Some true.
Proof.
  intros Hn Hproper Hproper' Hexact Hexact' Hin Hres.
  apply (collision_unseparated roi rect Hn Hproper Hexact) in Hres.
  apply (collision_unseparated roi rect' Hn Hproper' Hexact').
  destruct Hres as (Hx & Hy & Hedges).
  repeat split.
  - intros H. apply Hx.
    apply (strictly_apart_ext (fun p => 1 * px p + 0 * py p));
      [intros; lia | intros; lia |].
    apply (apart_within 1 0 roi rect rect'); auto.
    revert H. apply strictly_apart_ext; intros; lia.
  - intros H. apply Hy.
    apply (strictly_apart_ext (fun p => 0 * px p + 1 * py p));
      [intros; lia | intros; lia |].
    apply (apart_within 0 1 roi rect rect'); auto.
    revert H. apply strictly_apart_ext; intros; lia.
  - intros j Hj H. apply (Hedges j Hj).
    exact (apart_within _ _ roi rect rect' Hproper' Hin Hproper H).
Qed.

Lemma larger_rectangle_collides_witness :
  result (collision_detect main_roi (mkRect 170 90 100 100)) = Some true.
Proof.
  apply (larger_rectangle_collides main_roi rect4 (mkRect 170 90 100 100));
    [unfold size; simpl; lia | reflexivity | reflexivity | reflexivity
    | reflexivity | reflexivity | reflexivity].
Defined.

(** ** A rectangle for the ROI *)

Lemma apart_scale_any c f A B :
  A <> [] -> B <> [] ->
  strictly_apart (fun p => c * f p) A B -> strictly_apart f A B.
Proof.
  intros HA HB H.
  destruct (Z.lt_trichotomy c 0) as [Hc | [-> | Hc]].
  - apply apart_flip. apply (apart_scale (- c)); [lia|].
    revert H. apply strictly_apart_ext; intros; lia.
  - exfalso. revert H. simpl. now apply apart_constant.
  - now apply (apart_scale c).
Qed.

Lemma apart_px_rects r1 r2 :
  0 <= width r1 -> 0 <= width r2 ->
  strictly_apart px (Spec.polygon_of r1) (Spec.polygon_of r2) <->
  left r1 + width r1 < left r2 \/ left r2 + width r2 < left r1.
Proof.
  intros Hw1 Hw2. split.
  - intros [H | H].
    + right. apply (H (mkPoint (left r1) (top r1))
                      (mkPoint (left r2 + width r2) (top r2)));
        [left | right; left]; reflexivity.
    + left. apply (H (mkPoint (left r1 + width r1) (top r1))
                     (mkPoint (left r2) (top r2)));
        [right; left | left]; reflexivity.
  - intros [H | H]; [right | left]; intros a b
      [<- | [<- | [<- | [<- | []]]]] [<- | [<- | [<- | [<- | []]]]];
      cbn [px]; lia.
Qed.

Lemma apart_py_rects r1 r2 :
  0 <= height r1 -> 0 <= height r2 ->
  strictly_apart py (Spec.polygon_of r1) (Spec.polygon_of r2) <->
  top r1 + height r1 < top r2 \/ top r2 + height r2 < top r1.
Proof.
  intros Hh1 Hh2. split.
  - intros [H | H].
    + right. apply (H (mkPoint (left r1) (top r1))
                      (mkPoint (left r2 + width r2) (top r2 + height r2)));
        [left | right; right; left]; reflexivity.
    + left. apply (H (mkPoint (left r1 + width r1) (top r1 + height r1))
                     (mkPoint (left r2) (top r2)));
        [right; right; left | left]; reflexivity.
  - intros [H | H]; [right | left]; intros a b
      [<- | [<- | [<- | [<- | []]]]] [<- | [<- | [<- | [<- | []]]]];
      cbn [py]; lia.
Qed.

(** The normal of every edge of a rectangle is a multiple of a coordinate
    axis. *)
Lemma along_edge_rect r j :
  0 <= j < 4 ->
  exists c, (forall p, along_edge (Spec.polygon_of r) j p = c * px p) \/
            (forall p, along_edge (Spec.polygon_of r) j p = c * py p).
Proof.
  intros Hj.
  assert (E : j = 0 \/ j = 1 \/ j = 2 \/ j = 3) by lia.
  destruct E as [-> | [-> | [-> | ->]]].
  - exists (- width r). right. intros p.
    unfold along_edge, Spec.edge, Spec.dot, Spec.normal, Spec.sub, toVec.
    simpl. ring.
  - exists (height r). left. intros p.
    unfold along_edge, Spec.edge, Spec.dot, Spec.normal, Spec.sub, toVec.
    simpl. ring.
  - exists (width r). right. intros p.
    unfold along_edge, Spec.edge, Spec.dot, Spec.normal, Spec.sub, toVec.
    simpl. ring.
  - exists (- height r). left. intros p.
    unfold along_edge, Spec.edge, Spec.dot, Spec.normal, Spec.sub, toVec.
    simpl. ring.
Qed.

Lemma unseparated_rects r1 r2 :
  proper_rect r1 = true -> proper_rect r2 = true ->
  unseparated (Spec.polygon_of r1) r2 <-> overlap r1 r2 = true.
Proof.
  intros Hp1 Hp2.
  destruct (proper_rect_inv r1 Hp1) as [Hw1 Hh1].
  destruct (proper_rect_inv r2 Hp2) as [Hw2 Hh2].
  unfold unseparated, overlap.
  rewrite (apart_px_rects r1 r2 Hw1 Hw2), (apart_py_rects r1 r2 Hh1 Hh2).
  rewrite !andb_true_iff, !Z.leb_le. split.
  - intros (Hx & Hy & _). lia.
  - intros H. repeat split; try lia.
    intros j Hj Ha.
    destruct (along_edge_rect r1 j Hj) as (c & [E | E]);
      rewrite (apart_iff_ext _ _ _ _ E) in Ha;
      apply apart_scale_any in Ha; try discriminate.
    + apply (apart_px_rects r1 r2 Hw1 Hw2) in Ha. lia.
    + apply (apart_py_rects r1 r2 Hh1 Hh2) in Ha. lia.
Qed.

(** X16. With the corner list of a rectangle for the ROI, the function is
    the overlap test of two rectangles: [collision_detect] applied to
    [rect_to_points r1] and [r2] returns [true] exactly when the extents of
    the two rectangles overlap or touch along both coordinate axes (widths
    and heights are not negative, and the arithmetic does not overflow). *)
Theorem rectangle_roi_overlap (r1 r2 : Rect) :
  proper_rect r1 = true -> proper_rect r2 = true ->
  int_points (Spec.polygon_of r1) = true ->
  no_overflow (rect_to_points r1) r2 = true ->
  result (collision_detect (rect_to_points r1) r2) = Some (overlap r1 r2).
Proof.
  intros Hp1 Hp2 Hint Hexact.
  assert (Hn : 3 <= size (rect_to_points r1)) by (unfold size; simpl; lia).
  pose proof (collision_unseparated _ r2 Hn Hp2 Hexact) as H.
  destruct (collision_returns _ r2 Hn Hexact) as [b Hb].
  rewrite Hb in *. f_equal. apply eq_true_iff_eq.
  rewrite <- (unseparated_rects r1 r2 Hp1 Hp2).
  rewrite <- (rect_to_points_exact r1 Hint), <- H.
  split; congruence.
Qed.

Lemma rectangle_roi_overlap_witness :
  result (collision_detect (rect_to_points rect1) rect2)
  = Some (overlap rect1 rect2).
Proof. apply (rectangle_roi_overlap rect1 rect2); reflexivity. Defined.

(** ** A point for the rectangle *)

Lemma cone_form s a b ux uy wx wy dx dy :
  s = 1 \/ s = -1 ->
  0 < s * (wx * uy - wy * ux) ->
  0 <= s * (wx * dy - wy * dx) -> 0 <= s * (dx * uy - dy * ux) ->
  a * ux + b * uy <= 0 -> a * wx + b * wy <= 0 ->
  a * dx + b * dy <= 0.
Proof.
  intros Hs Hc Hw Hu Fu Fw.
  assert (E : (wx * uy - wy * ux) * (a * dx + b * dy)
              = (a * ux + b * uy) * (wx * dy - wy * dx)
                + (a * wx + b * wy) * (dx * uy - dy * ux)) by ring.
  destruct Hs as [-> | ->]; nia.
Qed.

Section Inside.

Variable roi : list Point.
Variable s : Z.
Variable q : Point.
Hypothesis Hn : 3 <= size roi.
Hypothesis Hs : s = 1 \/ s = -1.
Hypothesis Hwound : Spec.wound s roi = true.
Hypothesis Hinside : forall i, 0 <= i < size roi -> 0 <= s * side_of roi i q.

Let n := size roi.

(** No linear form takes on [q] a value above all those it takes on the
    vertices. *)
Lemma inside_not_beyond a b :
  ~ (forall v, In v roi -> a * px v + b * py v < a * px q + b * py q).
Proof.
  intros Hbeyond.
  destruct (farthest_vertex (fun p => a * px p + b * py p) roi
              (roi_nonempty roi Hn)) as (k & Hk & Hmax).
  fold n in Hk.
  destruct (neighbours n k Hn Hk) as (Ha & Hb & Hak & Nak & Nbk & Nab).
  set (ia := (k + n - 1) mod n) in *. set (ib := (k + 1) mod n) in *.
  pose proof (Hmax _ (vertex_In roi ia Ha)) as Fa.
  pose proof (Hmax _ (vertex_In roi ib Hb)) as Fb.
  pose proof (Hbeyond _ (vertex_In roi k Hk)) as Fq.
  pose proof (wound_strict roi s Hwound k ia Hk Ha Nak) as Hconv.
  fold n ib in Hconv. specialize (Hconv Nab).
  pose proof (Hinside k Hk) as Sk. pose proof (Hinside ia Ha) as Sa.
  unfold side_of, Spec.edge in Hconv, Sk, Sa. fold n in Hconv, Sk, Sa.
  rewrite Hak in Sa. fold ib in Hconv, Sk.
  unfold Spec.cross, Spec.sub in Hconv, Sk, Sa. cbn [vx vy] in Hconv, Sk, Sa.
  cbv beta in Fa, Fb.
  set (vk := vertex roi k) in *. set (va := vertex roi ia) in *.
  set (vb := vertex roi ib) in *.
  pose proof (cone_form s a b (px va - px vk) (py va - py vk)
                (px vb - px vk) (py vb - py vk)
                (px q - px vk) (py q - py vk) Hs) as Hcone.
  assert (H1 : 0 < s * ((px vb - px vk) * (py va - py vk)
                        - (py vb - py vk) * (px va - px vk))) by lia.
  assert (H2 : 0 <= s * ((px vb - px vk) * (py q - py vk)
                         - (py vb - py vk) * (px q - px vk))) by lia.
  assert (H3 : 0 <= s * ((px q - px vk) * (py va - py vk)
                         - (py q - py vk) * (px va - px vk))).
  { replace ((px q - px vk) * (py va - py vk)
             - (py q - py vk) * (px va - px vk))
      with ((px vk - px va) * (py q - py va)
            - (py vk - py va) * (px q - px va)) by ring.
    exact Sa. }
  specialize (Hcone H1 H2 H3). lia.
Qed.

Lemma inside_not_apart a b (B : list Point) :
  (forall c, In c B -> c = q) -> B <> [] ->
  ~ strictly_apart (fun p => a * px p + b * py p) roi B.
Proof.
  intros HB Hne [H | H].
  - apply (inside_not_beyond (- a) (- b)). intros v Hv.
    destruct B as [|c B]; [congruence|].
    specialize (H v c Hv (or_introl eq_refl)).
    rewrite (HB c (or_introl eq_refl)) in H. cbv beta in H. lia.
  - apply (inside_not_beyond a b). intros v Hv.
    destruct B as [|c B]; [congruence|].
    specialize (H v c Hv (or_introl eq_refl)).
    rewrite (HB c (or_introl eq_refl)) in H. exact H.
Qed.

End Inside.

Lemma point_rect_corners q c :
  In c (Spec.polygon_of (point_rect q)) -> c = q.
Proof.
  intros [<- | [<- | [<- | [<- | []]]]]; apply corner_eq;
    cbn [point_rect left top width height px py]; lia.
Qed.

Lemma on_inner_sides_iff s roi q :
  on_inner_sides s roi q = true <->
  forall i, 0 <= i < size roi -> 0 <= s * side_of roi i q.
Proof.
  unfold on_inner_sides. rewrite forallb_forall. split.
  - intros H i Hi. apply Z.leb_le, H, counters_In. unfold size in Hi. lia.
  - intros H i Hi. apply Z.leb_le, H. apply counters_In in Hi.
    unfold size. lia.
Qed.

(** X17. For a rectangle of width and height 0, the function is the test
    whether a point lies in a convex polygon: with the ROI convex and wound
    in the sense [s], [collision_detect] returns [true] exactly when the
    point is on the inner side of every edge of the ROI, or on the edge's
    supporting line. *)
Theorem point_in_convex_polygon (roi : list Point) (s : Z) (q : Point) :
  3 <= size roi -> s = 1 \/ s = -1 -> Spec.wound s roi = true ->
  no_overflow roi (point_rect q) = true ->
  result (collision_detect roi (point_rect q))
  = Some (on_inner_sides s roi q).
Proof.
  intros Hn Hs Hwound Hexact.
  assert (Hproper : proper_rect (point_rect q) = true) by reflexivity.
  pose proof (collision_unseparated _ _ Hn Hproper Hexact) as H.
  destruct (collision_returns _ _ Hn Hexact) as [b Hb].
  rewrite Hb in *. f_equal. apply eq_true_iff_eq.
  rewrite on_inner_sides_iff.
  assert (Hb' : b = true <-> Some b = Some true) by (split; congruence).
  rewrite Hb', H. clear Hb' H Hb. split.
  - intros (_ & _ & Hedges) i Hi.
    destruct (Z_le_gt_dec 0 (s * side_of roi i q)) as [Hle | Hgt]; [exact Hle|].
    exfalso. apply (Hedges i Hi).
    apply (edge_separates roi s Hs Hwound i _ Hi).
    intros c Hc. rewrite (point_rect_corners q c Hc). lia.
  - intros Hinside.
    pose proof (fun a b =>
      inside_not_apart roi s q Hn Hs Hwound Hinside a b
        (Spec.polygon_of (point_rect q)) (point_rect_corners q)
        (polygon_of_nonempty _)) as Hno.
    repeat split.
    + intros Ha. apply (Hno 1 0). revert Ha.
      apply strictly_apart_ext; intros; lia.
    + intros Ha. apply (Hno 0 1). revert Ha.
      apply strictly_apart_ext; intros; lia.
    + intros j Hj Ha. exact (Hno _ _ Ha).
Qed.

Lemma point_in_convex_polygon_witness :
  result (collision_detect main_roi (point_rect (mkPoint 150 150)))
  = Some (on_inner_sides 1 main_roi (mkPoint 150 150)).
Proof.
  apply (point_in_convex_polygon main_roi 1 (mkPoint 150 150));
    [unfold size; simpl; lia | left; reflexivity | reflexivity | reflexivity].
Defined.

(** ** A closed ring for the ROI *)

Lemma fold_min_snoc {A} (f : A -> Z) (l : list A) (p : A) lo :
  In p l ->
  fold_left (fun mn q => Z.min mn (f q)) (l ++ [p]) lo
  = fold_left (fun mn q => Z.min mn (f q)) l lo.
Proof.
  intros Hin. rewrite fold_left_app. simpl.
  pose proof (fold_min_le f l lo p Hin). lia.
Qed.

Lemma fold_max_snoc {A} (f : A -> Z) (l : list A) (p : A) hi :
  In p l ->
  fold_left (fun mx q => Z.max mx (f q)) (l ++ [p]) hi
  = fold_left (fun mx q => Z.max mx (f q)) l hi.
Proof.
  intros Hin. rewrite fold_left_app. simpl.
  pose proof (fold_max_ge f l hi p Hin). lia.
Qed.

Lemma separated_snoc normal roi p rec_points :
  In p roi ->
  separated normal (roi ++ [p]) rec_points = separated normal roi rec_points.
Proof.
  intros H. rewrite !separated_eq. unfold pj_min, pj_max.
  now rewrite (fold_min_snoc (fun q => dot normal (toVec q)) _ _ _ H),
              (fold_max_snoc (fun q => dot normal (toVec q)) _ _ _ H).
Qed.

Lemma boxes_disjoint_snoc roi p rect :
  In p roi -> boxes_disjoint (roi ++ [p]) rect = boxes_disjoint roi rect.
Proof.
  intros H. rewrite !boxes_disjoint_eq.
  unfold box_x1, box_y1, box_x2, box_y2.
  now rewrite (fold_min_snoc px _ _ _ H), (fold_min_snoc py _ _ _ H),
              (fold_max_snoc px _ _ _ H), (fold_max_snoc py _ _ _ H).
Qed.

Section Ring.

Variable roi : list Point.
Variable p : Point.
Variable rect : Rect.
Hypothesis Hpos : 0 < size roi.
Hypothesis Hfirst : vertex roi 0 = p.

Lemma ring_vertex j :
  0 <= j < size roi -> vertex (roi ++ [p]) j = vertex roi j.
Proof.
  clear Hpos Hfirst.
  intros Hj. unfold vertex. apply app_nth1. unfold size in Hj. lia.
Qed.

Lemma ring_vertex_last : vertex (roi ++ [p]) (size roi) = p.
Proof.
  clear Hpos Hfirst.
  unfold vertex. rewrite app_nth2 by (unfold size; lia).
  replace (Z.to_nat (size roi) - List.length roi)%nat with 0%nat
    by (unfold size; lia).
  reflexivity.
Qed.

(** The edges of the ring are those of the polygon and one of length 0. *)
Lemma ring_loop_axis j :
  0 <= j ->
  loop_axis (roi ++ [p]) rect j =
    if j <? size roi then loop_axis roi rect j
    else if j =? size roi then mkVec 0 0
    else loop_axis roi rect j.
Proof.
  intros Hj. unfold loop_axis, loop_edge.
  assert (Hs : size (roi ++ [p]) = size roi + 1) by apply size_app.
  rewrite Hs. set (n := size roi) in *.
  destruct (j <? n) eqn:E.
  - apply Z.ltb_lt in E.
    destruct (j <? n + 1) eqn:E'; [|apply Z.ltb_ge in E'; lia].
    f_equal. unfold roi_edge. rewrite Hs. fold n.
    rewrite ring_vertex by (fold n; lia). f_equal.
    destruct (Z.eq_dec (j + 1) n) as [En | Hne].
    + rewrite En, Z.mod_same by lia. rewrite Z.mod_small by lia.
      unfold n. rewrite ring_vertex_last. now rewrite Hfirst.
    + rewrite !Z.mod_small by lia. apply ring_vertex. fold n. lia.
  - apply Z.ltb_ge in E. destruct (j =? n) eqn:E0.
    + apply Z.eqb_eq in E0. subst j.
      destruct (n <? n + 1) eqn:E'; [|apply Z.ltb_ge in E'; lia].
      unfold roi_edge. rewrite Hs. fold n.
      rewrite Z.mod_same by lia.
      unfold n. rewrite ring_vertex_last, (ring_vertex 0) by lia.
      rewrite Hfirst. apply edge_normal_zero.
    + apply Z.eqb_neq in E0.
      destruct (j <? n + 1) eqn:E'; [apply Z.ltb_lt in E'; lia|].
      reflexivity.
Qed.

End Ring.

(** X18. An ROI given as a closed ring, its first vertex repeated at the
    end, gives the result of the ROI without the repetition: the edge of
    length 0 this adds cannot separate, and all other edges and all
    projections are the same.  The polygon without the repetition has at
    least three vertices, and the number of vertices plus two is an [int]
    for both lists. *)
Theorem closed_ring_same_result (p : Point) (rest : list Point)
    (rect : Rect) :
  3 <= size (p :: rest) -> size (p :: rest) + 3 <= Int.INT_MAX ->
  result (collision_detect ((p :: rest) ++ [p]) rect)
  = result (collision_detect (p :: rest) rect).
Proof.
  intros Hn Hfit.
  assert (Hfirst : vertex (p :: rest) 0 = p) by reflexivity.
  assert (Hp : In p (p :: rest)) by (left; reflexivity).
  assert (Hroi : p :: rest <> []) by discriminate.
  revert Hn Hfit Hfirst Hp Hroi. generalize (p :: rest). clear rest.
  intros roi Hn Hfit Hfirst Hp Hroi.
  assert (Hs : size (roi ++ [p]) = size roi + 1) by apply size_app.
  assert (Hpos : 0 < size roi) by lia.
  pose proof (ring_loop_axis roi p rect Hpos Hfirst) as Hax.
  rewrite (collision_detect_result roi rect) by lia.
  rewrite (collision_detect_result (roi ++ [p]) rect) by lia.
  rewrite (boxes_disjoint_snoc roi p rect Hp).
  do 2 f_equal. apply eq_true_iff_eq. rewrite !forallb_forall.
  assert (Hlen : List.length (roi ++ [p]) = S (List.length roi))
    by (rewrite length_app; simpl; lia).
  rewrite Hlen.
  assert (Hrec : rect_to_points rect <> []) by discriminate.
  split; intros H j Hj; apply counters_In in Hj.
  - destruct (Z_lt_le_dec j (size roi)) as [Hlt | Hge].
    + assert (Hin : In j (counters 0 (S (S (S (List.length roi))))))
        by (apply counters_In; lia).
      specialize (H j Hin). rewrite separated_snoc in H by assumption.
      rewrite (Hax j) in H by lia.
      destruct (j <? size roi) eqn:E; [exact H | apply Z.ltb_ge in E; lia].
    + assert (Hin : In (j + 1) (counters 0 (S (S (S (List.length roi))))))
        by (apply counters_In; unfold size in *; lia).
      specialize (H _ Hin). rewrite separated_snoc in H by assumption.
      rewrite (Hax (j + 1)) in H by lia.
      destruct (j + 1 <? size roi) eqn:E; [apply Z.ltb_lt in E; lia|].
      destruct (j + 1 =? size roi) eqn:E0; [apply Z.eqb_eq in E0; lia|].
      rewrite (loop_axis_rect roi rect j Hge).
      rewrite (loop_axis_rect roi rect (j + 1)) in H by lia. exact H.
  - rewrite separated_snoc by assumption.
    rewrite (Hax j) by lia.
    destruct (j <? size roi) eqn:E.
    + apply Z.ltb_lt in E. apply H, counters_In. unfold size in *. lia.
    + apply Z.ltb_ge in E. destruct (j =? size roi) eqn:E0.
      * now rewrite separated_zero.
      * apply Z.eqb_neq in E0.
        rewrite (loop_axis_rect roi rect j E).
        rewrite <- (loop_axis_rect roi rect (size roi)) by lia.
        apply H, counters_In. unfold size. lia.
Qed.

Lemma closed_ring_same_result_witness :
  result (collision_detect
            [mkPoint 200 0; mkPoint 200 200; mkPoint 0 200; mkPoint 200 0]
            rect4)
  = result (collision_detect main_roi rect4).
Proof.
  apply (closed_ring_same_result (mkPoint 200 0)
           [mkPoint 200 200; mkPoint 0 200] rect4);
    unfold size; simpl; unfold Int.INT_MAX; lia.
Defined.

(** ** The iterations the loop runs *)

Lemma up_to_first_length P l :
  (List.length (up_to_first P l) <= List.length l)%nat.
Proof.
  induction l as [|j l IH]; simpl; [lia|].
  destruct (P j); simpl; lia.
Qed.

Lemma sat_loop_run roi rect todo i :
  0 <= i ->
  trace (sat_loop roi (rect_to_points rect) (project_count roi) todo i)
  = flat_map (accesses roi)
      (up_to_first
         (fun j => separated (loop_axis roi rect j) roi (rect_to_points rect))
         (counters i todo)).
Proof.
  revert i. induction todo as [|todo IH]; intros i Hi.
  - reflexivity.
  - destruct (edge_points_fits roi rect i Hi) as (t & E & Ht).
    cbn [sat_loop counters up_to_first].
    rewrite (bind_Some _ _ _ _ E). unfold trace at 1. cbn [fst].
    fold (loop_axis roi rect i).
    assert (Et : t = accesses roi i).
    { unfold accesses. destruct Ht as [[-> Hlt] | [-> Hge]].
      - destruct (i <? size roi) eqn:E';
          [reflexivity | apply Z.ltb_ge in E'; lia].
      - destruct (i <? size roi) eqn:E';
          [apply Z.ltb_lt in E'; lia | reflexivity]. }
    destruct (separated (loop_axis roi rect i) roi (rect_to_points rect)).
    + cbn [flat_map]. now rewrite Et.
    + cbn [flat_map]. rewrite Et. f_equal. apply IH. lia.
Qed.

Lemma flat_map_accesses_length roi l :
  List.length (flat_map (accesses roi) l) = (2 * List.length l)%nat.
Proof.
  induction l as [|j l IH]; [reflexivity|].
  cbn [flat_map]. rewrite length_app, IH. unfold accesses.
  destruct (j <? size roi); simpl; lia.
Qed.

(** X19. The loop stops at the first axis that separates the shapes.  When
    the bounding-box test has passed, the vector accesses the function
    makes are those of the iterations up to and including that of the first
    separating axis, or of all [n + 2] iterations when no axis separates,
    two accesses an iteration: at most [2 * (n + 2)] accesses. *)
Theorem loop_stops_at_first_separation (roi : list Point) (rect : Rect) :
  3 <= size roi -> size roi + 2 <= Int.INT_MAX ->
  boxes_disjoint roi rect = false ->
  trace (collision_detect roi rect)
  = flat_map (accesses roi) (iterations_run roi rect) /\
  Z.of_nat (List.length (trace (collision_detect roi rect)))
  <= 2 * (size roi + 2).
Proof.
  intros Hn Hfit Hbox.
  assert (E : trace (collision_detect roi rect)
              = flat_map (accesses roi) (iterations_run roi rect)).
  { rewrite (collision_detect_large roi rect Hn), Hbox.
    unfold sat_test, sat_test_upto, iterations_run.
    apply sat_loop_run. lia. }
  split; [exact E|].
  rewrite E, flat_map_accesses_length.
  unfold iterations_run. rewrite (iterations_fits roi Hfit).
  pose proof (up_to_first_length
    (fun j => separated (loop_axis roi rect j) roi (rect_to_points rect))
    (counters 0 (S (S (List.length roi))))) as Hle.
  rewrite counters_length in Hle.
  unfold size. lia.
Qed.

Lemma loop_stops_at_first_separation_witness :
  trace (collision_detect main_roi rect2)
  = flat_map (accesses main_roi) (iterations_run main_roi rect2) /\
  Z.of_nat (List.length (trace (collision_detect main_roi rect2)))
  <= 2 * (size main_roi + 2).
Proof.
  apply (loop_stops_at_first_separation main_roi rect2);
    [unfold size; simpl; lia
    | unfold size; simpl; unfold Int.INT_MAX; lia
    | reflexivity].
Defined.

(** ** Convex regions with a common point

    Helly's theorem in the plane, for finitely many convex regions: when
    every three of them have a point in common, all of them have. *)

(** Three vectors of the plane are linearly dependent. *)
Lemma dependent_3 a1 b1 a2 b2 a3 b3 :
  exists n1 n2 n3, ~ (n1 = 0 /\ n2 = 0 /\ n3 = 0) /\
    n1 * a1 + n2 * a2 + n3 * a3 = 0 /\ n1 * b1 + n2 * b2 + n3 * b3 = 0.
Proof.
  destruct (Z.eq_dec (a2 * b3 - a3 * b2) 0) as [E1 | N1];
    [|exists (a2 * b3 - a3 * b2), (a3 * b1 - a1 * b3), (a1 * b2 - a2 * b1);
      repeat split; [lia | ring | ring]].
  destruct (Z.eq_dec (a3 * b1 - a1 * b3) 0) as [E2 | N2];
    [|exists (a2 * b3 - a3 * b2), (a3 * b1 - a1 * b3), (a1 * b2 - a2 * b1);
      repeat split; [lia | ring | ring]].
  destruct (Z.eq_dec (a1 * b2 - a2 * b1) 0) as [E3 | N3];
    [|exists (a2 * b3 - a3 * b2), (a3 * b1 - a1 * b3), (a1 * b2 - a2 * b1);
      repeat split; [lia | ring | ring]].
  destruct (Z.eq_dec a1 0) as [A1 | A1].
  - destruct (Z.eq_dec b1 0) as [B1 | B1].
    + exists 1, 0, 0. subst. repeat split; lia.
    + exists b2, (- b1), 0. repeat split; lia.
  - exists a2, (- a1), 0. repeat split; lia.
Qed.

(** Four rational points are affinely dependent. *)
Lemma dependent_4 (v1 v2 v3 v4 : HPoint) :
  0 < hc v1 ->
  exists m1 m2 m3 m4, ~ (m1 = 0 /\ m2 = 0 /\ m3 = 0 /\ m4 = 0) /\
    m1 * hx v1 + m2 * hx v2 + m3 * hx v3 + m4 * hx v4 = 0 /\
    m1 * hy v1 + m2 * hy v2 + m3 * hy v3 + m4 * hy v4 = 0 /\
    m1 * hc v1 + m2 * hc v2 + m3 * hc v3 + m4 * hc v4 = 0.
Proof.
  intros H1.
  destruct (dependent_3
              (hc v1 * hx v2 - hc v2 * hx v1) (hc v1 * hy v2 - hc v2 * hy v1)
              (hc v1 * hx v3 - hc v3 * hx v1) (hc v1 * hy v3 - hc v3 * hy v1)
              (hc v1 * hx v4 - hc v4 * hx v1) (hc v1 * hy v4 - hc v4 * hy v1))
    as (n2 & n3 & n4 & Hne & Ex & Ey).
  exists (- (n2 * hc v2 + n3 * hc v3 + n4 * hc v4)),
         (n2 * hc v1), (n3 * hc v1), (n4 * hc v1).
  split; [|split; [|split]].
  - intros (_ & E2 & E3 & E4). apply Hne. nia.
  - rewrite <- Ex. ring.
  - rewrite <- Ey. ring.
  - ring.
Qed.

(** The positive and the negative part of a number. *)
Lemma parts m :
  exists p n, 0 <= p /\ 0 <= n /\ p = m + n /\ (p = 0 \/ n = 0).
Proof. exists (Z.max 0 m), (Z.max 0 (- m)). lia. Qed.

Lemma factor_zero p c : 0 < c -> p * c = 0 -> p = 0.
Proof. intros Hc H. apply Z.mul_eq_0 in H. lia. Qed.

(** Four products of a non-negative and a positive number that add up to
    0 have their first factors 0. *)
Lemma weights_zero p1 p2 p3 p4 c1 c2 c3 c4 :
  0 <= p1 -> 0 <= p2 -> 0 <= p3 -> 0 <= p4 ->
  0 < c1 -> 0 < c2 -> 0 < c3 -> 0 < c4 ->
  p1 * c1 + p2 * c2 + p3 * c3 + p4 * c4 = 0 ->
  p1 = 0 /\ p2 = 0 /\ p3 = 0 /\ p4 = 0.
Proof.
  intros H1 H2 H3 H4 C1 C2 C3 C4 E.
  assert (0 <= p1 * c1) by (apply Z.mul_nonneg_nonneg; lia).
  assert (0 <= p2 * c2) by (apply Z.mul_nonneg_nonneg; lia).
  assert (0 <= p3 * c3) by (apply Z.mul_nonneg_nonneg; lia).
  assert (0 <= p4 * c4) by (apply Z.mul_nonneg_nonneg; lia).
  repeat split; [apply (factor_zero _ c1) | apply (factor_zero _ c2)
                | apply (factor_zero _ c3) | apply (factor_zero _ c4)]; lia.
Qed.

(** A combination of three points of a convex region. *)
Lemma combination_3 (S : region) a va b vb c vc :
  convex_region S -> 0 <= a -> 0 <= b -> 0 <= c -> S va -> S vb -> S vc ->
  S (mkH (a * hx va + b * hx vb + c * hx vc)
         (a * hy va + b * hy vb + c * hy vc)
         (a * hc va + b * hc vb + c * hc vc)).
Proof.
  intros CS Ha Hb Hc Sa Sb Sc.
  replace (mkH _ _ _) with (hcomb 1 (hcomb a va b vb) c vc)
    by (unfold hcomb; cbn [hx hy hc]; f_equal; ring).
  apply CS; [lia | assumption | apply CS; assumption | assumption].
Qed.

(** Radon's point of four points, and Helly's theorem for four regions. *)
Lemma helly_4 (S1 S2 S3 S4 : region) :
  convex_region S1 -> convex_region S2 ->
  convex_region S3 -> convex_region S4 ->
  (exists v, 0 < hc v /\ S2 v /\ S3 v /\ S4 v) ->
  (exists v, 0 < hc v /\ S1 v /\ S3 v /\ S4 v) ->
  (exists v, 0 < hc v /\ S1 v /\ S2 v /\ S4 v) ->
  (exists v, 0 < hc v /\ S1 v /\ S2 v /\ S3 v) ->
  exists z, 0 < hc z /\ S1 z /\ S2 z /\ S3 z /\ S4 z.
Proof.
  intros C1 C2 C3 C4 (v1 & P1 & H12 & H13 & H14) (v2 & P2 & H21 & H23 & H24)
    (v3 & P3 & H31 & H32 & H34) (v4 & P4 & H41 & H42 & H43).
  destruct (dependent_4 v1 v2 v3 v4 P1)
    as (m1 & m2 & m3 & m4 & Hne & Ex & Ey & Ec).
  destruct (parts m1) as (p1 & n1 & Hp1 & Hn1 & E1 & Z1).
  destruct (parts m2) as (p2 & n2 & Hp2 & Hn2 & E2 & Z2).
  destruct (parts m3) as (p3 & n3 & Hp3 & Hn3 & E3 & Z3).
  destruct (parts m4) as (p4 & n4 & Hp4 & Hn4 & E4 & Z4).
  set (z := mkH (p1 * hx v1 + p2 * hx v2 + p3 * hx v3 + p4 * hx v4)
                (p1 * hy v1 + p2 * hy v2 + p3 * hy v3 + p4 * hy v4)
                (p1 * hc v1 + p2 * hc v2 + p3 * hc v3 + p4 * hc v4)).
  assert (Hpos : 0 < hc z).
  { unfold z. cbn [hc].
    assert (0 <= p1 * hc v1) by (apply Z.mul_nonneg_nonneg; lia).
    assert (0 <= p2 * hc v2) by (apply Z.mul_nonneg_nonneg; lia).
    assert (0 <= p3 * hc v3) by (apply Z.mul_nonneg_nonneg; lia).
    assert (0 <= p4 * hc v4) by (apply Z.mul_nonneg_nonneg; lia).
    destruct (Z.eq_dec (p1 * hc v1 + p2 * hc v2 + p3 * hc v3 + p4 * hc v4) 0)
      as [E0 | N0]; [|lia].
    exfalso. apply Hne.
    destruct (weights_zero _ _ _ _ _ _ _ _ Hp1 Hp2 Hp3 Hp4 P1 P2 P3 P4 E0)
      as (Q1 & Q2 & Q3 & Q4).
    assert (En : n1 * hc v1 + n2 * hc v2 + n3 * hc v3 + n4 * hc v4 = 0).
    { replace m1 with (- n1) in Ec by lia.
      replace m2 with (- n2) in Ec by lia.
      replace m3 with (- n3) in Ec by lia.
      replace m4 with (- n4) in Ec by lia.
      clear - Ec. lia. }
    destruct (weights_zero _ _ _ _ _ _ _ _ Hn1 Hn2 Hn3 Hn4 P1 P2 P3 P4 En)
      as (R1 & R2 & R3 & R4).
    lia. }
  exists z. split; [exact Hpos|].
  assert (Ez : z = mkH (n1 * hx v1 + n2 * hx v2 + n3 * hx v3 + n4 * hx v4)
                       (n1 * hy v1 + n2 * hy v2 + n3 * hy v3 + n4 * hy v4)
                       (n1 * hc v1 + n2 * hc v2 + n3 * hc v3 + n4 * hc v4)).
  { unfold z. rewrite E1, E2, E3, E4. f_equal.
    - transitivity (m1 * hx v1 + m2 * hx v2 + m3 * hx v3 + m4 * hx v4
                    + (n1 * hx v1 + n2 * hx v2 + n3 * hx v3 + n4 * hx v4));
        [ring | rewrite Ex; ring].
    - transitivity (m1 * hy v1 + m2 * hy v2 + m3 * hy v3 + m4 * hy v4
                    + (n1 * hy v1 + n2 * hy v2 + n3 * hy v3 + n4 * hy v4));
        [ring | rewrite Ey; ring].
    - transitivity (m1 * hc v1 + m2 * hc v2 + m3 * hc v3 + m4 * hc v4
                    + (n1 * hc v1 + n2 * hc v2 + n3 * hc v3 + n4 * hc v4));
        [ring | rewrite Ec; ring]. }
  clear Hpos Ex Ey Ec Hne E1 E2 E3 E4.
  repeat split.
  - destruct Z1 as [Z1 | Z1].
    + unfold z. rewrite Z1.
      replace (mkH _ _ _) with
        (mkH (p2 * hx v2 + p3 * hx v3 + p4 * hx v4)
             (p2 * hy v2 + p3 * hy v3 + p4 * hy v4)
             (p2 * hc v2 + p3 * hc v3 + p4 * hc v4)) by (f_equal; ring).
      now apply combination_3.
    + rewrite Ez, Z1.
      replace (mkH _ _ _) with
        (mkH (n2 * hx v2 + n3 * hx v3 + n4 * hx v4)
             (n2 * hy v2 + n3 * hy v3 + n4 * hy v4)
             (n2 * hc v2 + n3 * hc v3 + n4 * hc v4)) by (f_equal; ring).
      now apply combination_3.
  - destruct Z2 as [Z2 | Z2].
    + unfold z. rewrite Z2.
      replace (mkH _ _ _) with
        (mkH (p1 * hx v1 + p3 * hx v3 + p4 * hx v4)
             (p1 * hy v1 + p3 * hy v3 + p4 * hy v4)
             (p1 * hc v1 + p3 * hc v3 + p4 * hc v4)) by (f_equal; ring).
      now apply combination_3.
    + rewrite Ez, Z2.
      replace (mkH _ _ _) with
        (mkH (n1 * hx v1 + n3 * hx v3 + n4 * hx v4)
             (n1 * hy v1 + n3 * hy v3 + n4 * hy v4)
             (n1 * hc v1 + n3 * hc v3 + n4 * hc v4)) by (f_equal; ring).
      now apply combination_3.
  - destruct Z3 as [Z3 | Z3].
    + unfold z. rewrite Z3.
      replace (mkH _ _ _) with
        (mkH (p1 * hx v1 + p2 * hx v2 + p4 * hx v4)
             (p1 * hy v1 + p2 * hy v2 + p4 * hy v4)
             (p1 * hc v1 + p2 * hc v2 + p4 * hc v4)) by (f_equal; ring).
      now apply combination_3.
    + rewrite Ez, Z3.
      replace (mkH _ _ _) with
        (mkH (n1 * hx v1 + n2 * hx v2 + n4 * hx v4)
             (n1 * hy v1 + n2 * hy v2 + n4 * hy v4)
             (n1 * hc v1 + n2 * hc v2 + n4 * hc v4)) by (f_equal; ring).
      now apply combination_3.
  - destruct Z4 as [Z4 | Z4].
    + unfold z. rewrite Z4.
      replace (mkH _ _ _) with
        (mkH (p1 * hx v1 + p2 * hx v2 + p3 * hx v3)
             (p1 * hy v1 + p2 * hy v2 + p3 * hy v3)
             (p1 * hc v1 + p2 * hc v2 + p3 * hc v3)) by (f_equal; ring).
      now apply combination_3.
    + rewrite Ez, Z4.
      replace (mkH _ _ _) with
        (mkH (n1 * hx v1 + n2 * hx v2 + n3 * hx v3)
             (n1 * hy v1 + n2 * hy v2 + n3 * hy v3)
             (n1 * hc v1 + n2 * hc v2 + n3 * hc v3)) by (f_equal; ring).
      now apply combination_3.
Qed.

Lemma helly_length (k : nat) (L : list region) :
  List.length L = S k ->
  (forall S, In S L -> convex_region S) ->
  (forall S1 S2 S3, In S1 L -> In S2 L -> In S3 L ->
     exists v, 0 < hc v /\ S1 v /\ S2 v /\ S3 v) ->
  exists z, 0 < hc z /\ forall S, In S L -> S z.
Proof.
  revert L. induction k as [|k IH]; intros L Hlen Hconv Htriple.
  - destruct L as [|S [|S' L]]; try discriminate.
    destruct (Htriple S S S) as (v & Hv & Sv & _); try (left; reflexivity).
    exists v. split; [exact Hv|]. intros T [<- | []]. exact Sv.
  - destruct L as [|S L]; [discriminate|].
    injection Hlen as Hlen.
    destruct (IH (map (fun (T : region) v => T v /\ S v) L)) as (z & Hz & Hall).
    + now rewrite length_map.
    + intros T' HT'. apply in_map_iff in HT'. destruct HT' as (T & <- & HT).
      intros a v b w Ha Hb [Tv Sv] [Tw Sw]. split.
      * apply (Hconv T); auto. now right.
      * apply (Hconv S); auto. now left.
    + intros T1' T2' T3' H1 H2 H3.
      apply in_map_iff in H1, H2, H3.
      destruct H1 as (T1 & <- & H1), H2 as (T2 & <- & H2),
               H3 as (T3 & <- & H3).
      assert (IS : In S (S :: L)) by now left.
      assert (I1 : In T1 (S :: L)) by now right.
      assert (I2 : In T2 (S :: L)) by now right.
      assert (I3 : In T3 (S :: L)) by now right.
      destruct (helly_4 T1 T2 T3 S) as (z & Hz & Z1 & Z2 & Z3 & ZS); auto.
      exists z. tauto.
    + exists z. split; [exact Hz|]. intros T [<- | HT].
      * destruct L as [|T L]; [discriminate|].
        destruct (Hall (fun v => T v /\ S v)) as [_ Sz]; [now left|].
        exact Sz.
      * destruct (Hall (fun v => T v /\ S v)) as [Tz _].
        { apply in_map_iff. exists T. auto. }
        exact Tz.
Qed.

Lemma helly (L : list region) :
  L <> [] ->
  (forall S, In S L -> convex_region S) ->
  (forall S1 S2 S3, In S1 L -> In S2 L -> In S3 L ->
     exists v, 0 < hc v /\ S1 v /\ S2 v /\ S3 v) ->
  exists z, 0 < hc z /\ forall S, In S L -> S z.
Proof.
  intros Hne. destruct L as [|S L]; [congruence|].
  apply (helly_length (List.length L)). reflexivity.
Qed.

(** ** A point of a convex polygon as a combination of its vertices *)

Lemma discrete_ivt (f : Z -> Z) (k : nat) a :
  0 <= f a -> f (a + Z.of_nat (S k)) <= 0 ->
  exists i, a <= i < a + Z.of_nat (S k) /\ 0 <= f i /\ f (i + 1) <= 0.
Proof.
  revert a. induction k as [|k IH]; intros a Ha Hb.
  - exists a. change (Z.of_nat 1) with 1 in *. repeat split; auto; lia.
  - destruct (Z_le_gt_dec (f (a + 1)) 0) as [Hle | Hgt].
    + exists a. repeat split; auto; lia.
    + destruct (IH (a + 1)) as (i & Hi & H1 & H2); [lia| |].
      * replace (a + 1 + Z.of_nat (S k)) with (a + Z.of_nat (S (S k))) by lia.
        exact Hb.
      * exists i. repeat split; auto; lia.
Qed.

Lemma weighted_sum_add f (g h : Z -> Z) l pts :
  Spec.weighted_sum f (map (fun j => g j + h j) l) pts
  = Spec.weighted_sum f (map g l) pts + Spec.weighted_sum f (map h l) pts.
Proof.
  revert pts. induction l as [|j l IH]; intros [|p pts]; simpl; try lia.
  rewrite IH. ring.
Qed.

Lemma spike_before f a w k m pts :
  a < k -> Spec.weighted_sum f (map (spike a w) (counters k m)) pts = 0.
Proof.
  revert k pts. induction m as [|m IH]; intros k [|p pts] Hk; simpl; auto.
  rewrite IH by lia. unfold spike.
  destruct (k =? a) eqn:E; [apply Z.eqb_eq in E; lia | lia].
Qed.

Lemma spike_at f a w k pts :
  k <= a < k + size pts ->
  Spec.weighted_sum f (map (spike a w) (counters k (List.length pts))) pts
  = w * f (nth (Z.to_nat (a - k)) pts (mkPoint 0 0)).
Proof.
  revert k. induction pts as [|p pts IH]; intros k Hk.
  - unfold size in Hk. simpl in Hk. lia.
  - cbn [List.length counters map Spec.weighted_sum]. unfold spike at 1.
    destruct (k =? a) eqn:E.
    + apply Z.eqb_eq in E. subst a. rewrite spike_before by lia.
      rewrite Z.sub_diag. simpl. ring.
    + apply Z.eqb_neq in E. rewrite IH.
      * replace (Z.to_nat (a - k)) with (S (Z.to_nat (a - (k + 1)))) by lia.
        simpl. ring.
      * unfold size in *. simpl List.length in Hk. lia.
Qed.

Lemma spike_vertex f a w pts :
  0 <= a < size pts ->
  Spec.weighted_sum f (map (spike a w) (counters 0 (List.length pts))) pts
  = w * f (vertex pts a).
Proof.
  intros Ha. rewrite spike_at by lia. unfold vertex. now rewrite Z.sub_0_r.
Qed.

Lemma total_weighted cs (pts : list Point) :
  List.length cs = List.length pts ->
  Spec.total cs = Spec.weighted_sum (fun _ => 1) cs pts.
Proof.
  revert pts. induction cs as [|c cs IH]; intros [|p pts] Hlen;
    try discriminate; [reflexivity|].
  injection Hlen as Hlen. specialize (IH pts Hlen).
  unfold Spec.total in *. cbn [fold_right Spec.weighted_sum].
  rewrite IH. ring.
Qed.

Section Hull.

Variable roi : list Point.
Variable s : Z.
Variable z : HPoint.
Hypothesis Hn : 3 <= size roi.
Hypothesis Hs : s = 1 \/ s = -1.
Hypothesis Hwound : Spec.wound s roi = true.
Hypothesis Hz : 0 < hc z.
Hypothesis Hinside : forall i, 0 <= i < size roi -> 0 <= s * hside roi i z.

Let n := size roi.
Let v0 := vertex roi 0.

(** The side of the line from vertex 0 to vertex [k] the point lies on. *)
Let fan (k : Z) : Z :=
  s * Spec.cross (Spec.sub (vertex roi k) v0)
                 (mkVec (hx z - hc z * px v0) (hy z - hc z * py v0)).

(** A point on the inner sides of all edges lies in a triangle of the fan
    from vertex 0, and is the combination of its three vertices with the
    areas it makes with them for weights. *)
Lemma inside_in_polygon :
  exists T, 0 < T /\
    Spec.in_polygon roi (T * hx z) (T * hy z) (T * hc z).
Proof.
  assert (H1 : 0 <= fan 1).
  { pose proof (Hinside 0 ltac:(lia)) as H. unfold hside, Spec.edge in H.
    rewrite Z.mod_small in H by lia. exact H. }
  assert (Hlast : fan (n - 1) <= 0).
  { pose proof (Hinside (n - 1) ltac:(unfold n; lia)) as H.
    unfold hside, Spec.edge in H. fold n in H.
    replace (n - 1 + 1) with n in H by lia.
    rewrite Z.mod_same in H by (unfold n; lia).
    unfold fan. fold v0 in H.
    unfold Spec.cross, Spec.sub in *. cbn [vx vy] in *. lia. }
  destruct (discrete_ivt fan (Z.to_nat (n - 3)) 1 H1) as (i & Hi & Fi & Fi').
  { replace (1 + Z.of_nat (S (Z.to_nat (n - 3)))) with (n - 1)
      by (unfold n in *; lia).
    exact Hlast. }
  assert (Hi' : 1 <= i <= n - 2) by (unfold n in *; lia). clear Hi.
  assert (Ii : 0 <= i < size roi) by (fold n; lia).
  assert (Ii' : 0 <= i + 1 < size roi) by (fold n; lia).
  pose proof (Hinside i Ii) as Si.
  pose proof (wound_strict roi s Hwound i 0 Ii ltac:(lia) ltac:(lia)) as HT.
  rewrite Z.mod_small in HT by lia. specialize (HT ltac:(lia)).
  unfold hside, side_of, Spec.edge in Si, HT.
  rewrite Z.mod_small in Si, HT by lia. fold v0 in HT.
  set (vi := vertex roi i) in *. set (vj := vertex roi (i + 1)) in *.
  set (T := s * Spec.cross (Spec.sub vj vi) (Spec.sub v0 vi)) in *.
  set (w0 := s * Spec.cross (Spec.sub vj vi)
                   (mkVec (hx z - hc z * px vi) (hy z - hc z * py vi))) in *.
  exists T. split; [exact HT|].
  set (cs := map (fun j => spike 0 w0 j
                           + (spike i (- fan (i + 1)) j
                              + spike (i + 1) (fan i) j))
                 (counters 0 (List.length roi))).
  assert (Hlen : List.length cs = List.length roi)
    by (unfold cs; now rewrite length_map, counters_length).
  assert (Hsum : forall f, Spec.weighted_sum f cs roi
            = w0 * f v0 + - fan (i + 1) * f vi + fan i * f vj).
  { intros f. unfold cs. rewrite !weighted_sum_add.
    rewrite !spike_vertex by lia. fold v0 vi vj. ring. }
  exists cs. split; [exact Hlen|]. split; [|split; [|split]].
  - apply Forall_forall. intros c Hc. unfold cs in Hc.
    apply in_map_iff in Hc. destruct Hc as (j & <- & _). unfold spike.
    destruct (j =? 0), (j =? i), (j =? i + 1); lia.
  - rewrite (total_weighted cs roi Hlen), Hsum.
    unfold w0, fan, T, Spec.cross, Spec.sub. fold vi vj. cbn [vx vy]. ring.
  - rewrite Hsum.
    unfold w0, fan, T, Spec.cross, Spec.sub. fold vi vj. cbn [vx vy]. ring.
  - rewrite Hsum.
    unfold w0, fan, T, Spec.cross, Spec.sub. fold vi vj. cbn [vx vy]. ring.
Qed.

End Hull.

(** ** Shapes no axis separates have a point in common *)

Lemma hside_at_point pts i p : hside pts i (at_point p) = side_of pts i p.
Proof.
  unfold hside, side_of, at_point, Spec.sub. cbn [hx hy hc].
  f_equal. f_equal; ring.
Qed.

Lemma edge_region_convex s pts i : convex_region (edge_region s pts i).
Proof.
  intros a v b w Ha Hb Hv Hw. unfold edge_region in *.
  replace (s * hside pts i (hcomb a v b w))
    with (a * (s * hside pts i v) + b * (s * hside pts i w)).
  - apply Z.add_nonneg_nonneg; now apply Z.mul_nonneg_nonneg.
  - unfold hside, hcomb, Spec.cross. cbn [hx hy hc vx vy]. ring.
Qed.

Lemma box_regions_convex r S : In S (box_regions r) -> convex_region S.
Proof.
  intros [<- | [<- | [<- | [<- | []]]]] a v b w Ha Hb Hv Hw;
    unfold hcomb; cbn [hx hy hc]; nia.
Qed.

Section Common.

Variable roi : list Point.
Variable s : Z.
Variable rect : Rect.
Hypothesis Hn : 3 <= size roi.
Hypothesis Hs : s = 1 \/ s = -1.
Hypothesis Hwound : Spec.wound s roi = true.
Hypothesis Hw : 0 <= width rect.
Hypothesis Hh : 0 <= height rect.
Hypothesis Hun : unseparated roi rect.

Let corners := Spec.polygon_of rect.

Let regions : list region :=
  map (edge_region s roi) (counters 0 (List.length roi)) ++ box_regions rect.

(** The regions of the edges hold all vertices, those of the rectangle
    all corners. *)
Let of_roi (S : region) : Prop :=
  (forall a, In a roi -> S (at_point a)) /\
  exists c, In c corners /\ S (at_point c).

Let of_rect (S : region) : Prop :=
  (forall c, In c corners -> S (at_point c)) /\
  exists a, In a roi /\ S (at_point a).

Lemma edge_region_of_roi i :
  0 <= i < size roi -> of_roi (edge_region s roi i).
Proof.
  intros Hi. split.
  - intros a Ha. unfold edge_region. rewrite hside_at_point.
    destruct (In_vertex roi a Ha) as (j & Hj & ->).
    now apply (wound_weak roi s Hwound).
  - destruct Hun as (_ & _ & Hedges). specialize (Hedges i Hi).
    assert (Hc : forall c, {0 <= s * side_of roi i c} +
                            {s * side_of roi i c < 0})
      by (intros c; destruct (Z_le_gt_dec 0 (s * side_of roi i c));
          [left | right]; lia).
    unfold edge_region.
    destruct (Hc (vertex corners 0)) as [H0 | H0];
      [exists (vertex corners 0); rewrite hside_at_point; split;
       [left; reflexivity | exact H0]|].
    destruct (Hc (vertex corners 1)) as [H1 | H1];
      [exists (vertex corners 1); rewrite hside_at_point; split;
       [right; left; reflexivity | exact H1]|].
    destruct (Hc (vertex corners 2)) as [H2 | H2];
      [exists (vertex corners 2); rewrite hside_at_point; split;
       [right; right; left; reflexivity | exact H2]|].
    destruct (Hc (vertex corners 3)) as [H3 | H3];
      [exists (vertex corners 3); rewrite hside_at_point; split;
       [right; right; right; left; reflexivity | exact H3]|].
    exfalso. apply Hedges.
    apply (edge_separates roi s Hs Hwound i corners Hi).
    intros q [<- | [<- | [<- | [<- | []]]]]; assumption.
Qed.

Lemma box_region_of_rect S : In S (box_regions rect) -> of_rect S.
Proof.
  intros HS. destruct Hun as (Hx & Hy & _).
  pose proof (roi_nonempty roi Hn) as Hne.
  assert (Hc : forall c, In c corners ->
               left rect <= px c <= left rect + width rect /\
               top rect <= py c <= top rect + height rect).
  { intros c [<- | [<- | [<- | [<- | []]]]]; simpl; lia. }
  destruct (farthest_vertex px roi Hne) as (kx & Hkx & Mx).
  destruct (farthest_vertex (fun p => - px p) roi Hne) as (lx & Hlx & Nx).
  destruct (farthest_vertex py roi Hne) as (ky & Hky & My).
  destruct (farthest_vertex (fun p => - py p) roi Hne) as (ly & Hly & Ny).
  destruct HS as [<- | [<- | [<- | [<- | []]]]].
  - split; [intros c Ic; destruct (Hc c Ic); cbn [at_point hx hc]; lia|].
    exists (vertex roi kx). split; [now apply vertex_In|].
    cbn [at_point hx hc].
    destruct (Z_le_gt_dec (left rect) (px (vertex roi kx))); [lia|].
    exfalso. apply Hx. right. intros a c Ia Ic.
    specialize (Mx a Ia). destruct (Hc c Ic). lia.
  - split; [intros c Ic; destruct (Hc c Ic); cbn [at_point hx hc]; lia|].
    exists (vertex roi lx). split; [now apply vertex_In|].
    cbn [at_point hx hc].
    destruct (Z_le_gt_dec (px (vertex roi lx)) (left rect + width rect));
      [lia|].
    exfalso. apply Hx. left. intros a c Ia Ic.
    specialize (Nx a Ia). cbv beta in Nx. destruct (Hc c Ic). lia.
  - split; [intros c Ic; destruct (Hc c Ic); cbn [at_point hy hc]; lia|].
    exists (vertex roi ky). split; [now apply vertex_In|].
    cbn [at_point hy hc].
    destruct (Z_le_gt_dec (top rect) (py (vertex roi ky))); [lia|].
    exfalso. apply Hy. right. intros a c Ia Ic.
    specialize (My a Ia). destruct (Hc c Ic). lia.
  - split; [intros c Ic; destruct (Hc c Ic); cbn [at_point hy hc]; lia|].
    exists (vertex roi ly). split; [now apply vertex_In|].
    cbn [at_point hy hc].
    destruct (Z_le_gt_dec (py (vertex roi ly)) (top rect + height rect));
      [lia|].
    exfalso. apply Hy. left. intros a c Ia Ic.
    specialize (Ny a Ia). cbv beta in Ny. destruct (Hc c Ic). lia.
Qed.

Lemma region_kinds S : In S regions -> of_roi S \/ of_rect S.
Proof.
  intros HS. apply in_app_or in HS. destruct HS as [HS | HS].
  - left. apply in_map_iff in HS. destruct HS as (i & <- & Hi).
    apply counters_In in Hi. apply edge_region_of_roi. unfold size. lia.
  - right. now apply box_region_of_rect.
Qed.

(** Any three of the regions have a vertex or a corner in common. *)
Lemma three_regions S1 S2 S3 :
  In S1 regions -> In S2 regions -> In S3 regions ->
  exists v, 0 < hc v /\ S1 v /\ S2 v /\ S3 v.
Proof.
  intros H1 H2 H3.
  assert (Hv : exists a, In a roi)
    by (destruct roi as [|a l]; [unfold size in Hn; simpl in Hn; lia
                                | exists a; now left]).
  assert (Hc : exists c, In c corners)
    by (exists (vertex corners 0); left; reflexivity).
  assert (Hp : forall p, 0 < hc (at_point p)) by (intros; simpl; lia).
  destruct (region_kinds S1 H1)
    as [[A1 (c1 & Ic1 & B1)] | [A1 (a1 & Ia1 & B1)]],
      (region_kinds S2 H2)
    as [[A2 (c2 & Ic2 & B2)] | [A2 (a2 & Ia2 & B2)]],
      (region_kinds S3 H3)
    as [[A3 (c3 & Ic3 & B3)] | [A3 (a3 & Ia3 & B3)]].
  - destruct Hv as (a & Ia). exists (at_point a). auto.
  - exists (at_point a3). auto.
  - exists (at_point a2). auto.
  - exists (at_point c1). auto.
  - exists (at_point a1). auto.
  - exists (at_point c2). auto.
  - exists (at_point c3). auto.
  - destruct Hc as (c & Ic). exists (at_point c). auto.
Qed.

Lemma unseparated_meet : Spec.meet roi rect.
Proof.
  destruct (helly regions) as (z & Hz & Hall).
  - unfold regions. intros E. apply app_eq_nil in E. destruct E as [_ E].
    discriminate.
  - intros S HS. apply in_app_or in HS. destruct HS as [HS | HS].
    + apply in_map_iff in HS. destruct HS as (i & <- & _).
      apply edge_region_convex.
    + now apply (box_regions_convex rect).
  - apply three_regions.
  - assert (Hin : forall i, 0 <= i < size roi -> 0 <= s * hside roi i z).
    { intros i Hi. apply (Hall (edge_region s roi i)).
      apply in_or_app. left. apply in_map. apply counters_In.
      unfold size in Hi. lia. }
    destruct (inside_in_polygon roi s z Hn Hwound Hin) as (T & HT & Hpoly).
    exists (T * hx z), (T * hy z), (T * hc z).
    split; [nia|]. split; [exact Hpoly|].
    assert (B : forall S, In S (box_regions rect) -> S z)
      by (intros S HS; apply Hall, in_or_app; now right).
    pose proof (B _ (or_introl eq_refl)) as B0.
    pose proof (B _ (or_intror (or_introl eq_refl))) as B1.
    pose proof (B _ (or_intror (or_intror (or_introl eq_refl)))) as B2.
    pose proof (B _ (or_intror (or_intror (or_intror (or_introl eq_refl)))))
      as B3.
    cbv beta in B0, B1, B2, B3.
    unfold Spec.in_rectangle. nia.
Qed.

End Common.

(** X20. For a convex ROI the function decides whether the two closed
    shapes have a point in common: [collision_detect] returns [true] when
    the rectangle and the region the ROI bounds (the convex hull of its
    vertices) share a point, with rational coordinates in general, and
    [false] when they share none.  One half is that shapes with a common
    point have no separating axis at all; the other is the separating-axis
    theorem: the half-planes of the ROI edges and of the rectangle sides
    are convex regions of which, when no axis of the test separates the
    shapes, any three have a vertex or a corner in common, so that by
    Helly's theorem all have a point in common, which is a combination of
    three vertices of the ROI. *)
Theorem collision_iff_common_point (roi : list Point) (rect : Rect) :
  3 <= size roi -> Spec.convex roi = true ->
  proper_rect rect = true -> no_overflow roi rect = true ->
  (result (collision_detect roi rect) = Some true <-> Spec.meet roi rect) /\
  (result (collision_detect roi rect) = Some false <-> ~ Spec.meet roi rect).
Proof.
  intros Hn Hconvex Hproper Hexact.
  destruct (proper_rect_inv rect Hproper) as [Hw Hh].
  destruct (convex_wound roi Hconvex) as (s & Hs & Hwound).
  pose proof (collision_unseparated roi rect Hn Hproper Hexact) as Hcode.
  assert (Htrue : result (collision_detect roi rect) = Some true
                  <-> Spec.meet roi rect).
  { rewrite Hcode. split.
    - now apply (unseparated_meet roi s rect).
    - intros Hmeet. repeat split.
      + intros H. apply (meet_not_apart roi rect 1 0 Hw Hh Hmeet).
        revert H. apply strictly_apart_ext; intros; lia.
      + intros H. apply (meet_not_apart roi rect 0 1 Hw Hh Hmeet).
        revert H. apply strictly_apart_ext; intros; lia.
      + intros j Hj. apply (meet_not_apart roi rect _ _ Hw Hh Hmeet). }
  split; [exact Htrue|].
  destruct (collision_returns roi rect Hn Hexact) as [b Hb].
  rewrite Hb in *. destruct b.
  - split; [discriminate|]. intros H. exfalso. apply H. now apply Htrue.
  - split; [|reflexivity]. intros _ H. apply Htrue in H. discriminate.
Qed.

Lemma collision_iff_common_point_witness :
  (result (collision_detect main_roi rect2) = Some true
   <-> Spec.meet main_roi rect2) /\
  (result (collision_detect main_roi rect2) = Some false
   <-> ~ Spec.meet main_roi rect2).
Proof.
  apply (collision_iff_common_point main_roi rect2);
    [unfold size; simpl; lia | reflexivity | reflexivity | reflexivity].
Defined.

(** ** The program *)

(** X21. [main] returns 0 and prints two lines, which give the results of
    its four calls: collision, no collision, no collision, collision (the
    diagnostic of line 81 is not among them).  The two lines determine the
    four results, whatever these are: no two different outcomes print the
    same text. *)
Theorem main_output :
  result main = Some 0 /\
  printed (trace main) =
    [ String.append
        "collision detect, rect1 and roi:collision, rect2 and roi:no collision"
        newline;
      String.append
        "collision dedect ,rec3 and roi:no collision, rect4 and roi:collision"
        newline ] /\
  forall ret1 ret2 ret3 ret4 ret1' ret2' ret3' ret4',
    printed (trace (report ret1 ret2 ret3 ret4))
    = printed (trace (report ret1' ret2' ret3' ret4')) ->
    (ret1, ret2, ret3, ret4) = (ret1', ret2', ret3', ret4').
Proof.
  split; [vm_compute; reflexivity|]. split; [vm_compute; reflexivity|].
  intros ret1 ret2 ret3 ret4 ret1' ret2' ret3' ret4' H.
  destruct ret1, ret2, ret3, ret4, ret1', ret2', ret3', ret4';
    try reflexivity; vm_compute in H; discriminate H.
Qed.

Lemma main_output_witness :
  (true, false, false, true) = (true, false, false, true).
Proof.
  apply (proj2 (proj2 main_output) true false false true true false false true).
  reflexivity.
Defined.
